(* ===== verification/_CoqProject ===== *)
-Q . S2P
Prelude.v
Random.v
ModArith.v
PyPow.v
Primality.v
Liars.v
KeyGen.v
Utf8.v
Codec.v
Crypto.v
App.v
Store.v
Graph.v
Output.v
