(* ===== verification/Prelude.v ===== *)
(** * A verification of the textbook RSA engine of Tack-12/Algorithms_Projects

    The program.  [src/RSA.py] is a textbook RSA engine with an
    interactive text menu around it; [src/Project3/Project3/project3.py]
    is an unrelated graph demo: it builds a weighted graph of nine
    nodes, prints networkx's Dijkstra distances and paths from "A" and
    Prim's minimum spanning tree with its weight, and draws both with
    matplotlib.  The engine has five parts, leaves first:
    - modular arithmetic: [egcd] (recursive extended Euclid) and
      [modinv] (RSA.py lines 41-52);
    - primality: [is_probable_prime] (trial division by the primes up to
      29, then Miller-Rabin with [k] random witnesses, lines 7-30);
    - key generation: [generate_prime] (rejection sampling of [bits]-bit
      odd candidates, lines 32-38) and [generate_keypair] (lines 55-74);
    - the codec: [text_to_int] and [int_to_text] (UTF-8 plus big-endian
      bytes, lines 76-81);
    - the crypto operations [encrypt_text_plainstore],
      [decrypt_cipher_to_text], [sign_text], [verify_text] (lines 83-111);
    and the menu ([main_menu], [public_user_menu], [owner_menu], lines
    113-262) keeps the key pair and the message and signature lists in
    module globals and calls the engine.

    The library.  One file per part, each requiring the ones it calls:
    - [Prelude] (this file): the Python exceptions the code raises
      ([exn]), the outcome of a Python computation ([outcome]: a value, a
      raised exception, or [OutOfFuel] for a loop that has not finished
      within the fuel given), its bind and notations in [py_scope], the
      Python integer operations that can raise ([py_mod], [py_floordiv]),
      [bit_length], the shared tactics and the hint database [py].
    - [Random]: the [secrets] module as an interface, the type class
      [RandomSource] (what [randbelow] and [randbits] return, threading
      an explicit generator state) with its laws [RandomSourceOk], the
      Python wrappers that raise on bad bounds, and a scripted instance
      for concrete runs.
    - [ModArith]: [egcd] with fuel and the proof that a logarithmic
      fuel suffices, [modinv].
    - [PyPow]: Python's three-argument [pow] (square and multiply,
      negative moduli and negative exponents included) and its
      equivalence with [b ^ e mod m].
    - [Primality]: [is_probable_prime] as trial division ([small_primes],
      [trial_division]), the split [n - 1 = d 2^r] ([factor_twos]) and
      the Miller-Rabin rounds ([mr_rounds], [mr_witness],
      [square_loop]), in a section over the random source; the loop
      of lines 14-18 written literally with fuel ([twos_loop]).
    - [Liars]: the Miller-Rabin round on the kernel's 63-bit integers,
      proved equal to [mr_witness] below [2 ^ 31], to count the
      witnesses of a Carmichael number that let a round pass.
    - [KeyGen]: the key records [PublicKey], [PrivateKey], [candidate],
      [prime_search] / [generate_prime], the loop [while q == p]
      ([redraw_q]), the fallback exponent loop ([choose_e]) and
      [generate_keypair], each [while True] with fuel.
    - [Utf8]: the builtins [str.encode('utf-8')] and strict
      [bytes.decode('utf-8')] ([encode_utf8], [decode_utf8]) on strings
      as lists of code points, per Unicode Table 3-7.
    - [Codec]: the builtins [int.from_bytes] and [int.to_bytes]
      ([from_bytes], [to_bytes]), and [text_to_int], [int_to_text].
    - [Crypto]: [encrypt_text_plainstore], [decrypt_cipher_to_text],
      [sign_text], [verify_text], and the RSA exponent identity.
    - [App]: the module globals and standard streams as the record
      [AppState]; a state/exception/exit monad [app] whose results keep
      the state also when the run crashes ([Done], [Exit], [Raise],
      [Stuck]); [main_menu], [public_user_menu], [owner_menu] as fuelled
      loops composed as in the code, [main] with its [except
      KeyboardInterrupt] (Ctrl-C at a prompt ends the input, as
      [input_end] says), each menu choice a definition
      ([public_send], [public_authenticate], [owner_decrypt],
      [owner_sign], [owner_show_keys], [owner_new_keys]) and the
      selection code [read_selection]; [print] calls as [event]s.  The
      string builtins that read Unicode tables ([str.isdigit], [int] on
      digits, [str.upper]) are the type class [StrBuiltins] with the laws
      [StrBuiltinsOk]; [latin1_builtins] gives them on Latin-1.
    - [Store]: the contract of the menus with the stores as an abstract
      machine ([Store], [store_step], [steps]) and the refinement of it
      by [main_menu] ([abstract], [refines]).
    - [Graph]: project3.py.  Graphs as node and edge lists in insertion
      order ([graph], [add_edge], [add_weighted_edges_from], [G]);
      networkx's Dijkstra ([relax], [dijkstra_loop], with the heap of
      [(dist, counter, node)] as a list) and Prim ([push_frontier],
      [prim_inner], [prim_outer]) as networkx writes them, since the
      script's results are theirs; [distances], [shortest_paths],
      [report_a], [SPT_edges], [MST], [total_weight] as the script's
      lines.  [set.pop()], which picks Prim's start node by string
      hash, is a parameter [pick].
    - [Output]: the rest of project3.py: networkx's edge iteration
      ([edges_view] in [Graph]), the lines of part (b) ([part_b]), the
      figure as the marks each drawing call puts in its panel ([pos],
      [labels], [draw_panel], [figure]), and the script composed from
      top to bottom ([project3]).

    The theorems, by group:
    - ModArith: Bezout identity and gcd of [egcd] on every input,
      termination with fuel [2 log2 |b| + 3] (hence a recursion depth far
      below Python's limit for RSA-sized inputs: at most 36 frames for
      [e = 65537]), [modinv] returns the inverse in [[0, m)] exactly when
      [gcd a m = 1] and raises otherwise.
    - PyPow: the square-and-multiply routine equals [b ^ e mod m].
    - Primality: every prime passes for every random source
      (Miller-Rabin never rejects a prime, via Fermat's little theorem
      from Stdlib.Zmod and the square roots of 1 modulo a prime), the
      test always returns, the test is exact below [31 * 31]; the loop
      [while d % 2 == 0] splits [d] into [d' * 2 ^ r] with [d'] odd and
      never returns on 0.
    - Liars: the Carmichael number 252601 = 41 * 61 * 101 gets past
      trial division, and at most a quarter of the witnesses (18748
      of 252598) let a Miller-Rabin round pass: the spec's [4 ^ -k]
      bound for this number.
    - KeyGen: the candidates have exactly [bits] bits and are odd, a
      returned prime has them and passed the test, a returned key pair
      satisfies the RSA key invariant [valid_keypair], the search exits
      as soon as a prime is drawn, and [generate_keypair 2] never
      returns (a finding: [bits = 2] is accepted, its only prime is 3).
    - Utf8/Codec: the UTF-8 round trip, canonical decoding, lone
      surrogates raise; [int_to_text (text_to_int s) = s] exactly when
      [s] does not start with NUL (a finding: the empty string comes back
      as NUL).
    - Crypto: the exponent identity [(m^e)^d = m mod p q] (Fermat on
      each prime and the Chinese remainder argument); decryption inverts
      encryption and verification accepts signatures, under a valid key
      pair with prime factors; a signature of another message is
      rejected; the [ValueError] boundary at [n]; [verify_text] raising
      on a lone surrogate (a finding: the spec says it never fails).
      Concrete runs use the 20-bit key pair [generate_keypair] builds
      from a scripted source.
    - App: every menu keeps any preorder on states that its primitive
      steps keep ([app_rel], [main_menu_rel]); hence the public user
      never touches keys or signatures and only appends ciphertexts, the
      key invariant holds through key regeneration, the output only
      grows, the fuel needed is one more than the number of input lines,
      typing an item's numeral selects it, and a digit that [int] cannot
      read crashes the program (a finding).  End to end: a message the
      public user sends is shown, in upper case, to the owner who
      decrypts it ([send_then_decrypt], from the one-iteration lemmas
      of each menu).  At the end of the input [main] exits with status
      0 on Ctrl-C but lets [EOFError] escape ([main_input_end], a
      finding).
    - Store: the menus refine the abstract store machine on every input
      however the run ends; hence nothing stored is ever lost, key
      regeneration included.
    - Graph: Dijkstra returns, every
      node has a path of its printed distance, no walk is lighter and
      the printed path is the only walk as light (a checker
      [certified], proved sound for every graph, run on [G]); the
      [SPT_edges] form a tree of tight edges; for every [pick] Prim
      returns the same eight edges, spanning, of weight 146; and every
      spanning subgraph of [G] weighs at least 146 (an enumeration of
      the edge subsets, pruned by weight and by cut certificates,
      [light_disconnected], proved sound).
    - Output: on any graph with distinct nodes part (b) prints each
      edge once, from its earlier node (a general theorem on networkx's
      [G.edges]); on the demo, from every start, the printed tree is
      the same eight edges with the same orientation and total 146, the
      figure is drawn without error with every highlighted segment on
      an edge of [G], and the whole script runs to its end with the
      listed part (a).  The order of part (b) differs between starts
      (a finding, shown by evaluating two runs: the output depends on
      the hash seed).

    Fuel.  Loops that the Python code writes as [while True] are given a
    fuel argument and return [OutOfFuel] when it is exhausted.  [egcd]
    gets [2 log2 |b| + 3], proved enough.  The menu loops read a line per
    iteration, so one more than the number of input lines is enough
    ([main_menu_fuel]).  Dijkstra gets [2 |E| + 2] iterations (each
    pops one heap entry, and at most one entry is pushed for the source
    and per edge end) and Prim [|V| + 2 |E| + 2] (as many rounds of
    the outer loop as nodes, as many pops as pushes); the theorems on
    [G] show that they return within that fuel.  The rejection-sampling loops of [KeyGen] have no
    bound (the spec says so too): theorems about them are stated for the
    runs that return, and liveness for the run that draws a prime first.

    Not modelled: probabilities (the uniformity of [secrets], the
    [4 ^ -k] error bound of Miller-Rabin); the text of what is printed
    (hexadecimal keys, menu texts, the prompts of [input]);
    [KeyboardInterrupt] other than at a prompt (Ctrl-C while a
    computation runs); Unicode tables beyond Latin-1 for [str.isdigit]
    and [str.upper] (an interface instead); in project3.py, the
    rendering by matplotlib (the figure is modelled as what each call
    draws: nodes, segments, labels, colours, titles, not as pixels;
    sizes and fonts are left out) and the floats of [pos] (kept as the
    decimals written, which only place the marks); the hash order of
    [set.pop()] is a parameter, every theorem holding for each start. *)

From Stdlib Require Import ZArith Lia List Permutation.
Import ListNotations.
Open Scope Z_scope.

(** ** Python exceptions raised by the modelled code *)

(** Each constructor is one [raise] site of the code or one exception
    raised by a builtin the code calls. *)
Inductive exn : Type :=
| ValueError_bits          (* generate_prime: "bits must be >= 2" *)
| ValueError_no_inverse    (* modinv: "modular inverse does not exist" *)
| ValueError_too_long      (* "Message too long for current modulus." *)
| ValueError_randbelow     (* secrets.randbelow(k) with k <= 0 *)
| ValueError_randbits      (* secrets.randbits(k) with k < 0 *)
| ValueError_pow_modulus   (* pow(b, e, 0) *)
| ValueError_pow_inverse   (* pow(b, -e, m) with b not invertible mod m *)
| ZeroDivisionError        (* x % 0, x // 0 *)
| OverflowError            (* int.to_bytes on a negative int *)
| UnicodeEncodeError       (* str.encode('utf-8') on a lone surrogate *)
| UnicodeDecodeError       (* bytes.decode('utf-8') on ill-formed bytes *)
| ValueError_int           (* int(s): "invalid literal for int() with base 10" *)
| EOFError                 (* input() at the end of standard input *)
| KeyError                 (* d[k] on a missing key *)
| ValueError_contradictory (* networkx Dijkstra: "Contradictory paths found" *)
| NetworkXError_position   (* networkx drawing: "Node ... has no position." *)
| KeyboardInterrupt.       (* Ctrl-C at a prompt; a BaseException, not an Exception *)

(** ** Outcomes of a computation *)

Inductive outcome (A : Type) : Type :=
| Ret (a : A)
| Throw (e : exn)
| OutOfFuel.
Arguments Ret {A} a.
Arguments Throw {A} e.
Arguments OutOfFuel {A}.

Definition obind {A B : Type} (m : outcome A) (k : A -> outcome B) : outcome B :=
  match m with
  | Ret a => k a
  | Throw e => Throw e
  | OutOfFuel => OutOfFuel
  end.

Declare Scope py_scope.
Delimit Scope py_scope with py.
Notation "x <- m ;; k" := (obind m (fun x => k))
  (at level 61, m at next level, right associativity) : py_scope.
Notation "' p <- m ;; k" := (obind m (fun x => match x with p => k end))
  (at level 61, p pattern, m at next level, right associativity) : py_scope.
Open Scope py_scope.

(** ** Python integer operations *)

(** [a % b]: Python's [%] rounds towards negative infinity, as
    [Z.modulo] does, and raises on a zero divisor. *)
Definition py_mod (a b : Z) : outcome Z :=
  if b =? 0 then Throw ZeroDivisionError else Ret (a mod b).

(** [a // b]: floor division, as [Z.div]. *)
Definition py_floordiv (a b : Z) : outcome Z :=
  if b =? 0 then Throw ZeroDivisionError else Ret (a / b).

(** [int.bit_length]: the number of bits of [|i|], [0] for [0]. *)
Definition bit_length (i : Z) : Z :=
  if i =? 0 then 0 else Z.log2 (Z.abs i) + 1.

(** ** Generic lemmas *)

Lemma obind_Ret {A B} (a : A) (k : A -> outcome B) : obind (Ret a) k = k a.
Proof. reflexivity. Qed.

Lemma obind_Throw {A B} e (k : A -> outcome B) : obind (Throw e) k = Throw e.
Proof. reflexivity. Qed.

Lemma obind_OutOfFuel {A B} (k : A -> outcome B) : obind OutOfFuel k = OutOfFuel.
Proof. reflexivity. Qed.

Lemma Ret_inj {A} (a b : A) : Ret a = Ret b -> a = b.
Proof. intros H; injection H; auto. Qed.

Lemma obind_Ret_inv {A B} (m : outcome A) (k : A -> outcome B) b :
  obind m k = Ret b -> exists a, m = Ret a /\ k a = Ret b.
Proof. destruct m; simpl; intros H; [eauto | discriminate | discriminate]. Qed.

Lemma obind_Throw_inv {A B} (m : outcome A) (k : A -> outcome B) e :
  obind m k = Throw e -> m = Throw e \/ exists a, m = Ret a /\ k a = Throw e.
Proof. destruct m; simpl; intros H; [eauto | injection H as ->; auto | discriminate]. Qed.

Lemma py_mod_ok a b : b <> 0 -> py_mod a b = Ret (a mod b).
Proof. intros H; unfold py_mod; destruct (Z.eqb_spec b 0); [lia | reflexivity]. Qed.

Lemma py_floordiv_ok a b : b <> 0 -> py_floordiv a b = Ret (a / b).
Proof. intros H; unfold py_floordiv; destruct (Z.eqb_spec b 0); [lia | reflexivity]. Qed.

Lemma bit_length_spec i : 0 < i -> 2 ^ (bit_length i - 1) <= i < 2 ^ bit_length i.
Proof.
  intros H; unfold bit_length.
  destruct (Z.eqb_spec i 0); [lia |].
  rewrite Z.abs_eq by lia; replace (Z.log2 i + 1 - 1) with (Z.log2 i) by lia.
  pose proof (Z.log2_spec i ltac:(lia)) as Hs; unfold Z.succ in Hs; exact Hs.
Qed.

Lemma bit_length_unique i b : 0 <= b -> 2 ^ b <= i < 2 ^ (b + 1) -> bit_length i = b + 1.
Proof.
  intros Hb Hi; unfold bit_length.
  assert (0 < 2 ^ b) by (apply Z.pow_pos_nonneg; lia).
  destruct (Z.eqb_spec i 0); [lia |].
  rewrite Z.abs_eq by lia; f_equal; apply Z.log2_unique; [lia | unfold Z.succ; lia].
Qed.

Lemma mod_range_pos a m : 0 < m -> 0 <= a mod m < m.
Proof. apply Z.mod_pos_bound. Qed.

Create HintDb py.
Create Rewrite HintDb py.
#[export] Hint Rewrite @obind_Ret @obind_Throw @obind_OutOfFuel : py.
#[export] Hint Resolve mod_range_pos : py.

(** [py_simpl] unfolds the monad's bind on known outcomes. *)
Ltac py_simpl := repeat (simpl obind in *; autorewrite with py in *).

(** [case_bool] splits on the first boolean comparison of the goal,
    turning it into its proposition. *)
Ltac case_bool :=
  match goal with
  | |- context [?a =? ?b] => destruct (Z.eqb_spec a b)
  | |- context [?a <? ?b] => destruct (Z.ltb_spec a b)
  | |- context [?a <=? ?b] => destruct (Z.leb_spec a b)
  end.

(** [inv_bind H] splits a hypothesis [obind m k = Ret b]. *)
Ltac inv_bind H :=
  let a := fresh "a" in
  let Hm := fresh "Hm" in
  apply obind_Ret_inv in H; destruct H as [a [Hm H]].

(** [zlia]: [lia] after turning [/] and [mod] into their Euclidean
    equations (this [lia] does not read them itself). *)
Ltac zlia := Z.to_euclidean_division_equations; lia.
Ltac znia := Z.to_euclidean_division_equations; nia.

(** ** Bit operations as arithmetic *)

(** [a | b] is [a + b] when [a] has no bit below [n] and [b < 2^n]. *)
Lemma lor_add a b n :
  0 <= n -> a mod 2 ^ n = 0 -> 0 <= b < 2 ^ n -> Z.lor a b = a + b.
Proof.
  intros Hn Ha Hb.
  assert (Hland : Z.land a b = 0).
  { apply Z.bits_inj'; intros i Hi; rewrite Z.land_spec, Z.bits_0.
    destruct (Z_lt_le_dec i n) as [Hlt | Hge].
    - rewrite (Z.div_mod a (2 ^ n)) by (apply Z.pow_nonzero; lia).
      rewrite Ha, Z.add_0_r, Z.mul_comm, Z.mul_pow2_bits_low by lia; reflexivity.
    - destruct (Z.eq_dec b 0) as [-> | Hb0]; [rewrite Z.bits_0; apply Bool.andb_false_r |].
      rewrite (Z.bits_above_log2 b i); [apply Bool.andb_false_r | lia |].
      pose proof (proj1 (Z.log2_lt_pow2 b n ltac:(lia)) (proj2 Hb)); lia. }
  rewrite <- Z.lxor_lor, Z.add_nocarry_lxor by exact Hland; reflexivity.
Qed.

Lemma shiftr_div a n : 0 <= n -> Z.shiftr a n = a / 2 ^ n.
Proof. apply Z.shiftr_div_pow2. Qed.

Lemma shiftl_mul a n : 0 <= n -> Z.shiftl a n = a * 2 ^ n.
Proof. apply Z.shiftl_mul_pow2. Qed.

Lemma land_low a n : 0 <= n -> Z.land a (2 ^ n - 1) = a mod 2 ^ n.
Proof. intros Hn; rewrite <- Z.land_ones by exact Hn; rewrite Z.ones_equiv; reflexivity. Qed.

(** ** Lists *)

(** Two loops over the same list, one after the other, yield the same
    elements as one loop doing both bodies. *)
Lemma flat_map_app_perm {A B} (f g : A -> list B) (l : list A) :
  Permutation (flat_map f l ++ flat_map g l) (flat_map (fun x => f x ++ g x) l).
Proof.
  induction l as [| x l IH]; cbn; [reflexivity |].
  rewrite <- !app_assoc; apply Permutation_app_head.
  rewrite <- IH, !app_assoc; apply Permutation_app_tail, Permutation_app_comm.
Qed.

Lemma flat_map_flat_map {A B C} (f : B -> list C) (g : A -> list B) (l : list A) :
  flat_map f (flat_map g l) = flat_map (fun x => flat_map f (g x)) l.
Proof. induction l as [| x l IH]; cbn; [reflexivity | rewrite flat_map_app, IH; reflexivity]. Qed.

(** A permutation check by counting, for concrete lists. *)
Definition perm_b {A} (dec : forall x y : A, {x = y} + {x <> y}) (l l' : list A) : bool :=
  forallb (fun x => Nat.eqb (count_occ dec l x) (count_occ dec l' x)) (l ++ l').

Lemma perm_b_sound {A} dec (l l' : list A) : perm_b dec l l' = true -> Permutation l l'.
Proof.
  unfold perm_b; rewrite forallb_forall; intros H; apply (Permutation_count_occ dec); intros x.
  destruct (in_dec dec x (l ++ l')) as [Hin | Hout]; [apply Nat.eqb_eq, H, Hin |].
  rewrite !(proj1 (count_occ_not_In dec _ x)); [reflexivity | |]; intros Hin; apply Hout, in_or_app; auto.
Qed.
