(* ===== verification/Random.v ===== *)
(** The [secrets] module as an interface.  The code draws randomness with
    [secrets.randbelow] (Miller-Rabin witnesses, the fallback public
    exponent) and [secrets.randbits] (prime candidates).  The model
    threads an explicit generator state [R]: [RandomSource] states what a
    draw returns, [RandomSourceOk] the ranges the components rely on,
    and [randbelow] / [randbits] add the [ValueError]s Python raises on a
    bad bound.  [script_source] replays a list of numbers, for concrete
    runs that force a chosen branch. *)

From Stdlib Require Import ZArith Lia List.
From S2P Require Import Prelude.
Import ListNotations.
Open Scope Z_scope.

Class RandomSource (R : Type) := {
  draw_below : Z -> R -> Z * R;   (* secrets.randbelow(k), k > 0 *)
  draw_bits : Z -> R -> Z * R     (* secrets.randbits(k), k >= 0 *)
}.

Class RandomSourceOk (R : Type) `{RandomSource R} := {
  draw_below_range : forall k r, 0 < k -> 0 <= fst (draw_below k r) < k;
  draw_bits_range : forall k r, 0 <= k -> 0 <= fst (draw_bits k r) < 2 ^ k
}.

Section Wrappers.
Context {R : Type} `{RandomSource R}.

(** [secrets.randbelow(k)]: "Upper bound must be positive." *)
Definition randbelow (k : Z) (r : R) : outcome (Z * R) :=
  if k <=? 0 then Throw ValueError_randbelow else Ret (draw_below k r).

(** [secrets.randbits(k)]: "number of bits must be non-negative". *)
Definition randbits (k : Z) (r : R) : outcome (Z * R) :=
  if k <? 0 then Throw ValueError_randbits else Ret (draw_bits k r).

Lemma randbelow_ok k r : 0 < k -> randbelow k r = Ret (draw_below k r).
Proof. intros Hk; unfold randbelow; case_bool; [lia | reflexivity]. Qed.

Lemma randbits_ok k r : 0 <= k -> randbits k r = Ret (draw_bits k r).
Proof. intros Hk; unfold randbits; case_bool; [lia | reflexivity]. Qed.
End Wrappers.

(** ** A scripted source

    The state is the list of numbers still to be drawn; a draw reduces
    the head into the requested range, and an exhausted script draws
    [0]. *)

#[export] Instance script_source : RandomSource (list Z) := {
  draw_below k r := match r with [] => (0, []) | x :: r' => (x mod k, r') end;
  draw_bits k r := match r with [] => (0, []) | x :: r' => (x mod 2 ^ k, r') end
}.

#[export] Instance script_source_ok : RandomSourceOk (list Z).
Proof.
  split; intros k [|x r] Hk; simpl; try lia;
    apply Z.mod_pos_bound; try apply Z.pow_pos_nonneg; lia.
Qed.
