(* ===== verification/ModArith.v ===== *)
(** Modular arithmetic of RSA.py: [egcd] (lines 41-46), the recursive
    extended Euclid, and [modinv] (lines 48-52).  The recursion of
    [egcd] is modelled with fuel ([egcd_fuel]); [egcd] runs it with the
    logarithmic fuel [egcd_depth b], which is proved sufficient, so the
    model is total and computes on RSA-sized numbers.  Theorems: the
    Bezout identity and the gcd on every input, the depth bound, and the
    characterisation of [modinv]'s result and of its error. *)

From Stdlib Require Import ZArith Lia.
From S2P Require Import Prelude.
Open Scope Z_scope.
Open Scope py_scope.

(** ** Definitions *)

(** [egcd(a, b)]: [if b == 0: return (a, 1, 0)], else recurse on
    [(b, a % b)] and return [(g, y1, x1 - (a // b) * y1)].  The divisor is
    nonzero on the recursive branch, so [%] and [//] are [Z.modulo] and
    [Z.div] there. *)
Fixpoint egcd_fuel (fuel : nat) (a b : Z) : outcome (Z * Z * Z) :=
  match fuel with
  | O => OutOfFuel
  | S fuel' =>
      if b =? 0 then Ret (a, 1, 0)
      else '(g, x1, y1) <- egcd_fuel fuel' b (a mod b) ;;
           Ret (g, y1, x1 - (a / b) * y1)
  end.

(** The recursion depth bound: [2 log2 |b| + 3] frames. *)
Definition egcd_depth (b : Z) : nat := (2 * Z.to_nat (Z.log2 (Z.abs b)) + 3)%nat.

Definition egcd (a b : Z) : outcome (Z * Z * Z) := egcd_fuel (egcd_depth b) a b.

(** [modinv(a, m)]: [g, x, _ = egcd(a, m)]; raise unless [g == 1];
    return [x % m]. *)
Definition modinv (a m : Z) : outcome Z :=
  '(g, x, _) <- egcd a m ;;
  if negb (g =? 1) then Throw ValueError_no_inverse else py_mod x m.

(** ** Termination *)

Lemma egcd_fuel_mono n m a b r :
  (n <= m)%nat -> egcd_fuel n a b = Ret r -> egcd_fuel m a b = Ret r.
Proof.
  revert m a b r; induction n as [|n IH]; intros m a b r Hle H; [discriminate |].
  destruct m as [|m]; [lia |]; simpl in *.
  destruct (b =? 0); [exact H |].
  destruct (egcd_fuel n b (a mod b)) as [[[g x] y]| |] eqn:E; try discriminate.
  rewrite (IH m _ _ _ ltac:(lia) E); exact H.
Qed.

(** Two Euclid steps at least halve the divisor: after the first step
    the two arguments have the sign of [b]. *)
Lemma euclid_halving a b :
  b <> 0 -> a mod b <> 0 -> 2 * Z.abs (b mod (a mod b)) < Z.abs b.
Proof.
  intros Hb Hc.
  destruct (Z_lt_le_dec 0 b) as [Hpos | Hneg].
  - pose proof (Z.mod_pos_bound a b Hpos) as Hab.
    pose proof (Z.mod_pos_bound b (a mod b) ltac:(lia)) as Hbc.
    pose proof (Z.div_mod b (a mod b) Hc) as Hd.
    assert (1 <= b / (a mod b)) by (apply Z.div_le_lower_bound; lia).
    rewrite !Z.abs_eq by lia; nia.
  - pose proof (Z.mod_neg_bound a b ltac:(lia)) as Hab.
    pose proof (Z.mod_neg_bound b (a mod b) ltac:(lia)) as Hbc.
    pose proof (Z.div_mod b (a mod b) Hc) as Hd.
    assert (1 <= b / (a mod b)).
    { rewrite <- (Z.div_opp_opp b (a mod b)) by lia; apply Z.div_le_lower_bound; lia. }
    rewrite !Z.abs_neq by lia; nia.
Qed.

Lemma egcd_depth_step a b :
  b <> 0 -> a mod b <> 0 -> b mod (a mod b) <> 0 ->
  (egcd_depth (b mod (a mod b)) + 2 <= egcd_depth b)%nat.
Proof.
  intros Hb Hc Hd; unfold egcd_depth.
  pose proof (euclid_halving a b Hb Hc) as Hh.
  set (d := b mod (a mod b)) in *.
  assert (Z.log2 (2 * Z.abs d) <= Z.log2 (Z.abs b)) by (apply Z.log2_le_mono; lia).
  rewrite Z.log2_double in H by lia.
  pose proof (Z.log2_nonneg (Z.abs d)); lia.
Qed.

Lemma egcd_depth_ge_5 a b : b <> 0 -> a mod b <> 0 -> (5 <= egcd_depth b)%nat.
Proof.
  intros Hb Hc; unfold egcd_depth.
  assert (2 <= Z.abs b).
  { destruct (Z_lt_le_dec 0 b).
    - pose proof (Z.mod_pos_bound a b ltac:(lia)); lia.
    - pose proof (Z.mod_neg_bound a b ltac:(lia)); lia. }
  assert (Z.log2 2 <= Z.log2 (Z.abs b)) by (apply Z.log2_le_mono; lia).
  change (Z.log2 2) with 1 in H0; lia.
Qed.

Lemma egcd_fuel_terminates n a b :
  (egcd_depth b <= n)%nat -> exists r, egcd_fuel n a b = Ret r.
Proof.
  revert a b; induction n as [n IH] using (well_founded_induction lt_wf); intros a b Hn.
  assert (H3 : (3 <= egcd_depth b)%nat) by (unfold egcd_depth; lia).
  destruct n as [|[|n]]; [lia | lia |]; cbn [egcd_fuel].
  destruct (Z.eqb_spec b 0) as [Hb | Hb]; [eauto |].
  destruct (Z.eqb_spec (a mod b) 0) as [Hc | Hc]; [simpl; eauto |].
  pose proof (egcd_depth_ge_5 a b Hb Hc).
  destruct (Z.eqb_spec (b mod (a mod b)) 0) as [Hd | Hd].
  - destruct n as [|n]; [lia |]; cbn [egcd_fuel].
    rewrite Hd; simpl; eauto.
  - pose proof (egcd_depth_step a b Hb Hc Hd).
    destruct (IH n ltac:(lia) (a mod b) (b mod (a mod b)) ltac:(lia)) as [[[g x] y] E].
    rewrite E; simpl; eauto.
Qed.

(** ** Functional correctness of [egcd] *)

Lemma egcd_fuel_spec n a b g x y :
  egcd_fuel n a b = Ret (g, x, y) ->
  a * x + b * y = g /\ Z.abs g = Z.gcd a b /\
  (0 < b \/ (b = 0 /\ 0 <= a) -> g = Z.gcd a b).
Proof.
  revert a b g x y; induction n as [|n IH]; intros a b g x y H; [discriminate |].
  simpl in H; destruct (Z.eqb_spec b 0) as [-> | Hb].
  - injection H as <- <- <-; rewrite Z.gcd_0_r.
    split; [lia | split; [reflexivity | intros [? | [_ ?]]; [lia | now rewrite Z.abs_eq]]].
  - destruct (egcd_fuel n b (a mod b)) as [[[g1 x1] y1]| |] eqn:E; try discriminate.
    simpl in H; injection H as <- <- <-.
    destruct (IH _ _ _ _ _ E) as (Hbez & Habs & Hpos).
    rewrite Z.gcd_mod_r, Z.gcd_comm in Habs, Hpos.
    pose proof (Z.div_mod a b Hb).
    split; [nia | split; [exact Habs |]].
    intros [Hb' | [Hb' _]]; [| lia].
    apply Hpos; pose proof (Z.mod_pos_bound a b Hb'); lia.
Qed.

(** ** Operations *)

(** [egcd] always returns, and its result satisfies the Bezout
    identity [a*x + b*y = g] with [|g| = gcd(a, b)] (and [g] itself the
    gcd when [b > 0]). *)
Lemma egcd_spec a b :
  exists g x y, egcd a b = Ret (g, x, y) /\
    a * x + b * y = g /\ Z.abs g = Z.gcd a b /\ (0 < b -> g = Z.gcd a b).
Proof.
  destruct (egcd_fuel_terminates (egcd_depth b) a b (le_n _)) as [[[g x] y] E].
  destruct (egcd_fuel_spec _ _ _ _ _ _ E) as (H1 & H2 & H3).
  exists g, x, y; unfold egcd; rewrite E; repeat split; auto.
Qed.

(** C6: [egcd] always returns, and its result satisfies the Bezout
    identity [a*x + b*y = g] with [|g| = gcd(a, b)] (and [g] itself the
    gcd when [b > 0]). *)
Theorem egcd_correct a b :
  exists g x y, egcd a b = Ret (g, x, y) /\
    a * x + b * y = g /\ Z.abs g = Z.gcd a b /\ (0 < b -> g = Z.gcd a b).
Proof. exact (egcd_spec a b). Qed.

(** ** Inverses modulo [m] *)

Lemma inverse_coprime a m x :
  0 < m -> (a * x) mod m = 1 mod m -> Z.gcd a m = 1.
Proof.
  intros Hm H.
  destruct (Z.eq_dec m 1) as [-> | Hm1]; [apply Z.gcd_1_r |].
  rewrite (Z.mod_small 1) in H by lia.
  pose proof (Z.div_mod (a * x) m ltac:(lia)).
  apply Z.bezout_1_gcd; exists x, (- ((a * x) / m)); lia.
Qed.

Lemma inverse_unique a m x x' :
  0 <= x < m -> 0 <= x' < m ->
  (a * x) mod m = 1 mod m -> (a * x') mod m = 1 mod m -> x = x'.
Proof.
  intros Hx Hx' H H'.
  assert (E : (x * (a * x')) mod m = (x' * (a * x)) mod m) by (f_equal; ring).
  rewrite <- Z.mul_mod_idemp_r, H', Z.mul_mod_idemp_r, Z.mul_1_r in E by lia.
  rewrite <- Z.mul_mod_idemp_r, H, Z.mul_mod_idemp_r, Z.mul_1_r in E by lia.
  rewrite !Z.mod_small in E by lia; exact E.
Qed.

Lemma modinv_coprime a m :
  0 < m -> Z.gcd a m = 1 ->
  exists x, modinv a m = Ret x /\ 0 <= x < m /\ (a * x) mod m = 1 mod m.
Proof.
  intros Hm Hg.
  destruct (egcd_spec a m) as (g & x & y & E & Hbez & _ & Hpos).
  rewrite (Hpos Hm), Hg in Hbez; rewrite (Hpos Hm), Hg in E.
  exists (x mod m); unfold modinv; rewrite E; simpl; rewrite py_mod_ok by lia.
  split; [reflexivity | split; [apply Z.mod_pos_bound; lia |]].
  rewrite Z.mul_mod_idemp_r by lia.
  replace (a * x) with (1 + (- y) * m) by lia; rewrite Z.mod_add by lia; reflexivity.
Qed.

(** For a positive modulus, [modinv a m] returns [x] exactly when
    [x] is the inverse of [a] modulo [m] normalised into [[0, m)]. *)
Lemma modinv_spec a m x :
  0 < m -> modinv a m = Ret x <-> 0 <= x < m /\ (a * x) mod m = 1 mod m.
Proof.
  intros Hm; split.
  - intros H.
    destruct (egcd_spec a m) as (g & x0 & y & E & Hbez & _ & Hpos).
    destruct (Z.eq_dec (Z.gcd a m) 1) as [Hg | Hg].
    + destruct (modinv_coprime a m Hm Hg) as (x' & E' & Hx'); congruence.
    + unfold modinv in H; rewrite E, (Hpos Hm) in H; simpl in H.
      destruct (Z.eqb_spec (Z.gcd a m) 1); [contradiction | discriminate].
  - intros [Hx Hinv].
    destruct (modinv_coprime a m Hm (inverse_coprime a m x Hm Hinv)) as (x' & E & Hx' & Hinv').
    rewrite E; f_equal; apply (inverse_unique a m); tauto.
Qed.

(** C5: for a positive modulus, [modinv a m] returns [x] exactly when
    [x] is the inverse of [a] modulo [m] normalised into [[0, m)]. *)
Theorem modinv_correct a m x :
  0 < m -> modinv a m = Ret x <-> 0 <= x < m /\ (a * x) mod m = 1 mod m.
Proof. exact (modinv_spec a m x). Qed.

(** C23: for a positive modulus, [modinv] raises [ValueError] exactly
    when [a] is not coprime to [m]. *)
Theorem modinv_no_inverse a m :
  0 < m -> Z.gcd a m <> 1 -> modinv a m = Throw ValueError_no_inverse.
Proof.
  intros Hm Hg.
  destruct (egcd_spec a m) as (g & x & y & E & _ & _ & Hpos).
  unfold modinv; rewrite E, (Hpos Hm); simpl.
  destruct (Z.eqb_spec (Z.gcd a m) 1); [contradiction | reflexivity].
Qed.

(** ** Recursion depth *)

Lemma egcd_fuel_det n n' a b r r' :
  egcd_fuel n a b = Ret r -> egcd_fuel n' a b = Ret r' -> r = r'.
Proof.
  intros H H'.
  apply (egcd_fuel_mono n (Nat.max n n')) in H; [| lia].
  apply (egcd_fuel_mono n' (Nat.max n n')) in H'; [| lia].
  congruence.
Qed.

(** C30: when [0 < a < m] (as for [modinv(e, phi)] with [e < phi]), the
    recursion of [egcd a m] is at most [egcd_depth a + 1 = 2 log2 a + 4]
    frames deep: 36 frames for [e = 65537], whatever the size of
    [phi]. *)
Theorem egcd_depth_small a m :
  0 < a < m -> exists r, egcd_fuel (egcd_depth a + 1) a m = Ret r /\ egcd a m = Ret r.
Proof.
  intros Ha.
  destruct (egcd_fuel_terminates (egcd_depth a) m a (le_n _)) as [[[g x] y] E].
  assert (E1 : egcd_fuel (egcd_depth a + 1) a m = Ret (g, y, x - (a / m) * y)).
  { rewrite Nat.add_1_r; cbn [egcd_fuel].
    destruct (Z.eqb_spec m 0); [lia |].
    rewrite (Z.mod_small a m) by lia; rewrite E; reflexivity. }
  destruct (egcd_spec a m) as (g' & x' & y' & E' & _).
  exists (g, y, x - (a / m) * y); split; [exact E1 |].
  rewrite E'; f_equal; unfold egcd in E'; exact (egcd_fuel_det _ _ _ _ _ _ E' E1).
Qed.

(** ** Concrete instances *)

Lemma modinv_correct_witness : modinv 3 7 = Ret 5.
Proof. apply (modinv_correct 3 7 5); [lia | split; [lia | reflexivity]]. Defined.

Lemma modinv_no_inverse_witness : modinv 6 9 = Throw ValueError_no_inverse.
Proof. apply modinv_no_inverse; [lia | discriminate]. Defined.

Lemma egcd_depth_small_witness :
  exists r, egcd_fuel (egcd_depth 65537 + 1) 65537 (2 ^ 512 - 3) = Ret r /\
            egcd 65537 (2 ^ 512 - 3) = Ret r.
Proof. apply egcd_depth_small; split; reflexivity. Defined.
