(* ===== verification/PyPow.v ===== *)
(** Python's three-argument [pow(b, e, m)], which the code calls for
    every modular exponentiation (RSA.py lines 21, 25, 88, 93, 102, 110).
    It is a builtin, not code of the repository, so it is modelled from
    CPython's [long_pow]: [ValueError] for [m == 0]; [0] when [|m| == 1];
    a negative exponent replaces the base by its inverse modulo [|m|]
    ([ValueError] when there is none); the result is computed modulo [|m|]
    by square and multiply and shifted into [(m, 0]] for a negative
    modulus.  Theorems: the square-and-multiply routine [pow_mod] equals
    [b ^ e mod m], so [py_pow] is [b ^ e mod m] on every nonnegative
    exponent. *)

From Stdlib Require Import ZArith Lia.
From S2P Require Import Prelude ModArith.
Open Scope Z_scope.
Open Scope py_scope.

(** ** Square and multiply *)

(** Left-to-right binary exponentiation on the bits of a positive
    exponent, reducing after every product. *)
Fixpoint pow_mod_pos (b : Z) (e : positive) (m : Z) : Z :=
  match e with
  | xH => b mod m
  | xO e' => let h := pow_mod_pos b e' m in (h * h) mod m
  | xI e' => let h := pow_mod_pos b e' m in ((h * h) mod m * b) mod m
  end.

Definition pow_mod (b e m : Z) : Z :=
  match e with
  | Z0 => 1 mod m
  | Zpos p => pow_mod_pos b p m
  | Zneg _ => 0
  end.

(** The inverse that [long_invmod] computes for a negative exponent. *)
Definition py_invmod (b c : Z) : outcome Z :=
  match modinv b c with
  | Ret x => Ret x
  | _ => Throw ValueError_pow_inverse
  end.

Definition py_pow (b e m : Z) : outcome Z :=
  if m =? 0 then Throw ValueError_pow_modulus else
  let c := Z.abs m in
  if c =? 1 then Ret 0 else
  base <- (if e <? 0 then py_invmod b c else Ret b) ;;
  let z := pow_mod base (Z.abs e) c in
  Ret (if ((m <? 0) && negb (z =? 0))%bool then z - c else z).

(** ** Equivalence with the reference definition *)

Lemma pow_mod_pos_correct b p m :
  m <> 0 -> pow_mod_pos b p m = b ^ Zpos p mod m.
Proof.
  intros Hm; induction p as [p IH | p IH |]; simpl pow_mod_pos.
  - rewrite IH, <- Z.mul_mod, Z.mul_mod_idemp_l by exact Hm; f_equal.
    rewrite Pos2Z.inj_xI, Z.pow_add_r, Z.pow_1_r, (Z.mul_comm 2), Z.pow_mul_r by lia.
    ring.
  - rewrite IH, <- Z.mul_mod by exact Hm; f_equal.
    rewrite Pos2Z.inj_xO, (Z.mul_comm 2), Z.pow_mul_r by lia; ring.
  - now rewrite Z.pow_1_r.
Qed.

(** square and multiply computes [b ^ e mod m] for every
    nonnegative exponent and nonzero modulus. *)
Theorem pow_mod_correct b e m :
  m <> 0 -> 0 <= e -> pow_mod b e m = b ^ e mod m.
Proof.
  intros Hm He; destruct e as [| p | p]; [reflexivity | | lia].
  apply pow_mod_pos_correct, Hm.
Qed.

Lemma mod_unit_modulus a m : Z.abs m = 1 -> a mod m = 0.
Proof.
  intros H; destruct (Z.abs_spec m) as [[_ E] | [_ E]]; rewrite E in H.
  - subst m; apply Z.mod_1_r.
  - assert (m = -1) as -> by lia; exact (Z.mod_opp_r_z a 1 ltac:(lia) (Z.mod_1_r a)).
Qed.

(** [x mod m] for a negative modulus is [x mod |m|] shifted into
    [(m, 0]]. *)
Lemma mod_neg_modulus x m :
  m < 0 ->
  x mod m = (if negb (x mod Z.abs m =? 0) then x mod Z.abs m - Z.abs m else x mod Z.abs m).
Proof.
  intros Hm; rewrite Z.abs_neq by lia.
  replace m with (- - m) at 1 by lia.
  destruct (Z.eqb_spec (x mod - m) 0) as [E | E]; simpl.
  - rewrite E; apply Z.mod_opp_r_z; lia.
  - apply Z.mod_opp_r_nz; lia.
Qed.

(** [py_pow] on a nonnegative exponent and a nonzero modulus. *)
Lemma py_pow_spec b e m :
  m <> 0 -> 0 <= e -> py_pow b e m = Ret (b ^ e mod m).
Proof.
  intros Hm He; unfold py_pow.
  destruct (Z.eqb_spec m 0) as [| _]; [contradiction |].
  destruct (Z.eqb_spec (Z.abs m) 1) as [E | E]; [now rewrite mod_unit_modulus |].
  destruct (Z.ltb_spec e 0) as [| _]; [lia |]; simpl obind.
  rewrite Z.abs_eq, pow_mod_correct by lia.
  destruct (Z.ltb_spec m 0) as [Hneg | Hpos]; simpl.
  - rewrite (mod_neg_modulus _ m Hneg); reflexivity.
  - rewrite Z.abs_eq by lia; reflexivity.
Qed.

(** On a positive modulus the result lies in [[0, m)]. *)
Lemma py_pow_pos b e m :
  0 < m -> 0 <= e -> py_pow b e m = Ret (b ^ e mod m) /\ 0 <= b ^ e mod m < m.
Proof.
  intros Hm He; split; [apply py_pow_spec; lia | apply Z.mod_pos_bound, Hm].
Qed.

(** ** Concrete instances *)

Lemma pow_mod_correct_witness : pow_mod 4 13 497 = 4 ^ 13 mod 497.
Proof. apply pow_mod_correct; lia. Defined.
