(* ===== verification/Primality.v ===== *)
(** The probable-prime test of RSA.py, [is_probable_prime] (lines 7-30):
    [n < 2] is rejected, trial division by the primes up to 29 decides
    every [n] that one of them divides, [n - 1] is written [2^r * d] with
    [d] odd, and [k] Miller-Rabin rounds draw a witness
    [a = randbelow(n - 3) + 2] each.  The random source is the section's
    [RandomSource]; the model threads its state.

    Theorems: Miller-Rabin never rejects a prime, whatever the witnesses
    (so [is_probable_prime] accepts every prime for every random source,
    and a [False] answer proves compositeness); the test always returns
    and never raises; it is exact below [31 * 31]; the loop of lines
    14-18 splits [d] into [d' * 2 ^ r] with [d'] odd and never returns
    on 0.  The error bound of the rounds on a Carmichael number is in
    [Liars]. *)

From Stdlib Require Import ZArith Lia List Znumtheory.
From Stdlib Require Zmod.ZmodInv.
From S2P Require Import Prelude Random ModArith PyPow.
Import ListNotations.
Open Scope Z_scope.
Open Scope py_scope.
Open Scope bool_scope.

(** ** Definitions *)

Definition small_primes : list Z := [2; 3; 5; 7; 11; 13; 17; 19; 23; 29].

(** [for p in small_primes: if n % p == 0: return n == p]: [Some] is an
    early return, [None] falls through to Miller-Rabin. *)
Fixpoint trial_division (ps : list Z) (n : Z) : option bool :=
  match ps with
  | [] => None
  | p :: ps' => if n mod p =? 0 then Some (n =? p) else trial_division ps' n
  end.

(** [while d % 2 == 0: d //= 2; r += 1], on the binary digits of [d]. *)
Fixpoint factor_twos_pos (p : positive) (r : Z) : Z * Z :=
  match p with
  | xO p' => factor_twos_pos p' (r + 1)
  | _ => (Zpos p, r)
  end.

(** The loop never exits on [d = 0] ([0 % 2 == 0] forever): no result.
    A negative even [d] is halved exactly, so its odd part is the
    negation of that of [-d]. *)
Definition factor_twos (d : Z) : outcome (Z * Z) :=
  match d with
  | Z0 => OutOfFuel
  | Zpos p => Ret (factor_twos_pos p 0)
  | Zneg p => let '(d', r) := factor_twos_pos p 0 in Ret (- d', r)
  end.

(** The loop as written, [while d % 2 == 0: d //= 2; r += 1], with
    fuel: the reference [factor_twos] is proved equal to. *)
Fixpoint twos_loop (fuel : nat) (d r : Z) : outcome (Z * Z) :=
  match fuel with
  | O => OutOfFuel
  | S fuel' => if d mod 2 =? 0 then twos_loop fuel' (d / 2) (r + 1) else Ret (d, r)
  end.

(** [for _ in range(cnt): x = pow(x, 2, n); if x == n - 1: break] with
    its [else: return False]: [true] when the loop breaks. *)
Fixpoint square_loop (cnt : nat) (x n : Z) : outcome bool :=
  match cnt with
  | O => Ret false
  | S c =>
      x' <- py_pow x 2 n ;;
      if x' =? n - 1 then Ret true else square_loop c x' n
  end.

(** The body of one round for the witness [a]: [true] when the round
    [continue]s, [false] when it returns [False]. *)
Definition mr_witness (n d r a : Z) : outcome bool :=
  x <- py_pow a d n ;;
  if (x =? 1) || (x =? n - 1) then Ret true
  else square_loop (Z.to_nat (r - 1)) x n.

Section WithRandom.
Context {R : Type} `{RandomSource R}.

(** [for _ in range(k)]: draw [a = secrets.randbelow(n - 3) + 2]. *)
Fixpoint mr_rounds (k : nat) (n d r : Z) (s : R) : outcome (bool * R) :=
  match k with
  | O => Ret (true, s)
  | S k' =>
      '(a0, s1) <- randbelow (n - 3) s ;;
      ok <- mr_witness n d r (a0 + 2) ;;
      if ok then mr_rounds k' n d r s1 else Ret (false, s1)
  end.

Definition is_probable_prime (n k : Z) (s : R) : outcome (bool * R) :=
  if n <? 2 then Ret (false, s) else
  match trial_division small_primes n with
  | Some b => Ret (b, s)
  | None =>
      '(d, r) <- factor_twos (n - 1) ;;
      mr_rounds (Z.to_nat k) n d r s
  end.
End WithRandom.

(** ** Number theory *)

Lemma composite_small_divisor n :
  1 < n -> ~ Z.prime n -> exists m, 1 < m /\ m * m <= n /\ (m | n).
Proof.
  intros Hn Hp; rewrite prime_alt in Hp.
  destruct (not_prime_divide n Hn Hp) as (m & Hm & [q Hq]).
  destruct (Z_le_gt_dec (m * m) n) as [Hle | Hgt].
  - exists m; repeat split; [lia | lia | exists q; exact Hq].
  - exists q; split; [nia | split; [nia | exists m; lia]].
Qed.

Lemma prime_of_no_small_divisor n :
  1 < n -> (forall m, 1 < m -> m * m <= n -> n mod m <> 0) -> Z.prime n.
Proof.
  intros Hn H.
  destruct (prime_dec n) as [Hp | Hp]; [now apply prime_alt |].
  rewrite <- prime_alt in Hp.
  destruct (composite_small_divisor n Hn Hp) as (m & Hm & Hmm & Hd).
  exfalso; apply (H m Hm Hmm), Z.mod_divide; [lia | exact Hd].
Qed.

(** The square roots of 1 modulo a prime are 1 and -1. *)
Lemma sqrt1_mod_prime p x :
  Z.prime p -> 0 <= x < p -> (x * x) mod p = 1 -> x = 1 \/ x = p - 1.
Proof.
  intros Hp Hx H.
  pose proof (Z.prime_ge_2 p Hp).
  pose proof (Z.div_mod (x * x) p ltac:(lia)) as E.
  assert (Hd : (p | (x - 1) * (x + 1))) by (exists ((x * x) / p); nia).
  apply Z.divide_prime_mul in Hd; [| exact Hp].
  destruct Hd as [[q Hq] | [q Hq]].
  - left; assert (q = 0) by nia; lia.
  - right; assert (q = 1) by nia; lia.
Qed.

Lemma pow_two_succ x c : 0 <= c -> (x ^ 2) ^ (2 ^ c) = x ^ (2 ^ (c + 1)).
Proof.
  intros Hc; rewrite <- Z.pow_mul_r by (try apply Z.pow_nonneg; lia).
  f_equal; rewrite Z.pow_add_r by lia; ring.
Qed.

(** ** Factoring out the powers of two *)

Lemma factor_twos_pos_spec p r0 :
  0 <= r0 ->
  let '(d, r) := factor_twos_pos p r0 in
  Zpos p * 2 ^ r0 = d * 2 ^ r /\ r0 <= r /\ Z.odd d = true /\ 0 < d.
Proof.
  revert r0; induction p as [p IH | p IH |]; intros r0 Hr0; simpl factor_twos_pos.
  - repeat split; lia || reflexivity.
  - specialize (IH (r0 + 1) ltac:(lia)); destruct (factor_twos_pos p (r0 + 1)) as [d r].
    destruct IH as (E & Hr & Ho & Hd); repeat split; try assumption; [| lia].
    rewrite <- E, Pos2Z.inj_xO, Z.pow_add_r by lia; ring.
  - repeat split; lia || reflexivity.
Qed.

Lemma factor_twos_spec m :
  0 < m -> exists d r, factor_twos m = Ret (d, r) /\
    m = d * 2 ^ r /\ 0 <= r /\ Z.odd d = true /\ 0 < d.
Proof.
  intros Hm; destruct m as [| p | p]; [lia | | lia]; simpl.
  pose proof (factor_twos_pos_spec p 0 ltac:(lia)) as Hs; destruct (factor_twos_pos p 0) as [d r].
  exists d, r; rewrite Z.mul_1_r in Hs; intuition.
Qed.

(** An odd [n] has at least one factor two in [n - 1]. *)
Lemma twos_loop_zero fuel r : twos_loop fuel 0 r = OutOfFuel.
Proof. revert r; induction fuel as [| f IH]; intros r; [reflexivity | apply IH]. Qed.

Lemma twos_loop_pos fuel p r :
  (Z.to_nat (Z.log2 (Zpos p)) < fuel)%nat -> twos_loop fuel (Zpos p) r = Ret (factor_twos_pos p r).
Proof.
  revert fuel r; induction p as [p _ | p IH |]; intros [| f] r Hf; try lia;
    cbn [twos_loop factor_twos_pos]; rewrite Zmod_odd; cbn [Z.odd Z.eqb]; try reflexivity.
  replace (Zpos p~0) with (Zpos p * 2) by lia; rewrite Z.div_mul by lia.
  apply IH; rewrite Pos2Z.inj_xO, Z.log2_double in Hf by lia.
  pose proof (Z.log2_nonneg (Zpos p)); lia.
Qed.

Lemma twos_loop_neg fuel p r :
  (Z.to_nat (Z.log2 (Zpos p)) < fuel)%nat ->
  twos_loop fuel (Zneg p) r = Ret (let '(d, r') := factor_twos_pos p r in (- d, r')).
Proof.
  revert fuel r; induction p as [p _ | p IH |]; intros [| f] r Hf; try lia;
    cbn [twos_loop factor_twos_pos]; rewrite Zmod_odd; cbn [Z.odd Z.eqb]; try reflexivity.
  replace (Zneg p~0) with (Zneg p * 2) by lia; rewrite Z.div_mul by lia.
  apply IH; rewrite Pos2Z.inj_xO, Z.log2_double in Hf by lia.
  pose proof (Z.log2_nonneg (Zpos p)); lia.
Qed.

(** The loop as written computes [factor_twos], given more iterations
    than [log2 |d|]. *)
Lemma twos_loop_factor_twos fuel d :
  (Z.to_nat (Z.log2 (Z.abs d)) < fuel)%nat -> twos_loop fuel d 0 = factor_twos d.
Proof.
  destruct d as [| p | p]; cbn [Z.abs factor_twos]; intros Hf.
  - apply twos_loop_zero.
  - apply twos_loop_pos, Hf.
  - rewrite twos_loop_neg by exact Hf; destruct (factor_twos_pos p 0); reflexivity.
Qed.

(** C26: the loop [while d % 2 == 0: d //= 2; r += 1] from [r = 0]:
    on [d = 0] it never returns, whatever the number of iterations;
    on any other integer, given more iterations than [log2 |d|], it
    returns [(d', r)] with [d = d' * 2 ^ r], [r >= 0] and [d'] odd. *)
Theorem twos_loop_spec fuel d :
  (forall f, twos_loop f 0 0 = OutOfFuel) /\
  (d <> 0 -> (Z.to_nat (Z.log2 (Z.abs d)) < fuel)%nat ->
   exists d' r, twos_loop fuel d 0 = Ret (d', r) /\ d = d' * 2 ^ r /\ 0 <= r /\ Z.odd d' = true).
Proof.
  split; [intros f; apply twos_loop_zero | intros Hd Hf].
  rewrite twos_loop_factor_twos by exact Hf.
  destruct d as [| p | p]; [contradiction | |].
  - destruct (factor_twos_spec (Zpos p) ltac:(lia)) as (d' & r & E & Ed & Hr & Ho & _).
    exists d', r; auto.
  - cbn [factor_twos]; pose proof (factor_twos_pos_spec p 0 ltac:(lia)) as Hs.
    destruct (factor_twos_pos p 0) as [d' r]; destruct Hs as (Ed & Hr & Ho & _).
    exists (- d'), r; split; [reflexivity |].
    rewrite Z.pow_0_r, Z.mul_1_r in Ed; rewrite Z.odd_opp; repeat split; [lia | lia | exact Ho].
Qed.

Lemma twos_loop_spec_witness :
  252600 <> 0 /\ (Z.to_nat (Z.log2 (Z.abs 252600)) < 20)%nat /\
  exists d' r, twos_loop 20 252600 0 = Ret (d', r) /\ 252600 = d' * 2 ^ r /\ 0 <= r /\ Z.odd d' = true.
Proof.
  split; [lia | split; [vm_compute; lia |]].
  apply (twos_loop_spec 20 252600); [lia | vm_compute; lia].
Defined.

Lemma factor_twos_odd n d r :
  Z.odd n = true -> n - 1 = d * 2 ^ r -> 0 <= r -> Z.odd d = true -> 1 <= r.
Proof.
  intros Hn E Hr Hd.
  destruct (Z.eq_dec r 0) as [-> | ]; [| lia].
  rewrite Z.pow_0_r, Z.mul_1_r in E.
  replace n with (Z.succ d) in Hn by lia; rewrite Z.odd_succ, <- Z.negb_odd, Hd in Hn.
  discriminate.
Qed.

(** ** Miller-Rabin never rejects a prime *)

Lemma square_loop_prime c x n :
  Z.prime n -> 0 <= x < n -> x <> 1 -> x <> n - 1 ->
  x ^ (2 ^ (Z.of_nat c + 1)) mod n = 1 -> square_loop c x n = Ret true.
Proof.
  intros Hp; pose proof (Z.prime_ge_2 n Hp).
  revert x; induction c as [|c IH]; intros x Hx H1 Hm1 Hpow; simpl square_loop.
  - change (Z.of_nat 0 + 1) with 1 in Hpow; rewrite Z.pow_1_r, Z.pow_2_r in Hpow.
    destruct (sqrt1_mod_prime n x Hp Hx Hpow); contradiction.
  - rewrite py_pow_spec by lia; cbn [obind].
    destruct (Z.eqb_spec (x ^ 2 mod n) (n - 1)) as [| Hne]; [reflexivity |].
    assert (Hr : 0 <= x ^ 2 mod n < n) by (apply Z.mod_pos_bound; lia).
    apply IH; [exact Hr | | exact Hne |].
    + intros E; rewrite Z.pow_2_r in E.
      destruct (sqrt1_mod_prime n x Hp Hx E); contradiction.
    + rewrite Z.mod_pow_l, pow_two_succ by lia.
      rewrite <- Hpow; do 3 f_equal; lia.
Qed.

Lemma mr_witness_prime n d r a :
  Z.prime n -> n - 1 = d * 2 ^ r -> 1 <= r -> 0 <= d -> 2 <= a <= n - 2 ->
  mr_witness n d r a = Ret true.
Proof.
  intros Hp E Hr Hd Ha; pose proof (Z.prime_ge_2 n Hp).
  unfold mr_witness; rewrite py_pow_spec by lia; cbn [obind].
  destruct (Z.eqb_spec (a ^ d mod n) 1); [reflexivity |].
  destruct (Z.eqb_spec (a ^ d mod n) (n - 1)); [reflexivity |]; simpl.
  apply square_loop_prime; [exact Hp | apply Z.mod_pos_bound; lia | assumption | assumption |].
  rewrite Z.mod_pow_l, <- Z.pow_mul_r by (try apply Z.pow_nonneg; lia).
  replace (Z.of_nat (Z.to_nat (r - 1)) + 1) with r by lia.
  rewrite <- E; apply ZmodInv.Z.fermat_nz; [exact Hp |].
  rewrite Z.mod_small by lia; lia.
Qed.

Section Completeness.
Context {R : Type} `{RandomSourceOk R}.

Lemma mr_rounds_prime k n d r s :
  Z.prime n -> 5 <= n -> n - 1 = d * 2 ^ r -> 1 <= r -> 0 <= d ->
  exists s', mr_rounds k n d r s = Ret (true, s').
Proof.
  intros Hp Hn E Hr Hd; revert s; induction k as [|k IH]; intros s; simpl; [eauto |].
  rewrite randbelow_ok by lia; cbn [obind].
  pose proof (draw_below_range (n - 3) s ltac:(lia)) as Ha.
  destruct (draw_below (n - 3) s) as [a0 s1]; simpl in *.
  rewrite (mr_witness_prime n d r (a0 + 2)) by (assumption || lia); simpl; apply IH.
Qed.
End Completeness.

(** ** Trial division *)

Lemma trial_division_None ps n :
  trial_division ps n = None -> Forall (fun p => n mod p <> 0) ps.
Proof.
  induction ps as [|p ps IH]; simpl; [constructor |].
  destruct (Z.eqb_spec (n mod p) 0); [discriminate | auto].
Qed.

Lemma trial_division_Some ps n b :
  trial_division ps n = Some b -> exists p, In p ps /\ n mod p = 0 /\ b = (n =? p).
Proof.
  induction ps as [|p ps IH]; simpl; [discriminate |].
  destruct (Z.eqb_spec (n mod p) 0) as [E | _]; intros H.
  - injection H as <-; eauto.
  - destruct (IH H) as (q & ? & ? & ?); eauto.
Qed.

(** Every number in [[2, 30]] has a factor among [small_primes]. *)
Lemma small_factor m :
  2 <= m <= 30 -> existsb (fun q => m mod q =? 0) small_primes = true.
Proof.
  intros Hm; assert (H : m = 2 \/ m = 3 \/ m = 4 \/ m = 5 \/ m = 6 \/ m = 7 \/ m = 8 \/ m = 9 \/ m = 10 \/ m = 11 \/ m = 12 \/ m = 13 \/ m = 14 \/ m = 15 \/ m = 16 \/ m = 17 \/ m = 18 \/ m = 19 \/ m = 20 \/ m = 21 \/ m = 22 \/ m = 23 \/ m = 24 \/ m = 25 \/ m = 26 \/ m = 27 \/ m = 28 \/ m = 29 \/ m = 30) by lia.
  repeat (destruct H as [-> | H]; [reflexivity |]); subst; reflexivity.
Qed.

(** [trial_check n m c]: none of [m, m+1, ..., m+c-1] divides [n]; a
    checkable certificate of primality for concrete numbers. *)
Fixpoint trial_check (n m : Z) (c : nat) : bool :=
  match c with
  | O => true
  | S c' => negb (n mod m =? 0) && trial_check n (m + 1) c'
  end.

Lemma trial_check_spec n m c :
  trial_check n m c = true -> forall j, m <= j < m + Z.of_nat c -> n mod j <> 0.
Proof.
  revert m; induction c as [|c IH]; intros m H j Hj; simpl in *; [lia |].
  apply andb_prop in H as [H1 H2].
  destruct (Z.eq_dec j m) as [-> | Hne].
  - destruct (Z.eqb_spec (n mod m) 0); [discriminate | assumption].
  - apply (IH (m + 1) H2); lia.
Qed.

Lemma prime_by_check n :
  1 < n -> trial_check n 2 (Z.to_nat (Z.sqrt n - 1)) = true -> Z.prime n.
Proof.
  intros Hn H; apply prime_of_no_small_divisor; [exact Hn |]; intros m Hm Hmm.
  apply (trial_check_spec _ _ _ H).
  assert (m <= Z.sqrt n) by (rewrite <- (Z.sqrt_square m) by lia; apply Z.sqrt_le_mono, Hmm).
  rewrite Z2Nat.id by lia; lia.
Qed.

Lemma small_primes_prime p : In p small_primes -> Z.prime p.
Proof.
  simpl; intros Hp;
    repeat (destruct Hp as [<- | Hp]; [apply prime_by_check; [lia | reflexivity] |]).
  contradiction.
Qed.

(** A number that passes trial division is odd and at least 31. *)
Lemma trial_division_passed n :
  2 <= n -> trial_division small_primes n = None -> 31 <= n /\ Z.odd n = true.
Proof.
  intros Hn H; pose proof (trial_division_None _ _ H) as HF.
  split.
  - destruct (Z_le_gt_dec 31 n) as [| Hlt]; [assumption | exfalso].
    destruct (proj1 (existsb_exists _ _) (small_factor n ltac:(lia))) as (q & Hq & E).
    rewrite Forall_forall in HF; apply (HF q Hq); lia.
  - inversion HF; subst. rewrite Zodd_mod; apply Z.eqb_eq.
    pose proof (Z.mod_pos_bound n 2); lia.
Qed.

(** ** Totality *)

Lemma square_loop_total c x n : 0 < n -> exists b, square_loop c x n = Ret b.
Proof.
  intros Hn; revert x; induction c as [|c IH]; intros x; simpl; [eauto |].
  rewrite py_pow_spec by lia; cbn [obind].
  destruct (_ =? _); [eauto | apply IH].
Qed.

Lemma mr_witness_total n d r a : 0 < n -> 0 <= d -> exists b, mr_witness n d r a = Ret b.
Proof.
  intros Hn Hd; unfold mr_witness; rewrite py_pow_spec by lia; cbn [obind].
  destruct (_ || _); [eauto | apply square_loop_total, Hn].
Qed.

Section Totality.
Context {R : Type} `{RandomSource R}.

Lemma mr_rounds_total k n d r s :
  3 < n -> 0 <= d -> exists b s', mr_rounds k n d r s = Ret (b, s').
Proof.
  intros Hn Hd; revert s; induction k as [|k IH]; intros s; simpl; [eauto |].
  rewrite randbelow_ok by lia; cbn [obind].
  destruct (draw_below (n - 3) s) as [a0 s1].
  destruct (mr_witness_total n d r (a0 + 2)) as [[|] Eb]; try lia;
    rewrite Eb; cbn [obind]; eauto.
Qed.

(** C24: [is_probable_prime] always returns, without raising, whatever
    [n], [k] and the random source: the guards before Miller-Rabin
    leave [n >= 31], so [randbelow(n - 3)] has a positive bound,
    the [while d % 2 == 0] loop runs on [n - 1 > 0] and every [pow] has
    a positive modulus. *)
Theorem is_probable_prime_total n k s :
  exists b s', is_probable_prime n k s = Ret (b, s').
Proof.
  unfold is_probable_prime.
  destruct (Z.ltb_spec n 2); [eauto |].
  destruct (trial_division small_primes n) as [b|] eqn:T; [eauto |].
  destruct (trial_division_passed n ltac:(lia) T) as [Hn _].
  destruct (factor_twos_spec (n - 1) ltac:(lia)) as (d & r & E & _ & _ & _ & Hd).
  rewrite E; cbn [obind]; apply mr_rounds_total; lia.
Qed.
End Totality.

(** ** Correctness *)

Section Correctness.
Context {R : Type} `{RandomSourceOk R}.

(** Every prime passes, for every round count and every random
    source: trial division only rejects proper multiples of a small
    prime, and no Miller-Rabin witness in [[2, n-2]] rejects a prime
    (Fermat's little theorem and the square roots of 1 modulo a
    prime).  Hence a [False] answer proves that [n] is composite. *)
Lemma probable_prime_of_prime n k s :
  Z.prime n -> exists s', is_probable_prime n k s = Ret (true, s').
Proof.
  intros Hp; pose proof (Z.prime_ge_2 n Hp); unfold is_probable_prime.
  destruct (Z.ltb_spec n 2); [lia |].
  destruct (trial_division small_primes n) as [b|] eqn:T.
  - destruct (trial_division_Some _ _ _ T) as (p & Hin & Hmod & ->).
    pose proof (Z.prime_ge_2 p (small_primes_prime p Hin)).
    apply Z.mod_divide in Hmod; [| lia].
    assert (p = n).
    { destruct (Z.eq_dec p n); [assumption | exfalso].
      pose proof (Z.divide_pos_le p n ltac:(lia) Hmod).
      apply (proj2 Hp p); [lia | exact Hmod]. }
    subst p; rewrite Z.eqb_refl; eauto.
  - destruct (trial_division_passed n ltac:(lia) T) as [Hn Hodd].
    destruct (factor_twos_spec (n - 1) ltac:(lia)) as (d & r & E & Hdr & Hr & Hdo & Hd).
    rewrite E; cbn [obind].
    apply mr_rounds_prime; try assumption; try lia.
    apply (factor_twos_odd n d r); assumption.
Qed.

(** C4: every prime passes, for every round count and every random
    source: trial division only rejects proper multiples of a small
    prime, and no Miller-Rabin witness in [[2, n-2]] rejects a prime
    (Fermat's little theorem and the square roots of 1 modulo a
    prime).  Hence a [False] answer proves that [n] is composite. *)
Theorem is_probable_prime_prime n k s :
  Z.prime n -> exists s', is_probable_prime n k s = Ret (true, s').
Proof. exact (probable_prime_of_prime n k s). Qed.

(** C25: below [31 * 31 = 961] the answer is exact: [True] exactly for
    the primes, whatever the random draws. *)
Theorem is_probable_prime_exact_small n k s b s' :
  n < 961 -> is_probable_prime n k s = Ret (b, s') -> (b = true <-> Z.prime n).
Proof.
  intros Hn Hrun; split.
  - intros ->; unfold is_probable_prime in Hrun.
    destruct (Z.ltb_spec n 2); [discriminate |].
    destruct (trial_division small_primes n) as [b|] eqn:T.
    + injection Hrun as ->.
      destruct (trial_division_Some _ _ _ T) as (p & Hin & _ & E).
      symmetry in E; apply Z.eqb_eq in E; subst p; apply small_primes_prime, Hin.
    + pose proof (trial_division_None _ _ T) as HF; rewrite Forall_forall in HF.
      apply prime_of_no_small_divisor; [lia |]; intros m Hm Hmm.
      assert (m <= 30) by nia.
      destruct (proj1 (existsb_exists _ _) (small_factor m ltac:(lia))) as (q & Hq & E).
      apply Z.eqb_eq, Z.mod_divide in E; [| pose proof (Z.prime_ge_2 q (small_primes_prime q Hq)); lia].
      intros Hmn; apply Z.mod_divide in Hmn; [| lia].
      apply (HF q Hq), Z.mod_divide; [pose proof (Z.prime_ge_2 q (small_primes_prime q Hq)); lia |].
      eapply Z.divide_trans; eassumption.
  - intros Hp; destruct (probable_prime_of_prime n k s Hp) as [s'' E]; congruence.
Qed.
End Correctness.

(** ** Concrete instances *)

Lemma is_probable_prime_prime_witness :
  exists s', is_probable_prime 1000003 16 [3; 14; 15; 92] = Ret (true, s').
Proof.
  apply (is_probable_prime_prime 1000003 16 [3; 14; 15; 92]).
  apply prime_by_check; [lia | vm_compute; reflexivity].
Defined.

Lemma is_probable_prime_exact_small_witness : Z.prime 97.
Proof.
  assert (E : is_probable_prime 97 16 [1; 2; 3] = Ret (true, [])) by (vm_compute; reflexivity).
  apply (proj1 (is_probable_prime_exact_small 97 16 [1; 2; 3] true [] ltac:(lia) E)).
  reflexivity.
Defined.
