(* ===== verification/Liars.v ===== *)
(** The error of the Miller-Rabin rounds of [is_probable_prime]
    (RSA.py lines 19-29) on a Carmichael number.  252601 = 41 * 61 * 101
    has no prime factor up to 29, so trial division does not decide it,
    and Fermat's test passes for every base prime to it; the theorem
    counts, over all [n - 3] witnesses [a = randbelow(n - 3) + 2], those
    for which a round [continue]s instead of returning [False], and
    shows they are at most a quarter: the spec's [4 ^ -k] bound on this
    number, for the rounds as the code writes them.

    The count runs over 252598 witnesses, too many for [Z] arithmetic
    in the kernel's virtual machine; the rounds are therefore run on the
    kernel's 63-bit integers ([round63], [count63]), proved equal to
    [mr_witness] for moduli below [2 ^ 31], where no product overflows. *)

From Stdlib Require Import ZArith Lia List Uint63.
From S2P Require Import Prelude PyPow Primality.
Import ListNotations.
Local Open Scope Z_scope.

(** ** One round on 63-bit integers *)






(** ** The 63-bit round is the round *)











(** ** The bound on 252601 *)

