(* ===== verification/KeyGen.v ===== *)
(** Key generation of RSA.py: [generate_prime] (lines 32-38) and
    [generate_keypair] (lines 55-74).  The [while True] loops (the prime
    search, the redraw of [q] while [q == p], the search for a fallback
    public exponent) take a fuel argument and return [OutOfFuel] when it
    runs out.  The key pair is the two tuples [(n, e)] and [(n, d, p, q)],
    here the records [PublicKey] and [PrivateKey].

    Theorems: a candidate has exactly [bits] bits and is odd; a prime
    returned by [generate_prime] passed the probable-prime test and has
    those properties; the search returns as soon as it draws a prime; a
    returned key pair satisfies the RSA key invariant; and
    [generate_keypair 2] never returns. *)

From Stdlib Require Import ZArith Lia List.
From S2P Require Import Prelude Random ModArith PyPow Primality.
Import ListNotations.
Open Scope Z_scope.
Open Scope py_scope.

(** ** Data *)

(** [pub = (n, e)] *)
Record PublicKey := { pub_n : Z; pub_e : Z }.

(** [priv = (n, d, p, q)] *)
Record PrivateKey := { priv_n : Z; priv_d : Z; priv_p : Z; priv_q : Z }.

(** ** Operations *)

(** [secrets.randbits(bits) | (1 << (bits - 1)) | 1] *)
Definition candidate (x bits : Z) : Z := Z.lor (Z.lor x (Z.shiftl 1 (bits - 1))) 1.

Section WithRandom.
Context {R : Type} `{RandomSource R}.

(** [while True: cand = ...; if is_probable_prime(cand): return cand] *)
Fixpoint prime_search (fuel : nat) (bits : Z) (s : R) : outcome (Z * R) :=
  match fuel with
  | O => OutOfFuel
  | S f =>
      '(x, s1) <- randbits bits s ;;
      let cand := candidate x bits in
      '(ok, s2) <- is_probable_prime cand 16 s1 ;;
      if ok then Ret (cand, s2) else prime_search f bits s2
  end.

Definition generate_prime (fuel : nat) (bits : Z) (s : R) : outcome (Z * R) :=
  if bits <? 2 then Throw ValueError_bits else prime_search fuel bits s.

(** [while q == p: q = generate_prime(prime_bits)] *)
Fixpoint redraw_q (fuel : nat) (bits p q : Z) (s : R) : outcome (Z * R) :=
  if q =? p then
    match fuel with
    | O => OutOfFuel
    | S f => '(q', s1) <- generate_prime fuel bits s ;; redraw_q f bits p q' s1
    end
  else Ret (q, s).

(** [while True: e = secrets.randbelow(phi - 3) + 2; if e % 2 == 0: e += 1;
    if math.gcd(e, phi) == 1: break] *)
Fixpoint choose_e (fuel : nat) (phi : Z) (s : R) : outcome (Z * R) :=
  match fuel with
  | O => OutOfFuel
  | S f =>
      '(e0, s1) <- randbelow (phi - 3) s ;;
      let e1 := e0 + 2 in
      let e := if e1 mod 2 =? 0 then e1 + 1 else e1 in
      if Z.gcd e phi =? 1 then Ret (e, s1) else choose_e f phi s1
  end.

Definition generate_keypair (fuel : nat) (prime_bits : Z) (s : R)
  : outcome (PublicKey * PrivateKey * R) :=
  '(p, s1) <- generate_prime fuel prime_bits s ;;
  '(q0, s2) <- generate_prime fuel prime_bits s1 ;;
  '(q, s3) <- redraw_q fuel prime_bits p q0 s2 ;;
  let n := p * q in
  let phi := (p - 1) * (q - 1) in
  '(e, s4) <- (if negb (Z.gcd 65537 phi =? 1) then choose_e fuel phi s3
               else Ret (65537, s3)) ;;
  d <- modinv e phi ;;
  Ret ({| pub_n := n; pub_e := e |},
       {| priv_n := n; priv_d := d; priv_p := p; priv_q := q |}, s4).
End WithRandom.

(** ** The RSA key invariant *)

(** What a key pair of [bits]-bit primes promises (spec section 3, without
    the primality of [p] and [q], which the probable-prime test only
    makes likely): the moduli agree, [p <> q], both odd with [bits]
    bits, [e >= 3] coprime to [phi] and [d] its inverse modulo [phi]. *)
Definition valid_keypair (bits : Z) (pub : PublicKey) (priv : PrivateKey) : Prop :=
  let p := priv_p priv in
  let q := priv_q priv in
  let phi := (p - 1) * (q - 1) in
  pub_n pub = p * q /\ priv_n priv = p * q /\ p <> q /\
  2 ^ (bits - 1) <= p < 2 ^ bits /\ 2 ^ (bits - 1) <= q < 2 ^ bits /\
  Z.odd p = true /\ Z.odd q = true /\
  3 <= pub_e pub /\ Z.gcd (pub_e pub) phi = 1 /\ 0 <= priv_d priv < phi /\
  (pub_e pub * priv_d priv) mod phi = 1.

(** ** Candidates *)

Lemma candidate_log2 x bits :
  2 <= bits -> 0 <= x < 2 ^ bits -> Z.log2 (candidate x bits) = bits - 1.
Proof.
  intros Hb Hx; unfold candidate; rewrite Z.shiftl_1_l.
  assert (0 < 2 ^ (bits - 1)) by (apply Z.pow_pos_nonneg; lia).
  assert (Z.log2 x <= bits - 1).
  { destruct (Z.eq_dec x 0) as [-> | Hx0]; [simpl; lia |].
    pose proof (proj1 (Z.log2_lt_pow2 x bits ltac:(lia)) (proj2 Hx)); lia. }
  rewrite !Z.log2_lor, Z.log2_pow2 by (try apply Z.lor_nonneg; lia).
  change (Z.log2 1) with 0; lia.
Qed.

(** A candidate [randbits(bits) | (1 << (bits-1)) | 1] lies in
    [[2^(bits-1), 2^bits)], so has exactly [bits] bits, and is odd. *)
Lemma candidate_props x bits :
  2 <= bits -> 0 <= x < 2 ^ bits ->
  2 ^ (bits - 1) <= candidate x bits < 2 ^ bits /\
  bit_length (candidate x bits) = bits /\ Z.odd (candidate x bits) = true.
Proof.
  intros Hb Hx; pose proof (candidate_log2 x bits Hb Hx) as Hl.
  assert (Hpos : 1 < candidate x bits).
  { destruct (Z_lt_le_dec 1 (candidate x bits)) as [| Hle]; [assumption |].
    apply Z.log2_null in Hle; lia. }
  pose proof (Z.log2_spec (candidate x bits) ltac:(lia)) as Hs.
  rewrite Hl in Hs; unfold Z.succ in Hs; replace (bits - 1 + 1) with bits in Hs by lia.
  split; [exact Hs | split].
  - replace bits with (bits - 1 + 1) at 2 by lia.
    apply bit_length_unique; [lia | replace (bits - 1 + 1) with bits by lia; exact Hs].
  - unfold candidate; rewrite <- Z.bit0_odd, Z.lor_spec, Bool.orb_true_r; reflexivity.
Qed.

(** C17: a candidate [randbits(bits) | (1 << (bits-1)) | 1] lies in
    [[2^(bits-1), 2^bits)], so has exactly [bits] bits, and is odd. *)
Theorem candidate_spec x bits :
  2 <= bits -> 0 <= x < 2 ^ bits ->
  2 ^ (bits - 1) <= candidate x bits < 2 ^ bits /\
  bit_length (candidate x bits) = bits /\ Z.odd (candidate x bits) = true.
Proof. exact (candidate_props x bits). Qed.

Lemma candidate_2 x : 0 <= x < 4 -> candidate x 2 = 3.
Proof.
  intros Hx; assert (x = 0 \/ x = 1 \/ x = 2 \/ x = 3) as Hc by lia.
  repeat (destruct Hc as [-> | Hc]; [reflexivity |]); subst; reflexivity.
Qed.

(** What [generate_prime] guarantees of its result. *)
Definition prime_props {R : Type} `{RandomSource R} (bits p : Z) : Prop :=
  2 ^ (bits - 1) <= p < 2 ^ bits /\ Z.odd p = true /\
  exists s1 s2 : R, is_probable_prime p 16 s1 = Ret (true, s2).

Section Search.
Context {R : Type} `{RandomSourceOk R}.

Lemma prime_search_spec fuel bits s p s' :
  2 <= bits -> prime_search fuel bits s = Ret (p, s') -> prime_props (R := R) bits p.
Proof.
  intros Hb; revert s; induction fuel as [|f IH]; intros s Hrun; [discriminate |].
  simpl in Hrun; rewrite randbits_ok in Hrun by lia; cbn [obind] in Hrun.
  pose proof (draw_bits_range bits s ltac:(lia)) as Hx.
  destruct (draw_bits bits s) as [x s1]; simpl in Hx.
  destruct (is_probable_prime (candidate x bits) 16 s1) as [[[|] s2]| |] eqn:E;
    cbn [obind] in Hrun; try discriminate.
  - injection Hrun as <- <-.
    destruct (candidate_props x bits Hb Hx) as (? & _ & ?); repeat split; eauto; lia.
  - eapply IH; exact Hrun.
Qed.

(** A prime returned by [generate_prime] lies in
    [[2^(bits-1), 2^bits)] (exactly [bits] bits), is odd, and passed [is_probable_prime] (with its default [k = 16]). *)
Lemma generate_prime_props fuel bits s p s' :
  generate_prime fuel bits s = Ret (p, s') -> 2 <= bits /\ prime_props (R := R) bits p.
Proof.
  unfold generate_prime; destruct (Z.ltb_spec bits 2); [discriminate |].
  intros Hrun; split; [lia | eapply prime_search_spec; eassumption].
Qed.

(** C16: a prime returned by [generate_prime] lies in
    [[2^(bits-1), 2^bits)] (exactly [bits] bits), is odd, and passed [is_probable_prime] (with its default [k = 16]). *)
Theorem generate_prime_spec fuel bits s p s' :
  generate_prime fuel bits s = Ret (p, s') -> 2 <= bits /\ prime_props (R := R) bits p.
Proof. exact (generate_prime_props fuel bits s p s'). Qed.

(** C21: the search exits on the first prime it draws: if the first
    candidate is prime, one iteration returns it, whatever the state
    Miller-Rabin leaves behind (it never rejects a prime). *)
Theorem generate_prime_first_prime f bits s :
  2 <= bits -> Z.prime (candidate (fst (draw_bits bits s)) bits) ->
  exists s', generate_prime (S f) bits s =
             Ret (candidate (fst (draw_bits bits s)) bits, s').
Proof.
  intros Hb Hp; unfold generate_prime; destruct (Z.ltb_spec bits 2); [lia |].
  simpl; rewrite randbits_ok by lia; cbn [obind].
  destruct (draw_bits bits s) as [x s1]; simpl in *.
  destruct (probable_prime_of_prime (candidate x bits) 16 s1 Hp) as [s2 E].
  rewrite E; cbn [obind]; eauto.
Qed.
End Search.

(** ** Key pairs *)

Section KeyPair.
Context {R : Type} `{RandomSourceOk R}.

Lemma redraw_q_spec fuel bits p q0 s q s' :
  prime_props (R := R) bits q0 -> redraw_q fuel bits p q0 s = Ret (q, s') ->
  q <> p /\ prime_props (R := R) bits q.
Proof.
  revert q0 s; induction fuel as [|f IH]; intros q0 s Hq0 Hrun; simpl in Hrun;
    destruct (Z.eqb_spec q0 p) as [E | Ne]; try discriminate;
    try (injection Hrun as <- <-; auto).
  destruct (generate_prime (S f) bits s) as [[q1 s1]| |] eqn:G;
    cbn [obind] in Hrun; try discriminate.
  apply (IH q1 s1); [apply (generate_prime_props _ _ _ _ _ G) | exact Hrun].
Qed.

(** A fallback exponent is odd, in [[3, phi)] and coprime to
    [phi]; the loop raises (through [randbelow]) when [phi <= 3]. *)
Lemma choose_e_props fuel phi s e s' :
  choose_e fuel phi s = Ret (e, s') ->
  Z.gcd e phi = 1 /\ 3 <= e < phi /\ Z.odd e = true.
Proof.
  revert s; induction fuel as [|f IH]; intros s Hrun; [discriminate |].
  simpl in Hrun; unfold randbelow in Hrun.
  destruct (Z.leb_spec (phi - 3) 0); [discriminate |]; cbn [obind] in Hrun.
  pose proof (draw_below_range (phi - 3) s ltac:(lia)) as He0.
  destruct (draw_below (phi - 3) s) as [e0 s1]; simpl in He0.
  set (e1 := if (e0 + 2) mod 2 =? 0 then e0 + 2 + 1 else e0 + 2) in Hrun.
  destruct (Z.eqb_spec (Z.gcd e1 phi) 1) as [G | _]; [| eapply IH; exact Hrun].
  injection Hrun as <- <-; split; [exact G |].
  unfold e1; rewrite Zodd_mod; destruct (Z.eqb_spec ((e0 + 2) mod 2) 0) as [E | E].
  - rewrite Z.add_mod, E by lia; simpl; split; [lia | reflexivity].
  - pose proof (Z.mod_pos_bound (e0 + 2) 2 ltac:(lia)).
    pose proof (Z.div_mod (e0 + 2) 2 ltac:(lia)).
    split; [lia | apply Z.eqb_eq; lia].
Qed.

(** C22: a fallback exponent is odd, in [[3, phi)] and coprime to
    [phi]; the loop raises (through [randbelow]) when [phi <= 3]. *)
Theorem choose_e_spec fuel phi s e s' :
  choose_e fuel phi s = Ret (e, s') ->
  Z.gcd e phi = 1 /\ 3 <= e < phi /\ Z.odd e = true.
Proof. exact (choose_e_props fuel phi s e s'). Qed.

Lemma prime_props_ge_3 bits p : 2 <= bits -> prime_props (R := R) bits p -> 3 <= p.
Proof.
  intros Hb (Hr & Ho & _).
  assert (2 ^ 1 <= 2 ^ (bits - 1)) by (apply Z.pow_le_mono_r; lia).
  destruct (Z.eq_dec p 2) as [-> | ]; [discriminate | simpl in *; lia].
Qed.

(** A key pair returned by [generate_keypair] satisfies the RSA
    key invariant: [n = p q] in both keys, [p <> q], both odd with
    [bits] bits, [e >= 3], [gcd(e, phi) = 1], [d] in [[0, phi)] and
    [e d = 1 (mod phi)]. *)
Lemma keypair_props fuel bits s pub priv s' :
  generate_keypair fuel bits s = Ret (pub, priv, s') -> valid_keypair bits pub priv.
Proof.
  unfold generate_keypair; intros Hrun.
  inv_bind Hrun; destruct a as [p s1]; inv_bind Hrun; destruct a as [q0 s2].
  inv_bind Hrun; destruct a as [q s3]; inv_bind Hrun; destruct a as [e s4].
  inv_bind Hrun; rename a into d; injection Hrun as <- <- <-.
  destruct (generate_prime_props _ _ _ _ _ Hm) as (Hb & Hp).
  destruct (generate_prime_props _ _ _ _ _ Hm0) as (_ & Hq0).
  destruct (redraw_q_spec _ _ _ _ _ _ _ Hq0 Hm1) as (Hne & Hq).
  pose proof (prime_props_ge_3 _ _ Hb Hp); pose proof (prime_props_ge_3 _ _ Hb Hq).
  set (phi := (p - 1) * (q - 1)) in *.
  assert (Hphi : 4 <= phi) by (unfold phi; nia).
  assert (He : Z.gcd e phi = 1 /\ 3 <= e).
  { destruct (Z.eqb_spec (Z.gcd 65537 phi) 1) as [G | G]; simpl in Hm2.
    - injection Hm2 as <- _; split; [exact G | lia].
    - destruct (choose_e_props _ _ _ _ _ Hm2) as (? & ? & _); split; [assumption | lia]. }
  destruct He as [He He3].
  apply (modinv_spec e phi d ltac:(lia)) in Hm3 as [Hd Hinv].
  rewrite (Z.mod_small 1) in Hinv by lia.
  destruct Hp as (Hpr & Hpo & _), Hq as (Hqr & Hqo & _).
  unfold valid_keypair; simpl; repeat split; auto; lia.
Qed.

(** C3: a key pair returned by [generate_keypair] satisfies the RSA
    key invariant: [n = p q] in both keys, [p <> q], both odd with
    [bits] bits, [e >= 3], [gcd(e, phi) = 1], [d] in [[0, phi)] and
    [e d = 1 (mod phi)]. *)
Theorem generate_keypair_valid fuel bits s pub priv s' :
  generate_keypair fuel bits s = Ret (pub, priv, s') -> valid_keypair bits pub priv.
Proof. exact (keypair_props fuel bits s pub priv s'). Qed.

Lemma generate_prime_2 fuel s :
  generate_prime fuel 2 s = OutOfFuel \/ exists s', generate_prime fuel 2 s = Ret (3, s').
Proof.
  unfold generate_prime; replace (2 <? 2) with false by reflexivity.
  destruct fuel as [|f]; [left; reflexivity | right].
  cbn [prime_search]; rewrite randbits_ok by lia; cbn [obind].
  pose proof (draw_bits_range 2 s ltac:(lia)) as Hx.
  destruct (draw_bits 2 s) as [x s1]; simpl in Hx.
  rewrite candidate_2 by exact Hx; exists s1; reflexivity.
Qed.

Lemma redraw_q_2 fuel s : redraw_q fuel 2 3 3 s = OutOfFuel.
Proof.
  revert s; induction fuel as [|f IH]; intros s; [reflexivity |]; simpl redraw_q.
  destruct (generate_prime_2 (S f) s) as [E | [s' E]]; rewrite E; [reflexivity |].
  cbn [obind]; apply IH.
Qed.

(** C14: [generate_keypair(2)] never returns: [generate_prime(2)]
    always yields 3 (the only candidate [randbits(2) | 2 | 1]), so the
    loop [while q == p] redraws forever.  For every fuel and every
    random source the model runs out of fuel. *)
Theorem generate_keypair_2_diverges fuel s : generate_keypair fuel 2 s = OutOfFuel.
Proof.
  unfold generate_keypair.
  destruct (generate_prime_2 fuel s) as [E | [s1 E]]; rewrite E; [reflexivity |]; cbn [obind].
  destruct (generate_prime_2 fuel s1) as [E' | [s2 E']]; rewrite E'; [reflexivity |].
  cbn [obind]; rewrite redraw_q_2; reflexivity.
Qed.
End KeyPair.

(** ** Concrete instances *)

Lemma candidate_spec_witness :
  2 ^ (8 - 1) <= candidate 2 8 < 2 ^ 8 /\ bit_length (candidate 2 8) = 8 /\ Z.odd (candidate 2 8) = true.
Proof. apply (candidate_spec 2 8); lia. Defined.

Lemma generate_prime_spec_witness : 2 <= 8 /\ prime_props (R := list Z) 8 131.
Proof.
  assert (E : generate_prime 3 8 [2] = Ret (131, [])) by (vm_compute; reflexivity).
  exact (generate_prime_spec 3 8 [2] 131 [] E).
Defined.

Lemma generate_prime_first_prime_witness :
  exists s', generate_prime 1 8 [2] = Ret (candidate (fst (draw_bits 8 [2])) 8, s').
Proof.
  apply (generate_prime_first_prime 0 8 [2]); [lia |].
  apply prime_by_check; [vm_compute; reflexivity | vm_compute; reflexivity].
Defined.

Lemma choose_e_spec_witness : Z.gcd 7 100 = 1 /\ 3 <= 7 < 100 /\ Z.odd 7 = true.
Proof.
  assert (E : choose_e 3 100 [5] = Ret (7, [])) by (vm_compute; reflexivity).
  exact (choose_e_spec 3 100 [5] 7 [] E).
Defined.

(** The fallback branch: [65537] divides [p - 1 = 917518], so the
    public exponent is drawn by [choose_e] (here 13). *)
Lemma generate_keypair_valid_witness :
  valid_keypair 20 {| pub_n := 481063469371; pub_e := 13 |}
    {| priv_n := 481063469371; priv_d := 407052484845; priv_p := 917519; priv_q := 524309 |}.
Proof.
  assert (E : generate_keypair 5 20 ([393231] ++ repeat 0 16 ++ [21] ++ repeat 0 16 ++ [10]) =
              Ret ({| pub_n := 481063469371; pub_e := 13 |},
                   {| priv_n := 481063469371; priv_d := 407052484845;
                      priv_p := 917519; priv_q := 524309 |}, []))
    by (vm_compute; reflexivity).
  exact (generate_keypair_valid _ _ _ _ _ _ E).
Defined.

Lemma generate_keypair_2_diverges_witness : generate_keypair 1000 2 [7; 1; 5] = OutOfFuel.
Proof. apply generate_keypair_2_diverges. Defined.
