(* ===== verification/Utf8.v ===== *)
(** UTF-8, as Python's [str.encode('utf-8')] and strict
    [bytes.decode('utf-8')] do it; the codec of RSA.py (lines 76-81) calls
    both.  These are builtins, modelled from the Unicode standard that
    CPython follows: a Python string is a list of code points in
    [[0, 0x110000)]; encoding raises [UnicodeEncodeError] on a lone
    surrogate; decoding accepts exactly the well-formed sequences of
    Unicode's Table 3-7 (no overlong form, no surrogate, nothing above
    [0x10FFFF]) and raises [UnicodeDecodeError] on anything else.

    Theorems: every string of scalar values encodes to bytes that
    decode back to it, and every byte string that decodes re-encodes to
    itself. *)

From Stdlib Require Import ZArith Lia List Wf_nat.
From S2P Require Import Prelude.
Import ListNotations.
Open Scope Z_scope.
Open Scope py_scope.
Open Scope bool_scope.

(** ** Data *)

(** A byte and a Unicode scalar value (a code point that is not a
    surrogate). *)
Definition is_byte (b : Z) : Prop := 0 <= b < 256.

Definition scalar (c : Z) : Prop := 0 <= c < 0x110000 /\ ~ (0xD800 <= c <= 0xDFFF).

(** ** Encoding *)

Definition encode_char (c : Z) : outcome (list Z) :=
  if c <? 0x80 then Ret [c]
  else if c <? 0x800 then
    Ret [Z.lor 0xC0 (Z.shiftr c 6); Z.lor 0x80 (Z.land c 0x3F)]
  else if c <? 0x10000 then
    if (0xD800 <=? c) && (c <=? 0xDFFF) then Throw UnicodeEncodeError
    else Ret [Z.lor 0xE0 (Z.shiftr c 12); Z.lor 0x80 (Z.land (Z.shiftr c 6) 0x3F);
              Z.lor 0x80 (Z.land c 0x3F)]
  else Ret [Z.lor 0xF0 (Z.shiftr c 18); Z.lor 0x80 (Z.land (Z.shiftr c 12) 0x3F);
            Z.lor 0x80 (Z.land (Z.shiftr c 6) 0x3F); Z.lor 0x80 (Z.land c 0x3F)].

Fixpoint encode_utf8 (s : list Z) : outcome (list Z) :=
  match s with
  | [] => Ret []
  | c :: s' => b <- encode_char c ;; bs <- encode_utf8 s' ;; Ret (b ++ bs)
  end.

(** ** Decoding *)

Definition in_range (lo hi b : Z) : bool := (lo <=? b) && (b <=? hi).

(** The range of the first continuation byte after a lead byte
    (Table 3-7): narrower after [E0], [ED], [F0] and [F4], which excludes
    overlong forms, surrogates and code points above [0x10FFFF]. *)
Definition first_cont_range (b0 : Z) : Z * Z :=
  if b0 =? 0xE0 then (0xA0, 0xBF)
  else if b0 =? 0xED then (0x80, 0x9F)
  else if b0 =? 0xF0 then (0x90, 0xBF)
  else if b0 =? 0xF4 then (0x80, 0x8F)
  else (0x80, 0xBF).

Definition dec2 (b0 b1 : Z) : Z := Z.lor (Z.shiftl (Z.land b0 0x1F) 6) (Z.land b1 0x3F).

Definition dec3 (b0 b1 b2 : Z) : Z :=
  Z.lor (Z.lor (Z.shiftl (Z.land b0 0x0F) 12) (Z.shiftl (Z.land b1 0x3F) 6)) (Z.land b2 0x3F).

Definition dec4 (b0 b1 b2 b3 : Z) : Z :=
  Z.lor (Z.lor (Z.lor (Z.shiftl (Z.land b0 0x07) 18) (Z.shiftl (Z.land b1 0x3F) 12))
               (Z.shiftl (Z.land b2 0x3F) 6)) (Z.land b3 0x3F).

Fixpoint decode_utf8 (bs : list Z) : outcome (list Z) :=
  match bs with
  | [] => Ret []
  | b0 :: r =>
      if b0 <? 0x80 then cs <- decode_utf8 r ;; Ret (b0 :: cs)
      else
        let '(lo, hi) := first_cont_range b0 in
        if in_range 0xC2 0xDF b0 then
          match r with
          | b1 :: r' =>
              if in_range lo hi b1 then cs <- decode_utf8 r' ;; Ret (dec2 b0 b1 :: cs)
              else Throw UnicodeDecodeError
          | _ => Throw UnicodeDecodeError
          end
        else if in_range 0xE0 0xEF b0 then
          match r with
          | b1 :: b2 :: r' =>
              if in_range lo hi b1 && in_range 0x80 0xBF b2
              then cs <- decode_utf8 r' ;; Ret (dec3 b0 b1 b2 :: cs)
              else Throw UnicodeDecodeError
          | _ => Throw UnicodeDecodeError
          end
        else if in_range 0xF0 0xF4 b0 then
          match r with
          | b1 :: b2 :: b3 :: r' =>
              if in_range lo hi b1 && in_range 0x80 0xBF b2 && in_range 0x80 0xBF b3
              then cs <- decode_utf8 r' ;; Ret (dec4 b0 b1 b2 b3 :: cs)
              else Throw UnicodeDecodeError
          | _ => Throw UnicodeDecodeError
          end
        else Throw UnicodeDecodeError
  end.

(** ** The bit operations as arithmetic *)

Lemma mask_6 x : Z.land x 0x3F = x mod 64.
Proof. exact (land_low x 6 ltac:(lia)). Qed.

Lemma cont_byte x : Z.lor 0x80 (x mod 64) = 0x80 + x mod 64.
Proof. apply (lor_add _ _ 6); [lia | reflexivity | pose proof (Z.mod_pos_bound x 64); lia]. Qed.

Lemma encode_char_arith c :
  0 <= c < 0x110000 ->
  encode_char c =
  if c <? 0x80 then Ret [c]
  else if c <? 0x800 then Ret [0xC0 + c / 64; 0x80 + c mod 64]
  else if c <? 0x10000 then
    if (0xD800 <=? c) && (c <=? 0xDFFF) then Throw UnicodeEncodeError
    else Ret [0xE0 + c / 4096; 0x80 + c / 64 mod 64; 0x80 + c mod 64]
  else Ret [0xF0 + c / 262144; 0x80 + c / 4096 mod 64; 0x80 + c / 64 mod 64; 0x80 + c mod 64].
Proof.
  intros Hc; unfold encode_char.
  rewrite !shiftr_div, !mask_6, !cont_byte by lia.
  change (2 ^ 6) with 64; change (2 ^ 12) with 4096; change (2 ^ 18) with 262144.
  destruct (Z.ltb_spec c 0x80); [reflexivity |].
  destruct (Z.ltb_spec c 0x800).
  { rewrite (lor_add 0xC0 (c / 64) 5); [reflexivity | lia | reflexivity | zlia]. }
  destruct (Z.ltb_spec c 0x10000).
  { rewrite (lor_add 0xE0 (c / 4096) 4); [reflexivity | lia | reflexivity | zlia]. }
  rewrite (lor_add 0xF0 (c / 262144) 3); [reflexivity | lia | reflexivity | zlia].
Qed.

Lemma dec2_arith b0 b1 : dec2 b0 b1 = (b0 mod 32) * 64 + b1 mod 64.
Proof.
  unfold dec2; change 0x1F with (2 ^ 5 - 1); rewrite mask_6, shiftl_mul, (land_low b0 5) by lia.
  apply (lor_add _ _ 6); [lia | | pose proof (Z.mod_pos_bound b1 64); lia].
  change (2 ^ 6) with 64; apply Z.mod_mul; lia.
Qed.

Lemma dec3_arith b0 b1 b2 :
  dec3 b0 b1 b2 = (b0 mod 16) * 4096 + (b1 mod 64) * 64 + b2 mod 64.
Proof.
  unfold dec3; change 0x0F with (2 ^ 4 - 1); rewrite !mask_6, !shiftl_mul, (land_low b0 4) by lia.
  change (2 ^ 6) with 64; change (2 ^ 12) with 4096; change (2 ^ 4) with 16.
  pose proof (Z.mod_pos_bound b1 64); pose proof (Z.mod_pos_bound b2 64).
  rewrite (lor_add ((b0 mod 16) * 4096) ((b1 mod 64) * 64) 12) by zlia.
  apply (lor_add _ _ 6); zlia.
Qed.

Lemma dec4_arith b0 b1 b2 b3 :
  dec4 b0 b1 b2 b3 = (b0 mod 8) * 262144 + (b1 mod 64) * 4096 + (b2 mod 64) * 64 + b3 mod 64.
Proof.
  unfold dec4; change 0x07 with (2 ^ 3 - 1); rewrite !mask_6, !shiftl_mul, (land_low b0 3) by lia.
  change (2 ^ 6) with 64; change (2 ^ 12) with 4096; change (2 ^ 18) with 262144;
    change (2 ^ 3) with 8.
  pose proof (Z.mod_pos_bound b1 64); pose proof (Z.mod_pos_bound b2 64);
    pose proof (Z.mod_pos_bound b3 64).
  rewrite (lor_add ((b0 mod 8) * 262144) ((b1 mod 64) * 4096) 18) by zlia.
  rewrite (lor_add ((b0 mod 8) * 262144 + (b1 mod 64) * 4096) ((b2 mod 64) * 64) 12) by zlia.
  apply (lor_add _ _ 6); zlia.
Qed.

Lemma in_range_spec lo hi b : in_range lo hi b = true <-> lo <= b <= hi.
Proof. unfold in_range; rewrite Bool.andb_true_iff, Z.leb_le, Z.leb_le; reflexivity. Qed.

Lemma first_cont_range_spec b0 :
  let '(lo, hi) := first_cont_range b0 in
  (b0 = 0xE0 /\ lo = 0xA0 /\ hi = 0xBF) \/ (b0 = 0xED /\ lo = 0x80 /\ hi = 0x9F) \/
  (b0 = 0xF0 /\ lo = 0x90 /\ hi = 0xBF) \/ (b0 = 0xF4 /\ lo = 0x80 /\ hi = 0x8F) \/
  (b0 <> 0xE0 /\ b0 <> 0xED /\ b0 <> 0xF0 /\ b0 <> 0xF4 /\ lo = 0x80 /\ hi = 0xBF).
Proof.
  unfold first_cont_range; repeat case_bool; subst; simpl; lia.
Qed.

(** [decide_cmp] evaluates every comparison of the goal that the
    hypotheses decide. *)
Ltac decide_cmp :=
  repeat match goal with
  | |- context [?a <? ?b] =>
      first [rewrite (proj2 (Z.ltb_lt a b)) by zlia | rewrite (proj2 (Z.ltb_ge a b)) by zlia]
  | |- context [?a <=? ?b] =>
      first [rewrite (proj2 (Z.leb_le a b)) by zlia | rewrite (proj2 (Z.leb_gt a b)) by zlia]
  | |- context [?a =? ?b] =>
      first [rewrite (proj2 (Z.eqb_eq a b)) by zlia | rewrite (proj2 (Z.eqb_neq a b)) by zlia]
  end.

(** ** Encoding then decoding *)

Lemma obind_cons_eq (m : outcome (list Z)) x y :
  x = y -> (cs <- m ;; Ret (x :: cs)) = (cs <- m ;; Ret (y :: cs)).
Proof. intros ->; reflexivity. Qed.

Ltac decode_step :=
  cbn [decode_utf8 app]; unfold first_cont_range, in_range; decide_cmp;
  repeat (match goal with |- context [?a =? ?b] => destruct (Z.eqb_spec a b) end; decide_cmp);
  cbn [andb].

Lemma encode_char_decode c r :
  scalar c ->
  exists bs, encode_char c = Ret bs /\ Forall is_byte bs /\
    decode_utf8 (bs ++ r) = (cs <- decode_utf8 r ;; Ret (c :: cs)).
Proof.
  intros [Hc Hs]; rewrite encode_char_arith by exact Hc.
  destruct (Z.ltb_spec c 0x80).
  { eexists; split; [reflexivity | split; [repeat constructor; unfold is_byte; lia |]].
    decode_step; reflexivity. }
  destruct (Z.ltb_spec c 0x800).
  { eexists; split; [reflexivity | split; [repeat constructor; unfold is_byte; zlia |]].
    decode_step; apply obind_cons_eq; rewrite dec2_arith; zlia. }
  destruct (Z.ltb_spec c 0x10000).
  { destruct (Z.leb_spec 0xD800 c), (Z.leb_spec c 0xDFFF); try lia; cbn [andb].
    all: eexists; split; [reflexivity | split; [repeat constructor; unfold is_byte; zlia |]].
    all: decode_step; apply obind_cons_eq; rewrite dec3_arith; zlia. }
  eexists; split; [reflexivity | split; [repeat constructor; unfold is_byte; zlia |]].
  decode_step; apply obind_cons_eq; rewrite dec4_arith; zlia.
Qed.

(** Every string of Unicode scalar values encodes to bytes, and the
    bytes decode back to the string. *)
Theorem utf8_roundtrip s :
  Forall scalar s ->
  exists bs, encode_utf8 s = Ret bs /\ Forall is_byte bs /\ decode_utf8 bs = Ret s.
Proof.
  induction 1 as [| c s Hc Hs IH]; [exists []; repeat constructor |].
  destruct IH as (bs & E & Hb & D).
  destruct (encode_char_decode c bs Hc) as (b & Ec & Hbc & Dc).
  exists (b ++ bs); simpl; rewrite Ec, E; cbn [obind].
  split; [reflexivity | split; [apply Forall_app; auto |]].
  rewrite Dc, D; reflexivity.
Qed.

(** ** Decoding then encoding *)

Lemma encode_char_ascii b : b < 0x80 -> encode_char b = Ret [b].
Proof. intros Hb; unfold encode_char; destruct (Z.ltb_spec b 0x80); [reflexivity | lia]. Qed.

Ltac encode_bytes :=
  rewrite encode_char_arith by zlia; decide_cmp;
  repeat (case_bool; try zlia); cbn [andb];
  repeat f_equal; zlia.

Lemma decode_utf8_step b0 r s :
  decode_utf8 (b0 :: r) = Ret s ->
  exists bs1 r' c cs, b0 :: r = bs1 ++ r' /\ encode_char c = Ret bs1 /\
    decode_utf8 r' = Ret cs /\ s = c :: cs /\ (length r' < S (length r))%nat.
Proof.
  intros H; cbn [decode_utf8] in H.
  destruct (Z.ltb_spec b0 0x80).
  { inv_bind H; injection H as <-.
    exists [b0], r, b0, a; repeat split; auto; apply encode_char_ascii; lia. }
  pose proof (first_cont_range_spec b0) as Hr; destruct (first_cont_range b0) as [lo hi].
  destruct (in_range 0xC2 0xDF b0) eqn:E2; [apply in_range_spec in E2 |].
  { destruct r as [|b1 r']; [discriminate |].
    destruct (in_range lo hi b1) eqn:E1; [apply in_range_spec in E1 | discriminate].
    inv_bind H; injection H as <-.
    exists [b0; b1], r', (dec2 b0 b1), a.
    split; [reflexivity |]; split; [| repeat split; try assumption; simpl; lia].
    rewrite dec2_arith; encode_bytes. }
  destruct (in_range 0xE0 0xEF b0) eqn:E3; [apply in_range_spec in E3 |].
  { destruct r as [|b1 [|b2 r']]; try discriminate.
    destruct (in_range lo hi b1 && in_range 0x80 0xBF b2) eqn:E1; [| discriminate].
    apply Bool.andb_true_iff in E1 as [E1 E1']; apply in_range_spec in E1, E1'.
    inv_bind H; injection H as <-.
    exists [b0; b1; b2], r', (dec3 b0 b1 b2), a.
    split; [reflexivity |]; split; [| repeat split; try assumption; simpl; lia].
    rewrite dec3_arith; encode_bytes. }
  destruct (in_range 0xF0 0xF4 b0) eqn:E4; [apply in_range_spec in E4 | discriminate].
  destruct r as [|b1 [|b2 [|b3 r']]]; try discriminate.
  destruct (in_range lo hi b1 && in_range 0x80 0xBF b2 && in_range 0x80 0xBF b3) eqn:E1;
    [| discriminate].
  apply Bool.andb_true_iff in E1 as [E1 E1'']; apply Bool.andb_true_iff in E1 as [E1 E1'].
  apply in_range_spec in E1, E1', E1''.
  inv_bind H; injection H as <-.
  exists [b0; b1; b2; b3], r', (dec4 b0 b1 b2 b3), a.
    split; [reflexivity |]; split; [| repeat split; try assumption; simpl; lia].
  rewrite dec4_arith; encode_bytes.
Qed.

(** The decoder accepts only canonical encodings: bytes that decode
    to a string are exactly the encoding of that string. *)
Theorem utf8_decode_encode bs s : decode_utf8 bs = Ret s -> encode_utf8 s = Ret bs.
Proof.
  revert s; induction bs as [bs IH] using
    (well_founded_induction (well_founded_ltof _ (@length Z))); intros s H.
  destruct bs as [|b0 r]; [injection H as <-; reflexivity |].
  destruct (decode_utf8_step b0 r s H) as (bs1 & r' & c & cs & E & Ec & D & -> & Hl).
  rewrite E; simpl; rewrite Ec; cbn [obind].
  rewrite (IH r' ltac:(unfold ltof; simpl; lia) cs D); reflexivity.
Qed.

Lemma encode_char_cases c :
  encode_char c = Throw UnicodeEncodeError \/ exists b, encode_char c = Ret b.
Proof.
  unfold encode_char; repeat case_bool; cbn [andb]; eauto.
Qed.

(** A string holding a lone surrogate cannot be encoded:
    [str.encode('utf-8')] raises [UnicodeEncodeError]. *)
Theorem encode_utf8_surrogate s :
  Exists (fun c => 0xD800 <= c <= 0xDFFF) s -> encode_utf8 s = Throw UnicodeEncodeError.
Proof.
  induction 1 as [c s Hc | c s _ IH]; simpl.
  - unfold encode_char; decide_cmp; reflexivity.
  - destruct (encode_char_cases c) as [-> | [b ->]]; cbn [obind]; [reflexivity |].
    rewrite IH; reflexivity.
Qed.

(** The first byte of the encoding of a nonzero code point is nonzero. *)
Lemma encode_char_head c bs :
  0 < c < 0x110000 -> encode_char c = Ret bs -> hd 0 bs <> 0.
Proof.
  intros Hc E; rewrite encode_char_arith in E by lia; revert E.
  destruct (Z.ltb_spec c 0x80); [intros E%Ret_inj; subst bs; cbn [hd]; lia |].
  destruct (Z.ltb_spec c 0x800); [intros E%Ret_inj; subst bs; cbn [hd]; zlia |].
  destruct (Z.ltb_spec c 0x10000);
    [destruct (_ && _); [discriminate |] |]; intros E%Ret_inj; subst bs; cbn [hd]; zlia.
Qed.

(** A Python string: code points in [[0, 0x110000)]. *)
Definition py_str (s : list Z) : Prop := Forall (fun c => 0 <= c < 0x110000) s.

Lemma encode_char_bytes c bs :
  0 <= c < 0x110000 -> encode_char c = Ret bs -> Forall is_byte bs.
Proof.
  intros Hc E; rewrite encode_char_arith in E by exact Hc; revert E.
  unfold is_byte; repeat case_bool; cbn [andb]; intros E; try discriminate;
    apply Ret_inj in E; subst bs; repeat constructor; zlia.
Qed.

Lemma encode_utf8_bytes s bs : py_str s -> encode_utf8 s = Ret bs -> Forall is_byte bs.
Proof.
  intros Hs; revert bs; induction Hs as [| c s Hc _ IH]; intros bs E.
  - apply Ret_inj in E; subst bs; constructor.
  - cbn [encode_utf8] in E; inv_bind E; inv_bind E; apply Ret_inj in E; subst bs.
    apply Forall_app; split; [eapply encode_char_bytes; eassumption | apply IH; assumption].
Qed.
