(* ===== verification/Codec.v ===== *)
(** The codec of RSA.py: [text_to_int] (lines 76-77) encodes a string in
    UTF-8 and reads the bytes as a big-endian integer; [int_to_text]
    (lines 79-81) writes an integer on its minimal number of bytes ([or
    1]: one byte for 0) and decodes them as UTF-8.  [int.from_bytes] and
    [int.to_bytes] are builtins, modelled here as [from_bytes] and
    [to_bytes] ([OverflowError] on a negative integer or one that does
    not fit).

    Theorems: the byte-level round trip; the exact result of
    [int_to_text (text_to_int s)] for every string, which is [s] without
    its leading NUL characters (and the one-character string NUL when
    nothing is left); hence the round trip whenever the first character
    is not NUL, and its failure on the empty string. *)

From Stdlib Require Import ZArith Lia List.
From S2P Require Import Prelude Utf8.
Import ListNotations.
Open Scope Z_scope.
Open Scope py_scope.

(** ** Definitions *)

(** [int.from_bytes(bs, 'big')] *)
Definition from_bytes (bs : list Z) : Z := fold_left (fun acc b => acc * 256 + b) bs 0.

(** The [len] low bytes of [i], most significant first. *)
Fixpoint to_bytes_be (len : nat) (i : Z) : list Z :=
  match len with
  | O => []
  | S l => to_bytes_be l (i / 256) ++ [i mod 256]
  end.

(** [i.to_bytes(len, 'big')] *)
Definition to_bytes (i len : Z) : outcome (list Z) :=
  if i <? 0 then Throw OverflowError
  else if 256 ^ len <=? i then Throw OverflowError
  else Ret (to_bytes_be (Z.to_nat len) i).

(** [text_to_int(s)]: [int.from_bytes(s.encode('utf-8'), 'big')] *)
Definition text_to_int (s : list Z) : outcome Z :=
  bs <- encode_utf8 s ;; Ret (from_bytes bs).

(** [int_to_text(i)]: [i.to_bytes((i.bit_length() + 7) // 8 or 1, 'big')]
    decoded strictly as UTF-8. *)
Definition int_to_text (i : Z) : outcome (list Z) :=
  let len := (bit_length i + 7) / 8 in
  bs <- to_bytes i (if len =? 0 then 1 else len) ;;
  decode_utf8 bs.

(** [s] without its leading NUL characters. *)
Fixpoint strip_nul (s : list Z) : list Z :=
  match s with
  | 0 :: s' => strip_nul s'
  | _ => s
  end.

(** ** Bytes and integers *)

Lemma from_bytes_acc bs acc :
  fold_left (fun acc b => acc * 256 + b) bs acc = acc * 256 ^ Z.of_nat (length bs) + from_bytes bs.
Proof.
  unfold from_bytes; revert acc; induction bs as [|b bs IH]; intros acc; cbn [fold_left length];
    [simpl; lia |].
  rewrite IH, (IH (0 * 256 + b)), Nat2Z.inj_succ, Z.pow_succ_r by lia; ring.
Qed.

Lemma from_bytes_cons b bs : from_bytes (b :: bs) = b * 256 ^ Z.of_nat (length bs) + from_bytes bs.
Proof. unfold from_bytes at 1; cbn [fold_left]; apply from_bytes_acc. Qed.

Lemma from_bytes_snoc bs b : from_bytes (bs ++ [b]) = from_bytes bs * 256 + b.
Proof. unfold from_bytes; rewrite fold_left_app; reflexivity. Qed.

Lemma from_bytes_range bs :
  Forall is_byte bs -> 0 <= from_bytes bs < 256 ^ Z.of_nat (length bs).
Proof.
  induction 1 as [| b bs Hb _ IH]; [unfold from_bytes; simpl; lia |].
  rewrite from_bytes_cons; cbn [length]; rewrite Nat2Z.inj_succ, Z.pow_succ_r by lia.
  unfold is_byte in Hb; nia.
Qed.

Lemma from_bytes_lower b bs :
  Forall is_byte bs -> 0 < b -> 256 ^ Z.of_nat (length bs) <= from_bytes (b :: bs).
Proof.
  intros Hbs Hb; rewrite from_bytes_cons; pose proof (from_bytes_range bs Hbs); nia.
Qed.

Lemma to_bytes_be_from_bytes bs : Forall is_byte bs -> to_bytes_be (length bs) (from_bytes bs) = bs.
Proof.
  induction bs as [| bs b IH] using rev_ind; intros Hbs; [reflexivity |].
  apply Forall_app in Hbs as [Hbs Hb]; inversion Hb as [| ? ? Hb' _]; unfold is_byte in Hb'.
  rewrite length_app, Nat.add_1_r, from_bytes_snoc; cbn [to_bytes_be].
  rewrite Z.div_add_l, Z.div_small, Z.add_0_r, IH by (assumption || lia).
  rewrite Z.add_comm, Z.mod_add, Z.mod_small by lia; reflexivity.
Qed.

(** The minimal byte count of a number whose big-endian bytes start with a
    nonzero byte is the number of those bytes. *)
Lemma byte_length_minimal b bs :
  Forall is_byte (b :: bs) -> 0 < b ->
  (bit_length (from_bytes (b :: bs)) + 7) / 8 = Z.of_nat (length (b :: bs)).
Proof.
  intros Hall Hb; inversion Hall as [| ? ? _ Hbs]; subst.
  pose proof (from_bytes_range _ Hall) as Hr; pose proof (from_bytes_lower b bs Hbs Hb) as Hl.
  cbn [length] in *; rewrite Nat2Z.inj_succ in *.
  set (L := Z.of_nat (length bs)) in *; set (m := from_bytes (b :: bs)) in *.
  assert (HL : 0 <= L) by apply Nat2Z.is_nonneg.
  assert (E : forall k, 0 <= k -> 256 ^ k = 2 ^ (8 * k)).
  { intros k Hk; rewrite Z.pow_mul_r by lia; reflexivity. }
  rewrite E in Hl, Hr by lia.
  assert (0 < 2 ^ (8 * L)) by (apply Z.pow_pos_nonneg; lia).
  pose proof (proj1 (Z.log2_le_pow2 m (8 * L) ltac:(lia)) Hl).
  pose proof (proj1 (Z.log2_lt_pow2 m (8 * Z.succ L) ltac:(lia)) (proj2 Hr)).
  unfold bit_length; rewrite Z.abs_eq by lia.
  destruct (Z.eqb_spec m 0); [lia | zlia].
Qed.

(** ** The codec round trip *)

Lemma text_to_int_nul s : text_to_int (0 :: s) = text_to_int s.
Proof.
  unfold text_to_int; cbn [encode_utf8]; rewrite encode_char_ascii by lia; cbn [obind].
  destruct (encode_utf8 s) as [bs| |]; cbn [obind app]; [| reflexivity | reflexivity].
  rewrite from_bytes_cons; f_equal; ring.
Qed.

Lemma text_to_int_strip s : text_to_int s = text_to_int (strip_nul s).
Proof.
  induction s as [|c s IH]; [reflexivity |].
  destruct c as [| p | p]; [rewrite text_to_int_nul; exact IH | reflexivity | reflexivity].
Qed.

Lemma strip_nul_Forall (P : Z -> Prop) s : Forall P s -> Forall P (strip_nul s).
Proof.
  induction 1 as [| c s Hc Hs IH]; [constructor |].
  destruct c as [| p | p]; [exact IH | constructor; auto | constructor; auto].
Qed.

Lemma strip_nul_head s c s' : strip_nul s = c :: s' -> c <> 0.
Proof.
  induction s as [| c0 s IH]; [discriminate |].
  destruct c0 as [| p | p]; [exact IH | intros E; injection E as <- _; discriminate
                                    | intros E; injection E as <- _; discriminate].
Qed.

Lemma strip_nul_length s : (length (strip_nul s) <= length s)%nat.
Proof. induction s as [| [| c | c] s IH]; cbn [strip_nul length]; lia. Qed.

Lemma int_to_text_bytes b bs :
  Forall is_byte (b :: bs) -> 0 < b ->
  int_to_text (from_bytes (b :: bs)) = decode_utf8 (b :: bs).
Proof.
  intros Hall Hb; unfold int_to_text; rewrite byte_length_minimal by assumption.
  pose proof (from_bytes_range _ Hall) as Hr.
  destruct (Z.eqb_spec (Z.of_nat (length (b :: bs))) 0) as [E | _]; [simpl in E; lia |].
  unfold to_bytes; destruct (Z.ltb_spec (from_bytes (b :: bs)) 0); [lia |].
  destruct (Z.leb_spec (256 ^ Z.of_nat (length (b :: bs))) (from_bytes (b :: bs))); [lia |].
  rewrite Nat2Z.id, to_bytes_be_from_bytes by exact Hall; reflexivity.
Qed.

(** The round trip on a string whose first character is not NUL. *)
Lemma codec_roundtrip_nonnul c s :
  Forall scalar (c :: s) -> c <> 0 ->
  exists m, text_to_int (c :: s) = Ret m /\ int_to_text m = Ret (c :: s).
Proof.
  intros Hs Hc.
  destruct (utf8_roundtrip _ Hs) as (bs & E & Hb & D).
  exists (from_bytes bs); unfold text_to_int; rewrite E; split; [reflexivity |].
  cbn [encode_utf8] in E; inv_bind E; rename a into bc; inv_bind E; apply Ret_inj in E; subst bs.
  inversion Hs as [| ? ? [Hcr _] _]; subst.
  pose proof (encode_char_head c bc ltac:(lia) Hm) as Hh.
  destruct bc as [| b0 bc]; [contradiction |]; cbn [hd] in Hh.
  cbn [app] in Hb |- *; inversion Hb as [| ? ? Hb0 _]; unfold is_byte in Hb0.
  rewrite int_to_text_bytes by (assumption || lia); exact D.
Qed.

(** For every string of scalar values, [int_to_text (text_to_int s)]
    is [s] without its leading NUL characters, or the string holding
    one NUL when nothing is left: the integer form forgets leading zero
    bytes, and [int_to_text 0] writes one zero byte. *)
Lemma text_int_text s :
  Forall scalar s ->
  exists m, text_to_int s = Ret m /\
    int_to_text m = Ret (match strip_nul s with [] => [0] | s' => s' end).
Proof.
  intros Hs; rewrite text_to_int_strip.
  pose proof (strip_nul_Forall _ _ Hs) as Hs'.
  destruct (strip_nul s) as [| c s'] eqn:E.
  - exists 0; split; reflexivity.
  - apply codec_roundtrip_nonnul; [exact Hs' | exact (strip_nul_head s c s' E)].
Qed.

Lemma from_bytes_nonneg bs : Forall is_byte bs -> 0 <= from_bytes bs.
Proof. intros H; apply (from_bytes_range bs H). Qed.

Lemma text_to_int_nonneg s m : py_str s -> text_to_int s = Ret m -> 0 <= m.
Proof.
  unfold text_to_int; intros Hs E; inv_bind E; apply Ret_inj in E; subst m.
  eapply from_bytes_nonneg, encode_utf8_bytes; eassumption.
Qed.

(** C12: the codec round trip of spec section 8 holds exactly on the
    strings whose first character is not NUL: there
    [int_to_text (text_to_int s) = s]; a string of two or more
    characters that starts with NUL comes back without its leading NULs,
    and the empty string comes back as the one-character string NUL,
    not as itself. *)
Theorem codec_roundtrip s :
  Forall scalar s ->
  (hd 0 s <> 0 -> exists m, text_to_int s = Ret m /\ int_to_text m = Ret s) /\
  (s = [] -> text_to_int s = Ret 0 /\ int_to_text 0 = Ret [0]) /\
  (forall s', s = 0 :: s' -> s' <> [] -> exists m, text_to_int s = Ret m /\ int_to_text m <> Ret s).
Proof.
  intros Hs; destruct (text_int_text s Hs) as (m & Hm & Ht).
  split; [| split].
  - intros Hh; exists m; split; [exact Hm |]; rewrite Ht.
    destruct s as [| c s]; [cbn in Hh; congruence |]; cbn in Hh.
    destruct c as [| c | c]; [congruence | reflexivity | reflexivity].
  - intros ->; split; reflexivity.
  - intros s' -> Hne; exists m; split; [exact Hm |]; rewrite Ht.
    destruct (strip_nul s') as [| c s''] eqn:E; cbn [strip_nul]; rewrite E.
    + intros F; apply Ret_inj in F; injection F as F; congruence.
    + intros F; apply Ret_inj in F; pose proof (strip_nul_length s') as Hl; rewrite E, F in Hl.
      cbn in Hl; lia.
Qed.

Lemma codec_roundtrip_witness :
  (exists m, text_to_int [72; 105] = Ret m /\ int_to_text m = Ret [72; 105]) /\
  (text_to_int [] = Ret 0 /\ int_to_text 0 = Ret [0]) /\
  (exists m, text_to_int [0; 72] = Ret m /\ int_to_text m <> Ret [0; 72]).
Proof.
  assert (Hs : forall s, Forall (fun c => 0 <= c < 128) s -> Forall scalar s).
  { intros s; apply Forall_impl; intros c Hc; split; lia. }
  split; [| split].
  - apply (codec_roundtrip [72; 105]); [apply Hs; repeat constructor; lia | discriminate].
  - apply (codec_roundtrip []); [constructor | reflexivity].
  - apply (codec_roundtrip [0; 72]) with (s' := [72]); [apply Hs; repeat constructor; lia | reflexivity | discriminate].
Defined.
