(* ===== verification/Crypto.v ===== *)
(** The RSA operations of RSA.py: [encrypt_text_plainstore] (lines
    83-89), [decrypt_cipher_to_text] (lines 91-95), [sign_text] (lines
    97-103) and [verify_text] (lines 105-111), over the key records of
    [KeyGen] and the codec of [Codec].

    Theorems: the exponent identity of RSA ([(m^e)^d = m] modulo [p q]
    for distinct primes, by Fermat's little theorem on each prime and
    the Chinese remainder argument); decryption inverts encryption (up
    to the codec's loss of leading NULs); signatures verify, a signature
    of another message does not; the [MessageTooLarge] boundary; and
    [verify_text] raising on a string it cannot encode, where the spec
    says it never fails. *)

From Stdlib Require Import ZArith Lia List Znumtheory.
From Stdlib Require Zmod.ZmodInv.
From S2P Require Import Prelude ModArith PyPow Primality KeyGen Utf8 Codec.
Import ListNotations.
Open Scope Z_scope.
Open Scope py_scope.
Open Scope bool_scope.

(** ** Operations *)

(** [encrypt_text_plainstore(message, pubkey)] *)
Definition encrypt_text_plainstore (message : list Z) (pubkey : PublicKey) : outcome Z :=
  let n := pub_n pubkey in
  let e := pub_e pubkey in
  m <- text_to_int message ;;
  if n <=? m then Throw ValueError_too_long else py_pow m e n.

(** [decrypt_cipher_to_text(cipher_int, privkey)] *)
Definition decrypt_cipher_to_text (cipher_int : Z) (privkey : PrivateKey) : outcome (list Z) :=
  m <- py_pow cipher_int (priv_d privkey) (priv_n privkey) ;;
  int_to_text m.

(** [sign_text(message, privkey)] *)
Definition sign_text (message : list Z) (privkey : PrivateKey) : outcome Z :=
  let n := priv_n privkey in
  let d := priv_d privkey in
  m <- text_to_int message ;;
  if n <=? m then Throw ValueError_too_long else py_pow m d n.

(** [verify_text(message, signature_int, pubkey)] *)
Definition verify_text (message : list Z) (signature_int : Z) (pubkey : PublicKey) : outcome bool :=
  let n := pub_n pubkey in
  let e := pub_e pubkey in
  if negb ((0 <=? signature_int) && (signature_int <? n)) then Ret false
  else
    m <- text_to_int message ;;
    v <- py_pow signature_int e n ;;
    Ret (v =? m).

(** ** The RSA exponent identity *)

Lemma fermat_iter p a k :
  Z.prime p -> 0 <= k -> a ^ (1 + k * (p - 1)) mod p = a mod p.
Proof.
  intros Hp Hk; pose proof (Z.prime_ge_2 p Hp).
  revert k Hk; apply natlike_ind; [now rewrite Z.add_0_r, Z.pow_1_r | intros k Hk IH].
  replace (1 + Z.succ k * (p - 1)) with ((1 + k * (p - 1)) + (p - 1)) by lia.
  rewrite Z.pow_add_r by nia.
  rewrite Z.mul_mod, IH, <- Z.mul_mod by lia.
  rewrite <- Z.pow_succ_r by lia; replace (Z.succ (p - 1)) with p by lia.
  apply ZmodInv.Z.fermat, Hp.
Qed.

Lemma distinct_primes_coprime p q : Z.prime p -> Z.prime q -> p <> q -> Z.coprime p q.
Proof.
  intros Hp Hq Hne; apply Z.coprime_prime_l; [exact Hp |]; intros Hd.
  pose proof (Z.prime_ge_2 p Hp); pose proof (Z.prime_ge_2 q Hq).
  pose proof (Z.divide_pos_le p q ltac:(lia) Hd).
  apply (proj2 Hq p); [lia | exact Hd].
Qed.

Lemma crt_divide p q x : Z.coprime p q -> (p | x) -> (q | x) -> (p * q | x).
Proof.
  intros Hc [k ->] Hq.
  rewrite Z.mul_comm in Hq; apply Z.gauss in Hq; [| unfold Z.coprime in Hc; rewrite Z.gcd_comm; exact Hc].
  destruct Hq as [j ->]; exists j; ring.
Qed.

Lemma mod_eq_divide a b n : n <> 0 -> a mod n = b mod n -> (n | a - b).
Proof.
  intros Hn E; exists (a / n - b / n).
  pose proof (Z.div_mod a n Hn); pose proof (Z.div_mod b n Hn); nia.
Qed.

(** [m ^ (e d) = m (mod p q)] when [e d = 1 (mod (p-1)(q-1))]. *)
Lemma rsa_exponent p q e d m :
  Z.prime p -> Z.prime q -> p <> q -> 0 <= e -> 0 <= d ->
  (e * d) mod ((p - 1) * (q - 1)) = 1 -> 0 <= m < p * q ->
  (m ^ e mod (p * q)) ^ d mod (p * q) = m.
Proof.
  intros Hp Hq Hne He Hd Hed Hm.
  pose proof (Z.prime_ge_2 p Hp); pose proof (Z.prime_ge_2 q Hq).
  rewrite Z.mod_pow_l, <- Z.pow_mul_r by lia.
  set (t := (e * d) / ((p - 1) * (q - 1))).
  assert (Ht : 0 <= t) by (apply Z.div_pos; nia).
  assert (Eed : e * d = 1 + t * (p - 1) * (q - 1)).
  { pose proof (Z.div_mod (e * d) ((p - 1) * (q - 1)) ltac:(nia)); unfold t; lia. }
  apply Zdivide_mod_minus; [exact Hm |].
  apply crt_divide; [apply distinct_primes_coprime; assumption | |]; apply mod_eq_divide; try lia.
  - replace (e * d) with (1 + (t * (q - 1)) * (p - 1)) by lia.
    apply fermat_iter; [exact Hp | nia].
  - replace (e * d) with (1 + (t * (p - 1)) * (q - 1)) by lia.
    apply fermat_iter; [exact Hq | nia].
Qed.

(** ** The [MessageTooLarge] boundary *)

(** Encryption of a message whose integer is below [n]. *)
Lemma encrypt_small msg pub m :
  0 <= pub_e pub -> py_str msg -> text_to_int msg = Ret m -> m < pub_n pub ->
  encrypt_text_plainstore msg pub = Ret (m ^ pub_e pub mod pub_n pub).
Proof.
  intros He Hs Hm Hlt; pose proof (text_to_int_nonneg msg m Hs Hm).
  unfold encrypt_text_plainstore; rewrite Hm; cbn [obind].
  destruct (Z.leb_spec (pub_n pub) m); [lia | apply py_pow_spec; lia].
Qed.

(** Signing a message whose integer is below [n]. *)
Lemma sign_small msg priv m :
  0 <= priv_d priv -> py_str msg -> text_to_int msg = Ret m -> m < priv_n priv ->
  sign_text msg priv = Ret (m ^ priv_d priv mod priv_n priv).
Proof.
  intros Hd Hs Hm Hlt; pose proof (text_to_int_nonneg msg m Hs Hm).
  unfold sign_text; rewrite Hm; cbn [obind].
  destruct (Z.leb_spec (priv_n priv) m); [lia | apply py_pow_spec; lia].
Qed.

(** C8: for a public key with a nonnegative exponent,
    [encrypt_text_plainstore] succeeds exactly on the messages whose
    integer is below [n], with the ciphertext [m ^ e mod n] in [[0, n)],
    and raises [ValueError] from [n] on: an integer [n - 1] passes, [n]
    does not. *)
Theorem encrypt_boundary msg pub m :
  0 <= pub_e pub -> py_str msg -> text_to_int msg = Ret m ->
  (m < pub_n pub -> encrypt_text_plainstore msg pub = Ret (m ^ pub_e pub mod pub_n pub) /\
                    0 <= m ^ pub_e pub mod pub_n pub < pub_n pub) /\
  (pub_n pub <= m -> encrypt_text_plainstore msg pub = Throw ValueError_too_long).
Proof.
  intros He Hs Hm; pose proof (text_to_int_nonneg msg m Hs Hm).
  unfold encrypt_text_plainstore; rewrite Hm; cbn [obind].
  split; intros Hlt; destruct (Z.leb_spec (pub_n pub) m); try lia; [| reflexivity].
  apply py_pow_pos; lia.
Qed.

(** ** Correctness under a valid key pair *)

Section ValidKeys.
Variables (bits : Z) (pub : PublicKey) (priv : PrivateKey).
Hypothesis Hvalid : valid_keypair bits pub priv.
Hypothesis Hp : Z.prime (priv_p priv).
Hypothesis Hq : Z.prime (priv_q priv).

(** The exponent identity in both orders, for the key pair's [e], [d]
    and [n]. *)
Lemma key_exponent_ed m :
  0 <= m < pub_n pub -> (m ^ pub_e pub mod pub_n pub) ^ priv_d priv mod priv_n priv = m.
Proof.
  destruct Hvalid as (Hn & Hn' & Hne & _ & _ & _ & _ & He & _ & Hd & Hed); intros Hm.
  rewrite Hn, Hn' in *; apply rsa_exponent; auto; lia.
Qed.

Lemma key_exponent_de m :
  0 <= m < priv_n priv -> (m ^ priv_d priv mod priv_n priv) ^ pub_e pub mod pub_n pub = m.
Proof.
  destruct Hvalid as (Hn & Hn' & Hne & _ & _ & _ & _ & He & _ & Hd & Hed); intros Hm.
  rewrite Hn, Hn' in *; apply rsa_exponent; auto; try lia; rewrite Z.mul_comm; exact Hed.
Qed.

Lemma key_modulus_pos : 0 < pub_n pub /\ pub_n pub = priv_n priv.
Proof.
  destruct Hvalid as (Hn & Hn' & _); pose proof (Z.prime_ge_2 _ Hp); pose proof (Z.prime_ge_2 _ Hq).
  split; [rewrite Hn; nia | congruence].
Qed.

(** Decryption inverts encryption: a ciphertext that
    [encrypt_text_plainstore] returns for a string of scalar values
    decrypts to that string without its leading NULs (to the string NUL
    when nothing is left); so to the message itself when its first
    character is not NUL. *)
Lemma decrypt_encrypt_text msg c :
  Forall scalar msg -> encrypt_text_plainstore msg pub = Ret c ->
  decrypt_cipher_to_text c priv = Ret (match strip_nul msg with [] => [0] | s => s end).
Proof.
  intros Hs Hc; destruct (text_int_text msg Hs) as (m & Hm & Ht).
  assert (Hpy : py_str msg) by (eapply Forall_impl; [| exact Hs]; intros x [Hx _]; exact Hx).
  pose proof (text_to_int_nonneg msg m Hpy Hm).
  destruct key_modulus_pos as [Hn Hnn].
  unfold encrypt_text_plainstore in Hc; rewrite Hm in Hc; cbn [obind] in Hc.
  destruct (Z.leb_spec (pub_n pub) m); [discriminate |].
  destruct Hvalid as (_ & _ & _ & _ & _ & _ & _ & He & _ & Hd & _).
  rewrite py_pow_spec in Hc by lia; apply Ret_inj in Hc; subst c.
  unfold decrypt_cipher_to_text; rewrite py_pow_spec by lia; cbn [obind].
  rewrite key_exponent_ed by lia; exact Ht.
Qed.

(** C1: decryption inverts encryption: a ciphertext that
    [encrypt_text_plainstore] returns for a string of scalar values
    decrypts to that string without its leading NULs (to the string NUL
    when nothing is left); so to the message itself when its first
    character is not NUL. *)
Theorem decrypt_encrypt msg c :
  Forall scalar msg -> encrypt_text_plainstore msg pub = Ret c ->
  decrypt_cipher_to_text c priv = Ret (match strip_nul msg with [] => [0] | s => s end).
Proof. exact (decrypt_encrypt_text msg c). Qed.

(** A signature made by [sign_text] verifies with the public key. *)
Lemma verify_signed_text msg sg :
  py_str msg -> sign_text msg priv = Ret sg -> verify_text msg sg pub = Ret true.
Proof.
  intros Hs Hsg; unfold sign_text in Hsg; inv_bind Hsg; rename a into m.
  pose proof (text_to_int_nonneg msg m Hs Hm).
  destruct key_modulus_pos as [Hn Hnn].
  destruct (Z.leb_spec (priv_n priv) m); [discriminate |].
  destruct Hvalid as (_ & _ & _ & _ & _ & _ & _ & He & _ & Hd & _).
  rewrite py_pow_spec in Hsg by lia; apply Ret_inj in Hsg; subst sg.
  pose proof (Z.mod_pos_bound (m ^ priv_d priv) (priv_n priv) ltac:(lia)).
  unfold verify_text; rewrite <- Hnn in *.
  destruct (Z.leb_spec 0 (m ^ priv_d priv mod pub_n pub)); [| lia].
  destruct (Z.ltb_spec (m ^ priv_d priv mod pub_n pub) (pub_n pub)); [| lia]; cbn [negb andb].
  rewrite Hm; cbn [obind]; rewrite py_pow_spec by lia; cbn [obind].
  rewrite Hnn at 1; rewrite key_exponent_de by lia; rewrite Z.eqb_refl; reflexivity.
Qed.

(** C2: a signature made by [sign_text] verifies with the public key. *)
Theorem verify_sign msg sg :
  py_str msg -> sign_text msg priv = Ret sg -> verify_text msg sg pub = Ret true.
Proof. exact (verify_signed_text msg sg). Qed.

(** C7: a signature of another message is rejected: when the two
    messages encode to different integers, [verify_text] returns
    [False] on the signature of the other one. *)
Theorem verify_tampered msg msg' sg m m' :
  py_str msg' -> sign_text msg' priv = Ret sg ->
  text_to_int msg = Ret m -> text_to_int msg' = Ret m' -> m <> m' ->
  verify_text msg sg pub = Ret false.
Proof.
  intros Hs' Hsg Hm Hm' Hne; unfold sign_text in Hsg; rewrite Hm' in Hsg; cbn [obind] in Hsg.
  pose proof (text_to_int_nonneg msg' m' Hs' Hm').
  destruct key_modulus_pos as [Hn Hnn].
  destruct (Z.leb_spec (priv_n priv) m'); [discriminate |].
  destruct Hvalid as (_ & _ & _ & _ & _ & _ & _ & He & _ & Hd & _).
  rewrite py_pow_spec in Hsg by lia; apply Ret_inj in Hsg; subst sg.
  pose proof (Z.mod_pos_bound (m' ^ priv_d priv) (priv_n priv) ltac:(lia)).
  unfold verify_text; rewrite <- Hnn in *.
  destruct (Z.leb_spec 0 (m' ^ priv_d priv mod pub_n pub)); [| lia].
  destruct (Z.ltb_spec (m' ^ priv_d priv mod pub_n pub) (pub_n pub)); [| lia]; cbn [negb andb].
  rewrite Hm; cbn [obind]; rewrite py_pow_spec by lia; cbn [obind].
  rewrite Hnn at 1; rewrite key_exponent_de by lia.
  destruct (Z.eqb_spec m' m); [congruence | reflexivity].
Qed.
End ValidKeys.

(** ** Error paths of [verify_text] *)

(** C13: [verify_text] fails closed on a signature outside [[0, n)]
    without looking at the message, but on a signature in range it
    encodes the message first, and raises [UnicodeEncodeError] when the
    message holds a lone surrogate: it can raise, where the spec says it
    never fails. *)
Theorem verify_text_errors msg sg pub :
  (sg < 0 \/ pub_n pub <= sg -> verify_text msg sg pub = Ret false) /\
  (0 <= sg < pub_n pub -> Exists (fun c => 0xD800 <= c <= 0xDFFF) msg ->
   verify_text msg sg pub = Throw UnicodeEncodeError).
Proof.
  unfold verify_text; split; intros Hsg.
  - destruct (Z.leb_spec 0 sg), (Z.ltb_spec sg (pub_n pub)); try reflexivity; lia.
  - intros Hx; destruct (Z.leb_spec 0 sg), (Z.ltb_spec sg (pub_n pub)); try lia; cbn [negb andb].
    unfold text_to_int; rewrite encode_utf8_surrogate by exact Hx; reflexivity.
Qed.

(** ** Concrete runs

    The 20-bit key pair that [generate_keypair] builds from a scripted
    source (see [KeyGen]), and the message "HELLO". *)

Definition pub20 : PublicKey := {| pub_n := 481063469371; pub_e := 13 |}.
Definition priv20 : PrivateKey :=
  {| priv_n := 481063469371; priv_d := 407052484845; priv_p := 917519; priv_q := 524309 |}.
Definition hello : list Z := [72; 69; 76; 76; 79].

Lemma key20_valid : valid_keypair 20 pub20 priv20.
Proof. repeat split; vm_compute; congruence. Qed.

Lemma key20_p_prime : Z.prime (priv_p priv20).
Proof. apply prime_by_check; [vm_compute; reflexivity | vm_compute; reflexivity]. Qed.

Lemma key20_q_prime : Z.prime (priv_q priv20).
Proof. apply prime_by_check; [vm_compute; reflexivity | vm_compute; reflexivity]. Qed.

Lemma hello_scalar : Forall scalar hello.
Proof. repeat constructor; lia. Qed.

Lemma hello_py_str : py_str hello.
Proof. repeat constructor; lia. Qed.

Lemma encrypt_boundary_witness :
  encrypt_text_plainstore hello pub20 = Ret 437245405880 /\
  encrypt_text_plainstore [0x10FFFF; 0x10FFFF; 0x10FFFF] pub20 = Throw ValueError_too_long.
Proof.
  split.
  - apply (encrypt_boundary hello pub20 310400273487);
      [vm_compute; congruence | exact hello_py_str | reflexivity | vm_compute; reflexivity].
  - apply (encrypt_boundary _ pub20 (from_bytes [244; 143; 191; 191; 244; 143; 191; 191; 244; 143; 191; 191]));
      [vm_compute; congruence | repeat constructor; lia | reflexivity | vm_compute; congruence].
Defined.

Lemma decrypt_encrypt_witness : decrypt_cipher_to_text 437245405880 priv20 = Ret hello.
Proof.
  exact (decrypt_encrypt 20 pub20 priv20 key20_valid key20_p_prime key20_q_prime hello 437245405880
           hello_scalar ltac:(vm_compute; reflexivity)).
Defined.

Lemma verify_sign_witness : verify_text hello 369702506108 pub20 = Ret true.
Proof.
  exact (verify_sign 20 pub20 priv20 key20_valid key20_p_prime key20_q_prime hello 369702506108
           hello_py_str ltac:(vm_compute; reflexivity)).
Defined.

Lemma verify_tampered_witness : verify_text [72; 69; 76; 76; 80] 369702506108 pub20 = Ret false.
Proof.
  exact (verify_tampered 20 pub20 priv20 key20_valid key20_p_prime key20_q_prime
           [72; 69; 76; 76; 80] hello 369702506108 310400273488 310400273487
           hello_py_str ltac:(vm_compute; reflexivity) ltac:(reflexivity) ltac:(reflexivity)
           ltac:(discriminate)).
Defined.

Lemma verify_text_errors_witness :
  verify_text hello (-1) pub20 = Ret false /\
  verify_text [72; 0xD800] 5 pub20 = Throw UnicodeEncodeError.
Proof.
  split.
  - apply (proj1 (verify_text_errors hello (-1) pub20)); left; lia.
  - apply (proj2 (verify_text_errors [72; 0xD800] 5 pub20));
      [vm_compute; split; congruence | right; left; lia].
Defined.
