(* ===== verification/App.v ===== *)
(** The interactive application of RSA.py (lines 114-262): the module
    initialisation that generates the first key pair and creates the
    stores [MESSAGES] and [SIGNATURES], the three menu loops
    [main_menu], [public_user_menu] and [owner_menu], and [main], which
    catches [KeyboardInterrupt].

    The globals of the module are the fields of [AppState], with the
    random source, the lines still to be read from standard input, how
    the input ends after them (end of file or Ctrl-C at the next
    prompt, [input_end]) and the lines printed so far.  A computation of the application is an
    [app]: it runs on the state and ends with a value ([Done]), a call of
    [sys.exit] ([Exit]), an exception no [try] catches ([Raise]), or out
    of fuel ([Stuck]); the state it leaves is kept in every case, so
    that what was printed before a crash can be stated.  Each [while
    True] loop is a [Fixpoint] on a fuel argument; every iteration reads
    a line, so fuel one more than the number of lines is enough.

    What the program prints is a list of [event]s, one per [print] call,
    carrying the data printed (the hexadecimal rendering of keys and
    the prompts of [input] are not modelled).  [str.isdigit], [int] on a
    string of digits and [str.upper] read Python's Unicode tables; they
    are the interface [StrBuiltins], with the laws [StrBuiltinsOk] that
    the theorems use, and [latin1_builtins] gives them on Latin-1.

    Theorems: a menu keeps every preorder on states that its primitive
    steps keep ([main_menu_rel]); from it, the frame of the public user,
    the key invariant, the growth of the output and the fuel bound.
    One-iteration lemmas of each menu give the end-to-end sessions
    [send_then_decrypt] and [sign_then_authenticate]; the selection code
    reads a typed numeral back ([read_selection_roundtrip]) and crashes
    on a digit [int] cannot read ([selection_crash]); at the end of the
    input [main] exits on Ctrl-C but lets [EOFError] escape
    ([main_input_end]). *)

From Stdlib Require Import ZArith Lia List RelationClasses.
From S2P Require Import Prelude Random PyPow KeyGen Utf8 Codec Crypto.
Import ListNotations.
Open Scope Z_scope.
Open Scope bool_scope.

(** ** String builtins *)

Class StrBuiltins := {
  str_isdigit_char : Z -> bool;    (* c.isdigit() for a one-character string *)
  str_decimal : Z -> option Z;     (* the value int() gives the digit c, if any *)
  str_upper : list Z -> list Z     (* s.upper() *)
}.

Class StrBuiltinsOk `{StrBuiltins} := {
  ascii_digit : forall c, 48 <= c <= 57 -> str_isdigit_char c = true /\ str_decimal c = Some (c - 48);
  decimal_isdigit : forall c v, str_decimal c = Some v -> str_isdigit_char c = true /\ 0 <= v <= 9
}.

(** [str.isspace] on one character: the characters of bidirectional
    class WS, B or S and of category Zs. *)
Definition py_isspace (c : Z) : bool :=
  ((9 <=? c) && (c <=? 13)) || ((28 <=? c) && (c <=? 32)) || (c =? 0x85) || (c =? 0xA0) ||
  (c =? 0x1680) || ((0x2000 <=? c) && (c <=? 0x200A)) || (c =? 0x2028) || (c =? 0x2029) ||
  (c =? 0x202F) || (c =? 0x205F) || (c =? 0x3000).

(** [s] without its leading whitespace. *)
Fixpoint lstrip (s : list Z) : list Z :=
  match s with [] => [] | c :: s' => if py_isspace c then lstrip s' else s end.

(** [s.strip()] *)
Definition py_strip (s : list Z) : list Z := rev (lstrip (rev (lstrip s))).

Section Strings.
Context `{StrBuiltins}.

(** [s.isdigit()]: nonempty and every character a digit. *)
Definition py_isdigit (s : list Z) : bool :=
  match s with [] => false | _ => forallb str_isdigit_char s end.

(** [int(s)] on a string that passed [isdigit]: the decimal value of its
    digits, and [ValueError] on a digit [int] does not read. *)
Definition int_of_digits (s : list Z) : outcome Z :=
  fold_left (fun acc c => obind acc (fun v =>
    match str_decimal c with Some d => Ret (v * 10 + d) | None => Throw ValueError_int end))
    s (Ret 0).
End Strings.

(** [str.isdigit], [int] and [str.upper] on Latin-1: the digits [0-9]
    and the superscripts two, three and one (which [isdigit] accepts and
    [int] rejects); the case mapping of Latin-1, where [ß] becomes [SS],
    [µ] the Greek capital mu and [ÿ] the capital [Ÿ]. *)
#[export] Instance latin1_builtins : StrBuiltins := {
  str_isdigit_char c := ((48 <=? c) && (c <=? 57)) || (c =? 0xB2) || (c =? 0xB3) || (c =? 0xB9);
  str_decimal c := if (48 <=? c) && (c <=? 57) then Some (c - 48) else None;
  str_upper s := flat_map (fun c =>
    if (97 <=? c) && (c <=? 122) then [c - 32]
    else if c =? 0xB5 then [0x39C]
    else if c =? 0xDF then [83; 83]
    else if (0xE0 <=? c) && (c <=? 0xFE) && negb (c =? 0xF7) then [c - 32]
    else if c =? 0xFF then [0x178]
    else [c]) s
}.

#[export] Instance latin1_builtins_ok : StrBuiltinsOk.
Proof.
  split; intros c.
  - intros Hc; cbn; destruct (Z.leb_spec 48 c), (Z.leb_spec c 57); try lia; split; reflexivity.
  - intros v; cbn; destruct (Z.leb_spec 48 c), (Z.leb_spec c 57); cbn; intros E;
      try discriminate; injection E as <-; split; [reflexivity | lia].
Qed.

(** ** What the program prints *)

Inductive event : Type :=
| Ev_keys_generated                  (* "RSA keys have been generated." *)
| Ev_main_menu                       (* the main menu *)
| Ev_public_menu                     (* the public user's menu *)
| Ev_owner_menu                      (* the owner's menu *)
| Ev_bye                             (* "Bye for now!" *)
| Ev_try_again                       (* "Invalid choice. Try again." *)
| Ev_invalid_choice                  (* "Invalid choice." *)
| Ev_sent                            (* "Message encrypted and sent." *)
| Ev_encrypt_error (e : exn)         (* "Error encrypting message:", e *)
| Ev_no_signatures                   (* "There are no signature to authenticate." *)
| Ev_available                       (* "The following messages are available:" *)
| Ev_signature_item (i : Z) (m : list Z)   (* f"{idx}. {mtext}" *)
| Ev_signature_valid                 (* "Signature is valid." *)
| Ev_signature_not_valid             (* "Signature is NOT valid." *)
| Ev_no_messages                     (* "There are no messages to decrypt." *)
| Ev_message_item (i len : Z)        (* f"{i}. (length = {length})" *)
| Ev_decrypted (m : list Z)          (* "Decrypted message:", decrypted_text.upper() *)
| Ev_decrypt_error (e : exn)         (* "Error decrypting message:", e *)
| Ev_signed                          (* "Message signed and sent." *)
| Ev_sign_error (e : exn)            (* "Error signing message:", e *)
| Ev_show_keys (n e d : Z)           (* the keys in hexadecimal *)
| Ev_new_keys                        (* "New RSA keys have been generated." *)
| Ev_interrupted.                    (* "\nInterrupted. Exiting." *)

(** How standard input ends after its lines: at the end of the file
    (Ctrl-D, a closed pipe), or with Ctrl-C at the prompt that would
    read the next line. *)
Inductive input_end : Type := At_EOF | At_interrupt.

(** ** The application state and its monad *)

(** How a computation of the application ends. *)
Inductive res (A : Type) : Type :=
| Done (a : A)
| Exit (code : Z)
| Raise (e : exn)
| Stuck.
Arguments Done {A} a.
Arguments Exit {A} code.
Arguments Raise {A} e.
Arguments Stuck {A}.

Section App.
Context {R : Type} `{RandomSource R} `{StrBuiltins}.

(** The module's globals, the random source and the standard streams. *)
Record AppState := {
  PUBLIC_KEY : PublicKey;
  PRIVATE_KEY : PrivateKey;
  MESSAGES : list Z;
  SIGNATURES : list (list Z * Z);
  rng : R;
  stdin : list (list Z);
  stdin_end : input_end;
  stdout : list event
}.

Definition set_keys (pub : PublicKey) (priv : PrivateKey) (r : R) (st : AppState) : AppState :=
  {| PUBLIC_KEY := pub; PRIVATE_KEY := priv; MESSAGES := MESSAGES st;
     SIGNATURES := SIGNATURES st; rng := r; stdin := stdin st; stdin_end := stdin_end st;
     stdout := stdout st |}.
Definition set_messages (ms : list Z) (st : AppState) : AppState :=
  {| PUBLIC_KEY := PUBLIC_KEY st; PRIVATE_KEY := PRIVATE_KEY st; MESSAGES := ms;
     SIGNATURES := SIGNATURES st; rng := rng st; stdin := stdin st; stdin_end := stdin_end st;
     stdout := stdout st |}.
Definition set_signatures (ss : list (list Z * Z)) (st : AppState) : AppState :=
  {| PUBLIC_KEY := PUBLIC_KEY st; PRIVATE_KEY := PRIVATE_KEY st; MESSAGES := MESSAGES st;
     SIGNATURES := ss; rng := rng st; stdin := stdin st; stdin_end := stdin_end st;
     stdout := stdout st |}.
Definition set_stdin (ls : list (list Z)) (st : AppState) : AppState :=
  {| PUBLIC_KEY := PUBLIC_KEY st; PRIVATE_KEY := PRIVATE_KEY st; MESSAGES := MESSAGES st;
     SIGNATURES := SIGNATURES st; rng := rng st; stdin := ls; stdin_end := stdin_end st;
     stdout := stdout st |}.
Definition set_stdout (out : list event) (st : AppState) : AppState :=
  {| PUBLIC_KEY := PUBLIC_KEY st; PRIVATE_KEY := PRIVATE_KEY st; MESSAGES := MESSAGES st;
     SIGNATURES := SIGNATURES st; rng := rng st; stdin := stdin st; stdin_end := stdin_end st;
     stdout := out |}.

Definition app (A : Type) : Type := AppState -> res A * AppState.

Definition app_ret {A} (a : A) : app A := fun st => (Done a, st).

Definition app_bind {A B} (m : app A) (k : A -> app B) : app B :=
  fun st => match m st with
            | (Done a, st') => k a st'
            | (Exit c, st') => (Exit c, st')
            | (Raise e, st') => (Raise e, st')
            | (Stuck, st') => (Stuck, st')
            end.

(** A call that cannot change the globals, its exception uncaught. *)
Definition lift {A} (o : outcome A) : app A :=
  fun st => match o with
            | Ret a => (Done a, st)
            | Throw e => (Raise e, st)
            | OutOfFuel => (Stuck, st)
            end.

(** [try: ... except Exception as e: ...] around a call that cannot
    change the globals; what such calls raise is an [Exception]. *)
Definition try_except {A B} (o : outcome A) (k : A -> app B) (h : exn -> app B) : app B :=
  fun st => match o with
            | Ret a => k a st
            | Throw e => h e st
            | OutOfFuel => (Stuck, st)
            end.

Definition get : app AppState := fun st => (Done st, st).
Definition modify (f : AppState -> AppState) : app unit := fun st => (Done tt, f st).

(** [print(...)] *)
Definition print (ev : event) : app unit := modify (fun st => set_stdout (stdout st ++ [ev]) st).

(** [input()]: the next line; when none is left, [EOFError] at the
    end of the file and [KeyboardInterrupt] on Ctrl-C. *)
Definition input : app (list Z) :=
  fun st => match stdin st with
            | [] => (Raise (match stdin_end st with At_EOF => EOFError | At_interrupt => KeyboardInterrupt end), st)
            | l :: ls => (Done l, set_stdin ls st)
            end.

(** [try: m except KeyboardInterrupt: h] *)
Definition catch_interrupt {A} (m : app A) (h : app A) : app A :=
  fun st => match m st with
            | (Raise KeyboardInterrupt, st') => h st'
            | r => r
            end.

(** [sys.exit(code)] *)
Definition sys_exit {A} (code : Z) : app A := fun st => (Exit code, st).

End App.

Declare Scope app_scope.
Delimit Scope app_scope with app.
Notation "x <-- m ;; k" := (app_bind m (fun x => k))
  (at level 61, m at next level, right associativity) : app_scope.
Notation "' p <-- m ;; k" := (app_bind m (fun x => match x with p => k end))
  (at level 61, p pattern, m at next level, right associativity) : app_scope.
Open Scope app_scope.

(** ** The menus *)

Section Menus.
Context {R : Type} `{RandomSource R} `{StrBuiltins}.

Local Abbreviation app := (@app R).
Local Abbreviation AppState := (@AppState R).

(** The fuel of the prime searches of [generate_keypair(256)]. *)
Variable kfuel : nat.

(** Is [s] the one-character string [c]?  ([choice == "1"] is
    [is_choice choice 49].) *)
Definition is_choice (s : list Z) (c : Z) : bool :=
  match s with [c'] => c' =? c | _ => false end.

(** [m_int = pow(c, PRIVATE_KEY[1], PRIVATE_KEY[0])] and its bytes
    [m_int.to_bytes((m_int.bit_length() + 7)//8 or 1, 'big')]. *)
Definition message_bytes (c : Z) (priv : PrivateKey) : outcome (list Z) :=
  obind (py_pow c (priv_d priv) (priv_n priv)) (fun m_int =>
    let len := (bit_length m_int + 7) / 8 in
    to_bytes m_int (if len =? 0 then 1 else len)).

(** The length the owner's menu lists for a stored ciphertext: the
    number of characters it decrypts to, or else the number of bytes of
    [pow(c, d, n)], or else [0]. *)
Definition listed_length (c : Z) (priv : PrivateKey) : outcome Z :=
  match decrypt_cipher_to_text c priv with
  | Ret decrypted => Ret (Z.of_nat (length decrypted))
  | Throw _ =>
      match message_bytes c priv with
      | Ret b => Ret (Z.of_nat (length b))
      | Throw _ => Ret 0
      | OutOfFuel => OutOfFuel
      end
  | OutOfFuel => OutOfFuel
  end.

(** [for idx, (mtext, _) in enumerate(SIGNATURES, start=1): print(...)] *)
Fixpoint print_signatures (i : Z) (sigs : list (list Z * Z)) : app unit :=
  match sigs with
  | [] => app_ret tt
  | (mtext, _) :: sigs' => _ <-- print (Ev_signature_item i mtext) ;; print_signatures (i + 1) sigs'
  end.

(** The loop over [enumerate(MESSAGES, start=1)] of the owner's menu. *)
Fixpoint print_messages (i : Z) (priv : PrivateKey) (ms : list Z) : app unit :=
  match ms with
  | [] => app_ret tt
  | c :: ms' =>
      len <-- lift (listed_length c priv) ;;
      _ <-- print (Ev_message_item i len) ;;
      print_messages (i + 1) priv ms'
  end.

(** [sel = input(...).strip()], then
    [if not sel.isdigit() or not (1 <= int(sel) <= len(items))]: the
    index chosen, or [None] after printing "Invalid choice.".  [int] is
    called outside any [try]. *)
Definition read_selection (count : nat) : app (option nat) :=
  line <-- input ;;
  let sel := py_strip line in
  if negb (py_isdigit sel) then _ <-- print Ev_invalid_choice ;; app_ret None
  else
    v <-- lift (int_of_digits sel) ;;
    if (1 <=? v) && (v <=? Z.of_nat count) then app_ret (Some (Z.to_nat (v - 1)))
    else _ <-- print Ev_invalid_choice ;; app_ret None.

(** Choice 1 of the public user: encrypt a line and store the ciphertext. *)
Definition public_send : app unit :=
  msg <-- input ;;
  st <-- get ;;
  try_except (encrypt_text_plainstore msg (PUBLIC_KEY st))
    (fun c => _ <-- modify (fun st => set_messages (MESSAGES st ++ [c]) st) ;; print Ev_sent)
    (fun e => print (Ev_encrypt_error e)).

(** Choice 2 of the public user, up to its [continue]s. *)
Definition public_authenticate : app unit :=
  st <-- get ;;
  match SIGNATURES st with
  | [] => print Ev_no_signatures
  | sigs =>
      _ <-- print Ev_available ;;
      _ <-- print_signatures 1 sigs ;;
      sel <-- read_selection (length sigs) ;;
      match sel with
      | None => app_ret tt
      | Some idx =>
          let '(mtext, sigint) := nth idx sigs ([], 0) in
          valid <-- lift (verify_text mtext sigint (PUBLIC_KEY st)) ;;
          print (if valid then Ev_signature_valid else Ev_signature_not_valid)
      end
  end.

(** [public_user_menu()] *)
Fixpoint public_user_menu (fuel : nat) : app unit :=
  match fuel with
  | O => fun st => (Stuck, st)
  | S fuel' =>
      _ <-- print Ev_public_menu ;;
      line <-- input ;;
      let choice := py_strip line in
      if is_choice choice 49 then _ <-- public_send ;; public_user_menu fuel'
      else if is_choice choice 50 then _ <-- public_authenticate ;; public_user_menu fuel'
      else if is_choice choice 51 then app_ret tt
      else _ <-- print Ev_try_again ;; public_user_menu fuel'
  end.
(** Choice 1 of the owner, up to its [continue]s: list the stored
    ciphertexts with their lengths, read a selection, decrypt it and
    print it in upper case. *)
Definition owner_decrypt : app unit :=
  st <-- get ;;
  match MESSAGES st with
  | [] => print Ev_no_messages
  | ms =>
      _ <-- print Ev_available ;;
      _ <-- print_messages 1 (PRIVATE_KEY st) ms ;;
      sel <-- read_selection (length ms) ;;
      match sel with
      | None => app_ret tt
      | Some idx =>
          try_except (decrypt_cipher_to_text (nth idx ms 0) (PRIVATE_KEY st))
            (fun decrypted_text => print (Ev_decrypted (str_upper decrypted_text)))
            (fun e => print (Ev_decrypt_error e))
      end
  end.

(** Choice 2 of the owner: sign a line and store it with its signature. *)
Definition owner_sign : app unit :=
  m <-- input ;;
  st <-- get ;;
  try_except (sign_text m (PRIVATE_KEY st))
    (fun sg => _ <-- modify (fun st => set_signatures (SIGNATURES st ++ [(m, sg)]) st) ;;
               print Ev_signed)
    (fun e => print (Ev_sign_error e)).

(** Choice 3 of the owner: show [n], [e] and [d]. *)
Definition owner_show_keys : app unit :=
  st <-- get ;;
  print (Ev_show_keys (pub_n (PUBLIC_KEY st)) (pub_e (PUBLIC_KEY st)) (priv_d (PRIVATE_KEY st))).

(** Choice 4 of the owner: [PUBLIC_KEY, PRIVATE_KEY = generate_keypair(256)],
    outside any [try]; the stores are kept. *)
Definition owner_new_keys : app unit :=
  st <-- get ;;
  '(pub, priv, r) <-- lift (generate_keypair kfuel 256 (rng st)) ;;
  _ <-- modify (set_keys pub priv r) ;;
  print Ev_new_keys.

(** [owner_menu()] *)
Fixpoint owner_menu (fuel : nat) : app unit :=
  match fuel with
  | O => fun st => (Stuck, st)
  | S fuel' =>
      _ <-- print Ev_owner_menu ;;
      line <-- input ;;
      let choice := py_strip line in
      if is_choice choice 49 then _ <-- owner_decrypt ;; owner_menu fuel'
      else if is_choice choice 50 then _ <-- owner_sign ;; owner_menu fuel'
      else if is_choice choice 51 then _ <-- owner_show_keys ;; owner_menu fuel'
      else if is_choice choice 52 then _ <-- owner_new_keys ;; owner_menu fuel'
      else if is_choice choice 53 then app_ret tt
      else _ <-- print Ev_try_again ;; owner_menu fuel'
  end.

(** [main_menu()]: a submenu gets the fuel left to the main loop. *)
Fixpoint main_menu (fuel : nat) : app unit :=
  match fuel with
  | O => fun st => (Stuck, st)
  | S fuel' =>
      _ <-- print Ev_main_menu ;;
      line <-- input ;;
      let choice := py_strip line in
      if is_choice choice 49 then _ <-- public_user_menu fuel' ;; main_menu fuel'
      else if is_choice choice 50 then _ <-- owner_menu fuel' ;; main_menu fuel'
      else if is_choice choice 51 then _ <-- print Ev_bye ;; sys_exit 0
      else _ <-- print Ev_try_again ;; main_menu fuel'
  end.

(** [main()]: [main_menu()] under [except KeyboardInterrupt], which
    prints and exits with status 0; every other exception goes up. *)
Definition main (fuel : nat) : app unit :=
  catch_interrupt (main_menu fuel) (_ <-- print Ev_interrupted ;; sys_exit 0).

(** The program: the module's initialisation (lines 116-121), then
    [main()] as [__main__]; what it prints, given the lines typed and
    how the input ends after them. *)
Definition run_program (fuel : nat) (r : R) (lines : list (list Z)) (e : input_end) : res unit * list event :=
  match generate_keypair kfuel 256 r with
  | Ret (pub, priv, r') =>
      let '(res, st) :=
        main fuel {| PUBLIC_KEY := pub; PRIVATE_KEY := priv; MESSAGES := []; SIGNATURES := [];
                     rng := r'; stdin := lines; stdin_end := e; stdout := [Ev_keys_generated] |} in
      (res, stdout st)
  | Throw e => (Raise e, [])
  | OutOfFuel => (Stuck, [])
  end.
End Menus.

(** ** Relations every step keeps

    [app_rel Rl m]: running [m] from any state leaves a state related to
    it by [Rl], whatever the outcome.  For a preorder [Rl] this composes
    through [app_bind] and [try_except], so that a property of the
    globals (the keys, the stores, the input left) is proved of a whole
    menu from the few primitive steps that change them. *)

Section Relations.
Context {R : Type} `{RandomSource R}.
Local Abbreviation app := (@app R).
Local Abbreviation AppState := (@AppState R).
Context (Rl : AppState -> AppState -> Prop) `{PreOrder AppState Rl}.

Definition app_rel {A} (m : app A) : Prop := forall st, Rl st (snd (m st)).

Lemma app_rel_ret {A} (a : A) : app_rel (app_ret a).
Proof. intros st; reflexivity. Qed.

Lemma app_rel_bind {A B} (m : app A) (k : A -> app B) :
  app_rel m -> (forall a, app_rel (k a)) -> app_rel (app_bind m k).
Proof.
  intros Hm Hk st; unfold app_bind; specialize (Hm st).
  destruct (m st) as [[a | c | e |] st']; cbn in *; try exact Hm.
  transitivity st'; [exact Hm | apply Hk].
Qed.

Lemma app_rel_lift {A} (o : outcome A) : app_rel (lift o).
Proof. intros st; unfold lift; destruct o; reflexivity. Qed.

Lemma app_rel_try {A B} (o : outcome A) (k : A -> app B) (h : exn -> app B) :
  (forall a, app_rel (k a)) -> (forall e, app_rel (h e)) -> app_rel (try_except o k h).
Proof. intros Hk Hh st; unfold try_except; destruct o; [apply Hk | apply Hh | reflexivity]. Qed.

Lemma app_rel_get : app_rel get.
Proof. intros st; reflexivity. Qed.

Lemma app_rel_exit {A} c : app_rel (@sys_exit R A c).
Proof. intros st; reflexivity. Qed.

Lemma app_rel_stuck {A} : app_rel (fun st => (@Stuck A, st)).
Proof. intros st; reflexivity. Qed.

Lemma app_rel_match_list {A B} (l : list B) (m0 : app A) (m1 : B -> list B -> app A) :
  app_rel m0 -> (forall b l', app_rel (m1 b l')) ->
  app_rel (match l with [] => m0 | b :: l' => m1 b l' end).
Proof. destruct l; auto. Qed.

Lemma app_rel_match_option {A B} (o : option B) (m0 : app A) (m1 : B -> app A) :
  app_rel m0 -> (forall b, app_rel (m1 b)) ->
  app_rel (match o with None => m0 | Some b => m1 b end).
Proof. destruct o; auto. Qed.

Lemma app_rel_if {A} (b : bool) (m1 m2 : app A) :
  app_rel m1 -> app_rel m2 -> app_rel (if b then m1 else m2).
Proof. destruct b; auto. Qed.

Lemma app_rel_get_bind {A} (k : AppState -> app A) :
  (forall s, app_rel (k s)) -> app_rel (app_bind get k).
Proof. intros Hk; apply app_rel_bind; [exact app_rel_get | exact Hk]. Qed.

Section Io.
Hypothesis Hprint : forall st ev, Rl st (set_stdout (stdout st ++ [ev]) st).
Hypothesis Hinput : forall st l ls, stdin st = l :: ls -> Rl st (set_stdin ls st).

Lemma app_rel_print ev : app_rel (print ev).
Proof. intros st; apply Hprint. Qed.

Lemma app_rel_input : app_rel input.
Proof. intros st; unfold input; destruct (stdin st) eqn:E; [reflexivity | eapply Hinput; exact E]. Qed.
End Io.
End Relations.

(** The relations proved of the menus. *)
Section Frames.
Context {R : Type}.
Local Abbreviation AppState := (@AppState R).

(** The input left is a suffix of the input before. *)
Definition input_shrinks (st st' : AppState) : Prop :=
  exists k, stdin st' = skipn k (stdin st).

(** The keys are the same. *)
Definition keys_kept (st st' : AppState) : Prop :=
  PUBLIC_KEY st' = PUBLIC_KEY st /\ PRIVATE_KEY st' = PRIVATE_KEY st.

(** What the public user can do to the stores: [SIGNATURES] unchanged,
    [MESSAGES] extended with ciphertexts of the current public key. *)
Definition public_frame (st st' : AppState) : Prop :=
  keys_kept st st' /\ SIGNATURES st' = SIGNATURES st /\
  exists cs, MESSAGES st' = MESSAGES st ++ cs /\
    Forall (fun c => exists msg, encrypt_text_plainstore msg (PUBLIC_KEY st) = Ret c) cs.

(** An invariant [P] of the state carries over. *)
Definition keeps (P : AppState -> Prop) (st st' : AppState) : Prop := P st -> P st'.
End Frames.

(** The combinators, as a tactic: it reduces [app_rel Rl m] to the
    primitive steps of [m] that change the globals. *)
Ltac app_rel_step :=
  match goal with
  | |- forall _, _ => intros
  | |- PreOrder _ => assumption
  | |- app_rel _ (app_bind get _) => apply app_rel_get_bind
  | |- app_rel _ (app_bind _ _) => apply app_rel_bind
  | |- app_rel _ (app_ret _) => apply app_rel_ret
  | |- app_rel _ (lift _) => apply app_rel_lift
  | |- app_rel _ get => apply app_rel_get
  | |- app_rel _ (print _) => apply app_rel_print; assumption
  | |- app_rel _ input => apply app_rel_input; assumption
  | |- app_rel _ (sys_exit _) => apply app_rel_exit
  | |- app_rel _ (fun st => (Stuck, st)) => apply app_rel_stuck
  | |- app_rel _ (try_except _ _ _) => apply app_rel_try
  | |- app_rel _ (if _ then _ else _) => apply app_rel_if
  | |- app_rel _ (match ?o with None => _ | Some _ => _ end) => destruct o
  | |- app_rel _ (match ?l with [] => _ | _ :: _ => _ end) => destruct l
  | |- app_rel _ (match ?p with (_, _) => _ end) => destruct p
  | |- app_rel _ ((fun _ => _) _) => cbv beta
  end.
Ltac app_rel_auto := repeat app_rel_step.

Section MenuRelations.
Context {R : Type} `{RandomSource R} `{StrBuiltins}.
Local Abbreviation AppState := (@AppState R).
Context (Rl : AppState -> AppState -> Prop) `{PreOrder AppState Rl}.
Variable kfuel : nat.
Hypothesis Hprint : forall st ev, Rl st (set_stdout (stdout st ++ [ev]) st).
Hypothesis Hinput : forall st l ls, stdin st = l :: ls -> Rl st (set_stdin ls st).

Lemma print_signatures_rel i sigs : app_rel Rl (print_signatures i sigs).
Proof. revert i; induction sigs as [| [m s] sigs IH]; cbn [print_signatures]; app_rel_auto; auto. Qed.

Lemma print_messages_rel i priv ms : app_rel Rl (print_messages i priv ms).
Proof. revert i; induction ms as [| c ms IH]; cbn [print_messages]; app_rel_auto; auto. Qed.

Lemma read_selection_rel count : app_rel Rl (read_selection count).
Proof. unfold read_selection; app_rel_auto. Qed.

Lemma public_authenticate_rel : app_rel Rl public_authenticate.
Proof.
  unfold public_authenticate; app_rel_auto;
    auto using print_signatures_rel, read_selection_rel.
Qed.

Lemma owner_decrypt_rel : app_rel Rl owner_decrypt.
Proof. unfold owner_decrypt; app_rel_auto; auto using print_messages_rel, read_selection_rel. Qed.

Lemma owner_show_keys_rel : app_rel Rl owner_show_keys.
Proof. unfold owner_show_keys; app_rel_auto. Qed.

(** The steps that change the stores and the keys. *)
Hypothesis Hmsg : forall st msg c,
  encrypt_text_plainstore msg (PUBLIC_KEY st) = Ret c -> Rl st (set_messages (MESSAGES st ++ [c]) st).

Lemma public_send_rel : app_rel Rl public_send.
Proof.
  intros st; unfold public_send, app_bind, input, get, try_except.
  destruct (stdin st) as [| msg ls] eqn:Ein; cbn [fst snd]; [reflexivity |].
  destruct (encrypt_text_plainstore msg _) as [c | e |] eqn:E; cbn [fst snd].
  - unfold modify, print; cbn [fst snd].
    etransitivity; [exact (Hinput _ _ _ Ein) |].
    etransitivity; [apply (Hmsg _ msg c); exact E | apply Hprint].
  - etransitivity; [exact (Hinput _ _ _ Ein) | apply Hprint].
  - exact (Hinput _ _ _ Ein).
Qed.

Lemma public_user_menu_rel fuel : app_rel Rl (public_user_menu fuel).
Proof.
  induction fuel as [| f IH]; cbn [public_user_menu]; app_rel_auto;
    auto using public_send_rel, public_authenticate_rel.
Qed.

Hypothesis Hsig : forall st m sg,
  sign_text m (PRIVATE_KEY st) = Ret sg -> Rl st (set_signatures (SIGNATURES st ++ [(m, sg)]) st).
Hypothesis Hkeys : forall st pub priv r,
  generate_keypair kfuel 256 (rng st) = Ret (pub, priv, r) -> Rl st (set_keys pub priv r st).

Lemma owner_sign_rel : app_rel Rl owner_sign.
Proof.
  intros st; unfold owner_sign, app_bind, input, get, try_except.
  destruct (stdin st) as [| m ls] eqn:Ein; cbn [fst snd]; [reflexivity |].
  destruct (sign_text m _) as [sg | e |] eqn:E; cbn [fst snd].
  - unfold modify, print; cbn [fst snd].
    etransitivity; [exact (Hinput _ _ _ Ein) | etransitivity; [apply (Hsig _ m sg); exact E | apply Hprint]].
  - etransitivity; [exact (Hinput _ _ _ Ein) | apply Hprint].
  - exact (Hinput _ _ _ Ein).
Qed.

Lemma owner_new_keys_rel : app_rel Rl (owner_new_keys kfuel).
Proof.
  intros st; unfold owner_new_keys, app_bind, get, lift.
  destruct (generate_keypair kfuel 256 (rng st)) as [[[pub priv] r] | e |] eqn:E; cbn [fst snd];
    try reflexivity.
  unfold modify, print; cbn [fst snd]; etransitivity; [apply (Hkeys _ pub priv r E) | apply Hprint].
Qed.

Lemma owner_menu_rel fuel : app_rel Rl (owner_menu kfuel fuel).
Proof.
  induction fuel as [| f IH]; cbn [owner_menu]; app_rel_auto;
    auto using owner_decrypt_rel, owner_sign_rel, owner_show_keys_rel, owner_new_keys_rel.
Qed.

Lemma main_menu_rel fuel : app_rel Rl (main_menu kfuel fuel).
Proof.
  induction fuel as [| f IH]; cbn [main_menu]; app_rel_auto;
    auto using public_user_menu_rel, owner_menu_rel.
Qed.
End MenuRelations.

Section FrameInstances.
Context {R : Type}.
Local Abbreviation AppState := (@AppState R).

#[export] Instance keys_kept_preorder : PreOrder (@keys_kept R).
Proof. split; [intros st; split; reflexivity | intros ? ? ? [E1 E2] [E3 E4]; split; congruence]. Qed.

#[export] Instance public_frame_preorder : PreOrder (@public_frame R).
Proof.
  split.
  - intros st; split; [reflexivity | split; [reflexivity | exists []; split; [symmetry; apply app_nil_r | constructor]]].
  - intros s1 s2 s3 [K1 [S1 (c1 & M1 & F1)]] [K2 [S2 (c2 & M2 & F2)]].
    split; [transitivity s2; assumption | split; [congruence |]].
    exists (c1 ++ c2); split; [rewrite M2, M1, app_assoc; reflexivity |].
    apply Forall_app; split; [exact F1 |].
    destruct K1 as [P1 _]; rewrite P1 in F2; exact F2.
Qed.

#[export] Instance keeps_preorder (P : AppState -> Prop) : PreOrder (keeps P).
Proof. split; [intros st Hp; exact Hp | intros s1 s2 s3 H12 H23 Hp; auto]. Qed.

#[export] Instance input_shrinks_preorder : PreOrder (@input_shrinks R).
Proof.
  split; [intros st; exists O; reflexivity |].
  intros s1 s2 s3 [k1 E1] [k2 E2]; exists (k2 + k1)%nat; rewrite E2, E1, skipn_skipn; reflexivity.
Qed.
End FrameInstances.

(** ** What the users can change *)

Section Claims.
Context {R : Type} `{RandomSource R} `{StrBuiltins}.
Local Abbreviation AppState := (@AppState R).

Lemma public_frame_print (st : AppState) ev : public_frame st (set_stdout (stdout st ++ [ev]) st).
Proof. split; [split; reflexivity | split; [reflexivity | exists []; split; [symmetry; apply app_nil_r | constructor]]]. Qed.

Lemma public_frame_input (st : AppState) l ls : stdin st = l :: ls -> public_frame st (set_stdin ls st).
Proof. intros _; split; [split; reflexivity | split; [reflexivity | exists []; split; [symmetry; apply app_nil_r | constructor]]]. Qed.

Lemma public_frame_message (st : AppState) msg c :
  encrypt_text_plainstore msg (PUBLIC_KEY st) = Ret c -> public_frame st (set_messages (MESSAGES st ++ [c]) st).
Proof.
  intros E; split; [split; reflexivity | split; [reflexivity |]].
  exists [c]; split; [reflexivity | constructor; [exists msg; exact E | constructor]].
Qed.

(** C20: the public user's menu never changes the keys or the signature
    store, and only appends to the message store, ciphertexts of the
    current public key: whatever the input, and also when the menu ends
    by an exception or runs out of fuel. *)
Theorem public_user_menu_frame fuel (st : AppState) :
  let st' := snd (public_user_menu fuel st) in
  PUBLIC_KEY st' = PUBLIC_KEY st /\ PRIVATE_KEY st' = PRIVATE_KEY st /\
  SIGNATURES st' = SIGNATURES st /\
  exists cs, MESSAGES st' = MESSAGES st ++ cs /\
    Forall (fun c => exists msg, encrypt_text_plainstore msg (PUBLIC_KEY st) = Ret c) cs.
Proof.
  destruct (public_user_menu_rel public_frame public_frame_print public_frame_input
              public_frame_message fuel st) as [[K1 K2] [S M]].
  split; [exact K1 | split; [exact K2 | split; [exact S | exact M]]].
Qed.

(** The key invariant of the application: the current key pair is one
    [generate_keypair(256)] can return. *)
Definition keys_valid (st : AppState) : Prop :=
  valid_keypair 256 (PUBLIC_KEY st) (PRIVATE_KEY st).

Lemma keys_valid_rel `{!RandomSourceOk R} kfuel fuel :
  app_rel (keeps keys_valid) (main_menu kfuel fuel).
Proof.
  apply main_menu_rel; try typeclasses eauto; unfold keeps, keys_valid; cbn; auto.
  intros st pub priv r E _; exact (keypair_props _ _ _ _ _ _ E).
Qed.

(** C18: the key invariant holds of every state of the application: if
    the keys satisfy it when [main_menu] starts, they do when it stops,
    whatever the input, with the keys the owner regenerates on the way. *)
Theorem main_menu_keys_valid `{!RandomSourceOk R} kfuel fuel (st : AppState) :
  keys_valid st -> keys_valid (snd (main_menu kfuel fuel st)).
Proof. apply keys_valid_rel. Qed.
End Claims.

(** ** Fuel

    Every iteration of a menu loop reads a line, so a loop given more
    fuel than the lines left never runs out of it: its result is the
    same for all such fuels. *)

Section Fuel.
Context {R : Type} `{RandomSource R} `{StrBuiltins}.
Local Abbreviation AppState := (@AppState R).
Variable kfuel : nat.
Local Abbreviation shrinks := (@input_shrinks R).

Lemma shrinks_print (st : AppState) ev : input_shrinks st (set_stdout (stdout st ++ [ev]) st).
Proof. exists O; reflexivity. Qed.

Lemma shrinks_input (st : AppState) l ls : stdin st = l :: ls -> input_shrinks st (set_stdin ls st).
Proof. intros E; exists 1%nat; cbn; rewrite E; reflexivity. Qed.

Lemma shrinks_messages (st : AppState) ms : input_shrinks st (set_messages ms st).
Proof. exists O; reflexivity. Qed.

Lemma shrinks_signatures (st : AppState) ss : input_shrinks st (set_signatures ss st).
Proof. exists O; reflexivity. Qed.

Lemma shrinks_keys (st : AppState) pub priv r : input_shrinks st (set_keys pub priv r st).
Proof. exists O; reflexivity. Qed.

Lemma shrinks_length (st st' : AppState) :
  input_shrinks st st' -> (length (stdin st') <= length (stdin st))%nat.
Proof. intros [k ->]; rewrite length_skipn; lia. Qed.

Local Ltac shrinks_hyps :=
  first [ intros; apply shrinks_print | intros; eapply shrinks_input; eassumption
        | intros; apply shrinks_messages | intros; apply shrinks_signatures | intros; apply shrinks_keys ].

Lemma public_user_menu_shrinks fuel : app_rel shrinks (public_user_menu fuel).
Proof. apply public_user_menu_rel; try typeclasses eauto; shrinks_hyps. Qed.

Lemma owner_menu_shrinks fuel : app_rel shrinks (owner_menu kfuel fuel).
Proof. apply owner_menu_rel; try typeclasses eauto; shrinks_hyps. Qed.

Lemma step_shrinks :
  app_rel shrinks public_send /\ app_rel shrinks public_authenticate /\
  app_rel shrinks owner_decrypt /\ app_rel shrinks owner_sign /\
  app_rel shrinks owner_show_keys /\ app_rel shrinks (owner_new_keys kfuel).
Proof.
  repeat split;
    first [ apply public_send_rel | apply public_authenticate_rel | apply owner_decrypt_rel
          | apply owner_sign_rel | apply owner_show_keys_rel | apply owner_new_keys_rel ];
    try typeclasses eauto; shrinks_hyps.
Qed.

Lemma bind_ext_shrinks {A B} (m : @app R A) (k1 k2 : A -> @app R B) st :
  app_rel shrinks m ->
  (forall a st', (length (stdin st') <= length (stdin st))%nat -> k1 a st' = k2 a st') ->
  app_bind m k1 st = app_bind m k2 st.
Proof.
  intros Hm Hk; unfold app_bind; pose proof (shrinks_length _ _ (Hm st)) as Hl.
  destruct (m st) as [[a | | |] st']; auto.
Qed.

Lemma bind_input_ext {B} (k1 k2 : list Z -> @app R B) (st : AppState) :
  (forall l st', (length (stdin st') < length (stdin st))%nat -> k1 l st' = k2 l st') ->
  app_bind input k1 st = app_bind input k2 st.
Proof.
  intros Hk; unfold app_bind, input; destruct (stdin st) as [| l ls] eqn:E; [reflexivity |].
  apply Hk; cbn; lia.
Qed.

Local Ltac fuel_step IH :=
  match goal with
  | |- app_bind input _ _ = app_bind input _ _ => apply bind_input_ext; intros ? ? ?
  | |- app_bind ?m _ _ = app_bind ?m _ _ =>
      apply bind_ext_shrinks;
        [ first [ apply app_rel_print; shrinks_hyps | apply step_shrinks
                | apply public_user_menu_shrinks | apply owner_menu_shrinks ]
        | intros ? ? ? ]
  | |- (if ?b then _ else _) _ = (if ?b then _ else _) _ => destruct b
  | |- _ => progress cbv beta zeta
  | |- _ => reflexivity
  | |- _ => apply IH; lia
  end.

Lemma public_user_menu_fuel f1 f2 (st : AppState) :
  (length (stdin st) < f1)%nat -> (length (stdin st) < f2)%nat ->
  public_user_menu f1 st = public_user_menu f2 st.
Proof.
  revert f2 st; induction f1 as [| f1 IH]; intros [| f2] st H1 H2; try lia.
  cbn [public_user_menu]; repeat fuel_step IH.
Qed.

Lemma owner_menu_fuel f1 f2 (st : AppState) :
  (length (stdin st) < f1)%nat -> (length (stdin st) < f2)%nat ->
  owner_menu kfuel f1 st = owner_menu kfuel f2 st.
Proof.
  revert f2 st; induction f1 as [| f1 IH]; intros [| f2] st H1 H2; try lia.
  cbn [owner_menu]; repeat fuel_step IH.
Qed.

Lemma bind_congr_shrinks {A B} (m1 m2 : @app R A) (k1 k2 : A -> @app R B) st :
  m1 st = m2 st -> app_rel shrinks m1 ->
  (forall a st', (length (stdin st') <= length (stdin st))%nat -> k1 a st' = k2 a st') ->
  app_bind m1 k1 st = app_bind m2 k2 st.
Proof.
  intros E Hm Hk; transitivity (app_bind m1 k2 st); [apply bind_ext_shrinks; assumption |].
  unfold app_bind; rewrite E; reflexivity.
Qed.

Local Ltac main_fuel_step IH :=
  match goal with
  | |- app_bind (public_user_menu ?a) _ ?st = app_bind (public_user_menu ?b) _ ?st =>
      apply bind_congr_shrinks;
        [apply public_user_menu_fuel; lia | apply public_user_menu_shrinks | intros ? ? ?]
  | |- app_bind (owner_menu _ ?a) _ ?st = app_bind (owner_menu _ ?b) _ ?st =>
      apply bind_congr_shrinks;
        [apply owner_menu_fuel; lia | apply owner_menu_shrinks | intros ? ? ?]
  | |- _ => fuel_step IH
  end.

Lemma main_menu_fuel_eq f1 f2 (st : AppState) :
  (length (stdin st) < f1)%nat -> (length (stdin st) < f2)%nat ->
  main_menu kfuel f1 st = main_menu kfuel f2 st.
Proof.
  revert f2 st; induction f1 as [| f1 IH]; intros [| f2] st H1 H2; try lia.
  cbn [main_menu]; repeat main_fuel_step IH.
Qed.

(** [main_menu] never returns: it stops by [sys.exit], by an exception,
    or out of fuel. *)
Lemma main_menu_stops fuel (st : AppState) a : fst (main_menu kfuel fuel st) <> Done a.
Proof.
  revert st; induction fuel as [| f IH]; intros st; [discriminate |].
  cbn [main_menu]; unfold app_bind, print, modify, input, sys_exit; cbn [stdin set_stdout].
  destruct (stdin st) as [| l ls]; [discriminate |]; cbv zeta.
  repeat match goal with
  | |- context [if ?b then _ else _] => destruct b
  | |- context [match ?m ?s with _ => _ end] => destruct (m s) as [[] ?]
  end; cbn [fst]; try discriminate; apply IH.
Qed.
End Fuel.

(** Running a [bind] whose first step is known. *)
Lemma bind_done {R A B} (m : @app R A) (k : A -> @app R B) st a st' :
  m st = (Done a, st') -> app_bind m k st = k a st'.
Proof. intros E; unfold app_bind; rewrite E; reflexivity. Qed.

Lemma fst_bind_raise {R A B} (m : @app R A) (k : A -> @app R B) st e :
  fst (m st) = Raise e -> fst (app_bind m k st) = Raise e.
Proof. intros E; unfold app_bind; destruct (m st) as [[] st']; cbn in E |- *; congruence. Qed.

(** C28: fuel one more than the number of lines left is enough: every
    larger fuel gives the same run, so a run that stops out of fuel
    with that much fuel stops so inside [generate_keypair].  And
    [main_menu] never returns: it ends by [sys.exit], by an uncaught
    exception, or out of fuel. *)
Theorem main_menu_fuel {R : Type} `{RandomSource R} `{StrBuiltins} kfuel fuel (st : @AppState R) :
  (length (stdin st) < fuel)%nat ->
  main_menu kfuel fuel st = main_menu kfuel (S (length (stdin st))) st /\
  forall a, fst (main_menu kfuel fuel st) <> Done a.
Proof. intros Hf; split; [apply main_menu_fuel_eq; lia | apply main_menu_stops]. Qed.

(** ** Selecting an item

    [decimal n] is the numeral of [n] a user types. *)

Fixpoint decimal_digits (f : nat) (n : Z) : list Z :=
  match f with
  | O => []
  | S f' => (if n <? 10 then [] else decimal_digits f' (n / 10)) ++ [48 + n mod 10]
  end.

Definition decimal (n : Z) : list Z := decimal_digits (S (Z.to_nat n)) n.

Section Selection.
Context `{StrBuiltinsOk}.

Lemma int_of_digits_snoc s c :
  int_of_digits (s ++ [c]) =
  obind (int_of_digits s) (fun v =>
    match str_decimal c with Some d => Ret (v * 10 + d) | None => Throw ValueError_int end).
Proof. unfold int_of_digits; rewrite fold_left_app; reflexivity. Qed.

Lemma decimal_digits_spec f n :
  0 <= n < 10 ^ Z.of_nat f ->
  Forall (fun c => 48 <= c <= 57) (decimal_digits f n) /\ int_of_digits (decimal_digits f n) = Ret n.
Proof.
  revert n; induction f as [| f IH]; intros n Hn; cbn [decimal_digits].
  - cbn in Hn; replace n with 0 by lia; split; [constructor | reflexivity].
  - rewrite Nat2Z.inj_succ, Z.pow_succ_r in Hn by lia.
    destruct (Z.ltb_spec n 10) as [Hs | Hl].
    + rewrite Z.mod_small by lia; split; [repeat constructor; lia |].
      rewrite app_nil_l; unfold int_of_digits; cbn [fold_left obind].
      rewrite (proj2 (ascii_digit (48 + n) ltac:(lia))); f_equal; lia.
    + destruct (IH (n / 10)) as [Hd Hv]; [split; [zlia | apply Z.div_lt_upper_bound; lia] |].
      pose proof (Z.mod_pos_bound n 10 ltac:(lia)).
      split; [apply Forall_app; split; [exact Hd | repeat constructor; lia] |].
      rewrite int_of_digits_snoc, Hv; cbn [obind].
      rewrite (proj2 (ascii_digit (48 + n mod 10) ltac:(lia))); f_equal; zlia.
Qed.

Lemma decimal_spec n :
  0 <= n ->
  decimal n <> [] /\ Forall (fun c => 48 <= c <= 57) (decimal n) /\ int_of_digits (decimal n) = Ret n.
Proof.
  intros Hn; unfold decimal; split; [cbn [decimal_digits]; intros E; apply app_eq_nil in E as [_ E]; discriminate |].
  apply decimal_digits_spec; split; [lia |].
  rewrite Nat2Z.inj_succ, Z2Nat.id by lia.
  pose proof (Z.pow_gt_lin_r 2 n ltac:(lia) Hn).
  assert (2 ^ n <= 10 ^ n) by (apply Z.pow_le_mono_l; lia).
  assert (10 ^ n <= 10 ^ Z.succ n) by (apply Z.pow_le_mono_r; lia).
  lia.
Qed.

Lemma lstrip_spaces pre s : Forall (fun c => py_isspace c = true) pre -> lstrip (pre ++ s) = lstrip s.
Proof. induction 1 as [| c pre Hc _ IH]; [reflexivity | cbn; rewrite Hc; exact IH]. Qed.

Lemma lstrip_nonspace c s : py_isspace c = false -> lstrip (c :: s) = c :: s.
Proof. intros Hc; cbn; rewrite Hc; reflexivity. Qed.

(** Stripping the whitespace around a string that starts and ends with
    other characters. *)
Lemma py_strip_pad pre s post :
  Forall (fun c => py_isspace c = true) pre -> Forall (fun c => py_isspace c = true) post ->
  s <> [] -> Forall (fun c => py_isspace c = false) s ->
  py_strip (pre ++ s ++ post) = s.
Proof.
  intros Hpre Hpost Hne Hs; unfold py_strip; rewrite lstrip_spaces by exact Hpre.
  destruct s as [| c s]; [contradiction |].
  rewrite <- app_comm_cons, lstrip_nonspace, app_comm_cons by (inversion Hs; assumption).
  rewrite rev_app_distr, lstrip_spaces by (apply Forall_rev; exact Hpost).
  destruct (rev (c :: s)) as [| c' s'] eqn:E; [apply (f_equal (@length Z)) in E; cbn in E;
    rewrite length_app in E; cbn in E; lia |].
  rewrite lstrip_nonspace, <- E, rev_involutive; [reflexivity |].
  assert (Hr : Forall (fun c => py_isspace c = false) (rev (c :: s))) by (apply Forall_rev; exact Hs).
  rewrite E in Hr; inversion Hr; assumption.
Qed.

Lemma digits_nonspace s : Forall (fun c => 48 <= c <= 57) s -> Forall (fun c => py_isspace c = false) s.
Proof.
  apply Forall_impl; intros c Hc; unfold py_isspace.
  repeat match goal with |- context [?a <=? ?b] => destruct (Z.leb_spec a b) end;
  repeat match goal with |- context [?a =? ?b] => destruct (Z.eqb_spec a b) end;
  cbn; lia || reflexivity.
Qed.
End Selection.

Lemma py_isdigit_ascii `{StrBuiltinsOk} s :
  s <> [] -> Forall (fun c => 48 <= c <= 57) s -> py_isdigit s = true.
Proof.
  intros Hne Hs; destruct s as [| c s]; [contradiction |]; unfold py_isdigit.
  apply forallb_forall; intros x Hx; rewrite Forall_forall in Hs.
  apply (ascii_digit x (Hs x Hx)).
Qed.

Lemma print_signatures_done {R : Type} i sigs (st : @AppState R) :
  exists out, print_signatures i sigs st = (Done tt, set_stdout out st).
Proof.
  revert i st; induction sigs as [| [m sg] sigs IH]; intros i st; cbn [print_signatures].
  - exists (stdout st); destruct st; reflexivity.
  - destruct (IH (i + 1) (set_stdout (stdout st ++ [Ev_signature_item i m]) st)) as [out E].
    exists out; erewrite bind_done by reflexivity; exact E.
Qed.

(** C29: typing the numeral of an item's position, with any whitespace
    around it, selects that item: [read_selection] reads the line,
    strips it, finds it is made of digits, reads it with [int] and
    returns the index, printing nothing. *)
Theorem read_selection_roundtrip `{StrBuiltinsOk} {R : Type} count i pre post ls (st : @AppState R) :
  (i < count)%nat ->
  Forall (fun c => py_isspace c = true) pre -> Forall (fun c => py_isspace c = true) post ->
  stdin st = (pre ++ decimal (Z.of_nat i + 1) ++ post) :: ls ->
  read_selection count st = (Done (Some i), set_stdin ls st).
Proof.
  intros Hi Hpre Hpost Hin.
  destruct (decimal_spec (Z.of_nat i + 1) ltac:(lia)) as (Hne & Hd & Hv).
  unfold read_selection; erewrite bind_done by (unfold input; rewrite Hin; reflexivity).
  cbv zeta; rewrite py_strip_pad by auto using digits_nonspace.
  rewrite py_isdigit_ascii by assumption; cbn [negb].
  erewrite bind_done by (unfold lift; rewrite Hv; reflexivity).
  destruct (Z.leb_spec 1 (Z.of_nat i + 1)), (Z.leb_spec (Z.of_nat i + 1) (Z.of_nat count)); try lia.
  cbn [andb]; unfold app_ret; do 3 f_equal; lia.
Qed.

(** C15: a line that [str.isdigit] accepts but [int] cannot read (the
    superscript two "²" is one: it is a digit, not a decimal digit)
    crashes the program: when the public user asks to authenticate a
    signature and types it as the selection, [int(sel)] raises
    [ValueError] outside any [try], and the exception ends the run. *)
Theorem selection_crash {R : Type} `{RandomSource R} `{StrBuiltins} kfuel fuel c ls (st : @AppState R) :
  str_isdigit_char c = true -> str_decimal c = None -> py_isspace c = false ->
  SIGNATURES st <> [] -> (2 <= fuel)%nat ->
  stdin st = [49] :: [50] :: [c] :: ls ->
  fst (main_menu kfuel fuel st) = Raise ValueError_int.
Proof.
  intros Hdig Hdec Hsp Hsig Hf Hin.
  destruct fuel as [| [| f]]; try lia; cbn [main_menu public_user_menu].
  erewrite bind_done by reflexivity; erewrite bind_done by (unfold input; cbn; rewrite Hin; reflexivity).
  cbv zeta; change (is_choice (py_strip [49]) 49) with true; cbv beta iota.
  apply fst_bind_raise.
  erewrite bind_done by reflexivity; erewrite bind_done by (unfold input; reflexivity).
  cbv zeta; change (is_choice (py_strip [50]) 49) with false;
    change (is_choice (py_strip [50]) 50) with true; cbv beta iota.
  apply fst_bind_raise.
  unfold public_authenticate; erewrite bind_done by reflexivity.
  cbn [SIGNATURES set_stdout set_stdin].
  destruct (SIGNATURES st) as [| sg sigs] eqn:Es; [contradiction |]; cbv beta iota.
  erewrite bind_done by reflexivity.
  match goal with |- context [app_bind (print_signatures 1 ?l) _ ?s] =>
    destruct (print_signatures_done 1 l s) as [out E] end.
  erewrite bind_done by exact E.
  apply fst_bind_raise.
  unfold read_selection; erewrite bind_done by (unfold input; reflexivity).
  cbv zeta; replace (py_strip [c]) with [c]
    by (unfold py_strip; cbn [lstrip]; rewrite Hsp; cbn [rev]; rewrite app_nil_l; cbn [lstrip];
        rewrite Hsp; reflexivity).
  unfold py_isdigit; cbn [forallb]; rewrite Hdig; cbn [andb negb].
  apply fst_bind_raise.
  unfold lift, int_of_digits; cbn [fold_left obind]; rewrite Hdec; reflexivity.
Qed.

(** ** Concrete runs

    A 256-bit key pair, the 20-bit one of [Crypto], and a session state
    holding one stored signature. *)

Definition pub256 : PublicKey :=
  {| pub_n := 6555761825017073966135342740353757949422885003962498681071405902996615380449880362187752088079690536927859068669724621134962692965746585502556049071264859;
     pub_e := 65537 |}.
Definition priv256 : PrivateKey :=
  {| priv_n := 6555761825017073966135342740353757949422885003962498681071405902996615380449880362187752088079690536927859068669724621134962692965746585502556049071264859;
     priv_d := 2039741510504343428040126551696804527925935702210954279349482548301020556674095499886248045435637836825106707678660057956285880329339417173587496194545345;
     priv_p := 88065892298713157685062754232192126445072267695118870830616207565232404019963;
     priv_q := 74441553408445604394915005022183240531070701355763043770003756007748740124193 |}.

Definition session (lines : list (list Z)) : @AppState (list Z) :=
  {| PUBLIC_KEY := pub256; PRIVATE_KEY := priv256; MESSAGES := [];
     SIGNATURES := [(hello, 7)]; rng := []; stdin := lines; stdin_end := At_EOF; stdout := [] |}.

Lemma main_menu_keys_valid_witness :
  keys_valid (session [[50]; [51]; [53]; [51]]) /\
  keys_valid (snd (main_menu 1 5 (session [[50]; [51]; [53]; [51]]))).
Proof.
  assert (Hv : keys_valid (session [[50]; [51]; [53]; [51]])) by (repeat split; vm_compute; congruence).
  split; [exact Hv | exact (main_menu_keys_valid 1 5 _ Hv)].
Defined.

Lemma main_menu_fuel_witness :
  main_menu 1 10 (session [[50]; [51]; [53]; [51]]) = main_menu 1 5 (session [[50]; [51]; [53]; [51]]) /\
  fst (main_menu 1 10 (session [[50]; [51]; [53]; [51]])) = Exit 0.
Proof.
  split; [apply (main_menu_fuel 1 10 (session [[50]; [51]; [53]; [51]])); cbn; lia |].
  vm_compute; reflexivity.
Defined.

Lemma read_selection_roundtrip_witness :
  decimal 12 = [49; 50] /\
  read_selection 20 (session [[32; 49; 50; 9]; [51]]) = (Done (Some 11%nat), set_stdin [[51]] (session [[32; 49; 50; 9]; [51]])).
Proof.
  split; [reflexivity |].
  apply (read_selection_roundtrip 20 11 [32] [9] [[51]]); [lia | repeat constructor | repeat constructor | reflexivity].
Defined.

Lemma selection_crash_witness :
  fst (main_menu 1 5 (session [[49]; [50]; [0xB2]; [51]; [51]])) = Raise ValueError_int.
Proof.
  apply (selection_crash 1 5 0xB2 [[51]; [51]]); try reflexivity; [discriminate | lia].
Defined.

(** ** What the program prints

    The output only grows: every step appends to [stdout]. *)

Definition output_grows {R : Type} (st st' : @AppState R) : Prop :=
  exists out, stdout st' = stdout st ++ out.

#[export] Instance output_grows_preorder {R : Type} : PreOrder (@output_grows R).
Proof.
  split; [intros st; exists []; symmetry; apply app_nil_r |].
  intros s1 s2 s3 [o1 E1] [o2 E2]; exists (o1 ++ o2); rewrite E2, E1, app_assoc; reflexivity.
Qed.

Lemma output_grows_rel {R : Type} `{RandomSource R} `{StrBuiltins} kfuel :
  (forall fuel, app_rel (@output_grows R) (main_menu kfuel fuel)) /\
  (forall fuel, app_rel (@output_grows R) (owner_menu kfuel fuel)) /\
  (forall fuel, app_rel (@output_grows R) (public_user_menu fuel)).
Proof.
  assert (Hp : forall (st : @AppState R) ev, output_grows st (set_stdout (stdout st ++ [ev]) st))
    by (intros st ev; exists [ev]; reflexivity).
  assert (Hi : forall (st : @AppState R) l ls, stdin st = l :: ls -> output_grows st (set_stdin ls st))
    by (intros st l ls _; exists []; symmetry; apply app_nil_r).
  split; [| split]; intros fuel;
    first [ apply main_menu_rel | apply owner_menu_rel | apply public_user_menu_rel ];
    try typeclasses eauto; try exact Hp; try exact Hi;
    intros; exists []; symmetry; apply app_nil_r.
Qed.

(** One iteration of a menu, for a known choice. *)

Section Steps.
Context {R : Type} `{RandomSource R} `{StrBuiltins}.
Local Abbreviation AppState := (@AppState R).
Variable kfuel : nat.

Lemma bind_step {A B} (m m' : @app R A) (k : A -> @app R B) st st' :
  m st = m' st' -> app_bind m k st = app_bind m' k st'.
Proof. intros E; unfold app_bind; rewrite E; reflexivity. Qed.

Lemma bind_assoc {A B C} (m : @app R A) (k1 : A -> @app R B) (k2 : B -> @app R C) st :
  app_bind (app_bind m k1) k2 st = app_bind m (fun a => app_bind (k1 a) k2) st.
Proof. unfold app_bind; destruct (m st) as [[] st']; reflexivity. Qed.

(** The state after the menu text and the line read. *)
Definition after_prompt (ev : event) (ls : list (list Z)) (st : AppState) : AppState :=
  set_stdin ls (set_stdout (stdout st ++ [ev]) st).

Lemma prompt_read {A} ev (k : list Z -> @app R A) (st : AppState) l ls :
  stdin st = l :: ls -> app_bind (print ev) (fun _ => app_bind input k) st = k l (after_prompt ev ls st).
Proof. intros E; erewrite bind_done by reflexivity; apply bind_done; destruct st; cbn in *; subst; reflexivity. Qed.

Lemma main_menu_public f (st : AppState) l ls :
  stdin st = l :: ls -> is_choice (py_strip l) 49 = true ->
  main_menu kfuel (S f) st =
  app_bind (public_user_menu f) (fun _ => main_menu kfuel f) (after_prompt Ev_main_menu ls st).
Proof. intros E C; cbn [main_menu]; rewrite (prompt_read _ _ _ _ _ E); cbv zeta; rewrite C; reflexivity. Qed.

Lemma main_menu_owner f (st : AppState) l ls :
  stdin st = l :: ls -> is_choice (py_strip l) 49 = false -> is_choice (py_strip l) 50 = true ->
  main_menu kfuel (S f) st =
  app_bind (owner_menu kfuel f) (fun _ => main_menu kfuel f) (after_prompt Ev_main_menu ls st).
Proof. intros E C1 C2; cbn [main_menu]; rewrite (prompt_read _ _ _ _ _ E); cbv zeta; rewrite C1, C2; reflexivity. Qed.

Lemma public_menu_send f (st : AppState) l ls :
  stdin st = l :: ls -> is_choice (py_strip l) 49 = true ->
  public_user_menu (S f) st = app_bind public_send (fun _ => public_user_menu f) (after_prompt Ev_public_menu ls st).
Proof. intros E C; cbn [public_user_menu]; rewrite (prompt_read _ _ _ _ _ E); cbv zeta; rewrite C; reflexivity. Qed.

Lemma public_menu_exit f (st : AppState) l ls :
  stdin st = l :: ls -> is_choice (py_strip l) 49 = false -> is_choice (py_strip l) 50 = false ->
  is_choice (py_strip l) 51 = true ->
  public_user_menu (S f) st = (Done tt, after_prompt Ev_public_menu ls st).
Proof.
  intros E C1 C2 C3; cbn [public_user_menu]; rewrite (prompt_read _ _ _ _ _ E); cbv zeta.
  rewrite C1, C2, C3; reflexivity.
Qed.

Lemma owner_menu_decrypt f (st : AppState) l ls :
  stdin st = l :: ls -> is_choice (py_strip l) 49 = true ->
  owner_menu kfuel (S f) st = app_bind owner_decrypt (fun _ => owner_menu kfuel f) (after_prompt Ev_owner_menu ls st).
Proof. intros E C; cbn [owner_menu]; rewrite (prompt_read _ _ _ _ _ E); cbv zeta; rewrite C; reflexivity. Qed.

(** Sending a message that encrypts. *)
Lemma public_send_ok (st : AppState) msg ls c :
  stdin st = msg :: ls -> encrypt_text_plainstore msg (PUBLIC_KEY st) = Ret c ->
  public_send st =
  (Done tt, set_stdout (stdout st ++ [Ev_sent]) (set_messages (MESSAGES st ++ [c]) (set_stdin ls st))).
Proof.
  intros E Hc; unfold public_send; erewrite bind_done by (unfold input; rewrite E; reflexivity).
  erewrite bind_done by reflexivity; unfold try_except; cbn [PUBLIC_KEY set_stdin]; rewrite Hc.
  reflexivity.
Qed.

(** Selecting the first item by typing "1". *)
Lemma read_selection_one `{!StrBuiltinsOk} (st : AppState) count ls :
  stdin st = [49] :: ls -> (1 <= count)%nat -> read_selection count st = (Done (Some O), set_stdin ls st).
Proof.
  intros E Hc; unfold read_selection; erewrite bind_done by (destruct st; cbn in *; subst; reflexivity).
  cbv zeta; change (py_strip [49]) with [49].
  unfold py_isdigit; cbn [forallb]; rewrite (proj1 (ascii_digit 49 ltac:(lia))); cbn [andb negb].
  erewrite bind_done by (unfold lift, int_of_digits; cbn [fold_left obind];
                         rewrite (proj2 (ascii_digit 49 ltac:(lia))); reflexivity).
  replace (0 * 10 + (49 - 48)) with 1 by reflexivity.
  destruct (Z.leb_spec (1) (Z.of_nat count)); [reflexivity | lia].
Qed.

(** Decrypting the one stored message, selected as "1". *)
Lemma owner_decrypt_one `{!StrBuiltinsOk} (st : AppState) c t ls :
  MESSAGES st = [c] -> stdin st = [49] :: ls -> decrypt_cipher_to_text c (PRIVATE_KEY st) = Ret t ->
  owner_decrypt st =
  (Done tt, set_stdout (stdout st ++ [Ev_available; Ev_message_item 1 (Z.of_nat (length t));
                                      Ev_decrypted (str_upper t)]) (set_stdin ls st)).
Proof.
  intros Hm E Hd; unfold owner_decrypt; erewrite bind_done by reflexivity; rewrite Hm.
  erewrite bind_done by reflexivity.
  erewrite bind_done by (cbn [print_messages]; unfold app_bind, lift, listed_length; cbn [PRIVATE_KEY set_stdout];
                         rewrite Hd; reflexivity).
  erewrite bind_done by (apply read_selection_one; [destruct st; cbn in *; subst; reflexivity | cbn; lia]).
  cbn [nth]; unfold try_except; cbn [PRIVATE_KEY set_stdin set_stdout]; rewrite Hd.
  unfold print, modify; cbn; rewrite <- !app_assoc; reflexivity.
Qed.

Lemma owner_menu_sign f (st : AppState) l ls :
  stdin st = l :: ls -> is_choice (py_strip l) 49 = false -> is_choice (py_strip l) 50 = true ->
  owner_menu kfuel (S f) st = app_bind owner_sign (fun _ => owner_menu kfuel f) (after_prompt Ev_owner_menu ls st).
Proof. intros E C1 C2; cbn [owner_menu]; rewrite (prompt_read _ _ _ _ _ E); cbv zeta; rewrite C1, C2; reflexivity. Qed.

Lemma owner_menu_exit f (st : AppState) l ls :
  stdin st = l :: ls -> is_choice (py_strip l) 49 = false -> is_choice (py_strip l) 50 = false ->
  is_choice (py_strip l) 51 = false -> is_choice (py_strip l) 52 = false -> is_choice (py_strip l) 53 = true ->
  owner_menu kfuel (S f) st = (Done tt, after_prompt Ev_owner_menu ls st).
Proof.
  intros E C1 C2 C3 C4 C5; cbn [owner_menu]; rewrite (prompt_read _ _ _ _ _ E); cbv zeta.
  rewrite C1, C2, C3, C4, C5; reflexivity.
Qed.

Lemma public_menu_authenticate f (st : AppState) l ls :
  stdin st = l :: ls -> is_choice (py_strip l) 49 = false -> is_choice (py_strip l) 50 = true ->
  public_user_menu (S f) st =
  app_bind public_authenticate (fun _ => public_user_menu f) (after_prompt Ev_public_menu ls st).
Proof. intros E C1 C2; cbn [public_user_menu]; rewrite (prompt_read _ _ _ _ _ E); cbv zeta; rewrite C1, C2; reflexivity. Qed.

(** Signing a line that encodes below [n]. *)
Lemma owner_sign_ok (st : AppState) m ls sg :
  stdin st = m :: ls -> sign_text m (PRIVATE_KEY st) = Ret sg ->
  owner_sign st =
  (Done tt, set_stdout (stdout st ++ [Ev_signed]) (set_signatures (SIGNATURES st ++ [(m, sg)]) (set_stdin ls st))).
Proof.
  intros E Hs; unfold owner_sign; erewrite bind_done by (unfold input; rewrite E; reflexivity).
  erewrite bind_done by reflexivity; unfold try_except; cbn [PRIVATE_KEY set_stdin]; rewrite Hs.
  reflexivity.
Qed.

(** Authenticating the one stored signature, selected as "1". *)
Lemma public_authenticate_one `{!StrBuiltinsOk} (st : AppState) m sg b ls :
  SIGNATURES st = [(m, sg)] -> stdin st = [49] :: ls -> verify_text m sg (PUBLIC_KEY st) = Ret b ->
  public_authenticate st =
  (Done tt, set_stdout (stdout st ++ [Ev_available; Ev_signature_item 1 m;
                                      if b then Ev_signature_valid else Ev_signature_not_valid])
                       (set_stdin ls st)).
Proof.
  intros Hs E Hv; unfold public_authenticate; erewrite bind_done by reflexivity; rewrite Hs.
  erewrite bind_done by reflexivity.
  erewrite bind_done by reflexivity.
  erewrite bind_done by (apply read_selection_one; [destruct st; cbn in *; subst; reflexivity | cbn; lia]).
  cbn [nth]; erewrite bind_done by (unfold lift; cbn [PUBLIC_KEY set_stdin set_stdout]; rewrite Hv; reflexivity).
  unfold print, modify; cbn; rewrite <- !app_assoc; reflexivity.
Qed.
(** C36: [main()] at the main menu's prompt with no line left: closing the
    input ends the program with an uncaught [EOFError], a traceback,
    while Ctrl-C prints "Interrupted. Exiting." and exits with status 0. *)
Lemma main_input_end f (st : AppState) :
  stdin st = [] ->
  main kfuel (S f) st =
  match stdin_end st with
  | At_EOF => (Raise EOFError, set_stdout (stdout st ++ [Ev_main_menu]) st)
  | At_interrupt => (Exit 0, set_stdout (stdout st ++ [Ev_main_menu; Ev_interrupted]) st)
  end.
Proof.
  intros E; unfold main, catch_interrupt; cbn [main_menu].
  erewrite bind_done by reflexivity; unfold app_bind at 1, input; cbn [stdin set_stdout]; rewrite E.
  destruct st as [pub priv ms ss r inp [|] out]; cbn; [reflexivity |].
  rewrite <- app_assoc; reflexivity.
Qed.

End Steps.

(** C9: the application delivers a message: when the public user sends a
    message (a string of scalar values, not starting with NUL, whose
    integer is below [n]) and the owner then decrypts the one stored
    message, the owner is shown the message's length and the message
    itself in upper case, under a valid key pair of two primes.  The
    session is: "1" (public user), "1" (send), the message, "3" (back),
    "2" (owner), "1" (decrypt), "1" (the first message). *)
Theorem send_then_decrypt {R : Type} `{RandomSource R} `{StrBuiltinsOk} kfuel fuel bits msg m rest
    (st : @AppState R) :
  valid_keypair bits (PUBLIC_KEY st) (PRIVATE_KEY st) ->
  Z.prime (priv_p (PRIVATE_KEY st)) -> Z.prime (priv_q (PRIVATE_KEY st)) ->
  MESSAGES st = [] -> Forall scalar msg -> hd 0 msg <> 0 ->
  text_to_int msg = Ret m -> m < pub_n (PUBLIC_KEY st) ->
  stdin st = [49] :: [49] :: msg :: [51] :: [50] :: [49] :: [49] :: rest ->
  (3 <= fuel)%nat ->
  exists out, stdout (snd (main_menu kfuel fuel st)) =
    stdout st ++ [Ev_main_menu; Ev_public_menu; Ev_sent; Ev_public_menu; Ev_main_menu; Ev_owner_menu;
                  Ev_available; Ev_message_item 1 (Z.of_nat (length msg)); Ev_decrypted (str_upper msg)] ++ out.
Proof.
  intros Hv Hp Hq Hms Hs Hh Hm Hlt Hin Hf.
  assert (Hpy : py_str msg) by (eapply Forall_impl; [| exact Hs]; intros x [Hx _]; exact Hx).
  assert (He : 0 <= pub_e (PUBLIC_KEY st)) by (destruct Hv as (_&_&_&_&_&_&_&He&_); lia).
  pose proof (encrypt_small msg (PUBLIC_KEY st) m He Hpy Hm Hlt) as Henc.
  set (c := m ^ pub_e (PUBLIC_KEY st) mod pub_n (PUBLIC_KEY st)) in Henc; clearbody c.
  assert (Hdec : decrypt_cipher_to_text c (PRIVATE_KEY st) = Ret msg).
  { rewrite (decrypt_encrypt_text _ _ _ Hv Hp Hq msg c Hs Henc).
    destruct msg as [| x msg]; [cbn in Hh; congruence |]; cbn in Hh.
    destruct x; [congruence | reflexivity | reflexivity]. }
  destruct fuel as [| [| [| f]]]; try lia.
  rewrite (main_menu_public kfuel _ st _ _ Hin eq_refl).
  erewrite bind_step by (eapply public_menu_send; reflexivity).
  rewrite bind_assoc; erewrite bind_done by (eapply public_send_ok; [reflexivity | exact Henc]).
  erewrite bind_done by (eapply public_menu_exit; reflexivity).
  erewrite (main_menu_owner kfuel _ _ [50]) by reflexivity.
  erewrite bind_step by (eapply owner_menu_decrypt; reflexivity).
  rewrite bind_assoc.
  erewrite bind_done by (eapply owner_decrypt_one; [cbn; rewrite Hms; reflexivity | reflexivity | exact Hdec]).
  match goal with |- context [app_bind (owner_menu kfuel f) ?k ?s] =>
    destruct (app_rel_bind _ _ _ (proj1 (proj2 (output_grows_rel kfuel)) f)
                (fun _ => proj1 (output_grows_rel kfuel) (S f)) s) as [out E] end.
  exists out; rewrite E; cbn; rewrite <- !app_assoc; reflexivity.
Qed.

Definition session20 (lines : list (list Z)) : @AppState (list Z) :=
  {| PUBLIC_KEY := pub20; PRIVATE_KEY := priv20; MESSAGES := []; SIGNATURES := [];
     rng := []; stdin := lines; stdin_end := At_EOF; stdout := [] |}.

Lemma send_then_decrypt_witness :
  exists out, stdout (snd (main_menu 1 6 (session20 [[49]; [49]; hello; [51]; [50]; [49]; [49]; [53]; [51]]))) =
    [Ev_main_menu; Ev_public_menu; Ev_sent; Ev_public_menu; Ev_main_menu; Ev_owner_menu;
     Ev_available; Ev_message_item 1 5; Ev_decrypted hello] ++ out.
Proof.
  exact (send_then_decrypt 1 6 20 hello 310400273487 [[53]; [51]] (session20 _)
           key20_valid key20_p_prime key20_q_prime eq_refl hello_scalar ltac:(discriminate)
           eq_refl ltac:(vm_compute; reflexivity) eq_refl ltac:(lia)).
Defined.

(** C10: the application authenticates what the owner signs: when the
    owner signs a line (a string whose integer is below [n]) and a
    public user then authenticates the one stored signature, the user
    is told the signature is valid, under a valid key pair of two
    primes.  The session is: "2" (owner), "2" (sign), the line, "5"
    (back), "1" (public user), "2" (authenticate), "1" (the first
    signature). *)
Theorem sign_then_authenticate {R : Type} `{RandomSource R} `{StrBuiltinsOk} kfuel fuel bits msg m rest
    (st : @AppState R) :
  valid_keypair bits (PUBLIC_KEY st) (PRIVATE_KEY st) ->
  Z.prime (priv_p (PRIVATE_KEY st)) -> Z.prime (priv_q (PRIVATE_KEY st)) ->
  SIGNATURES st = [] -> py_str msg ->
  text_to_int msg = Ret m -> m < priv_n (PRIVATE_KEY st) ->
  stdin st = [50] :: [50] :: msg :: [53] :: [49] :: [50] :: [49] :: rest ->
  (3 <= fuel)%nat ->
  exists out, stdout (snd (main_menu kfuel fuel st)) =
    stdout st ++ [Ev_main_menu; Ev_owner_menu; Ev_signed; Ev_owner_menu; Ev_main_menu; Ev_public_menu;
                  Ev_available; Ev_signature_item 1 msg; Ev_signature_valid] ++ out.
Proof.
  intros Hv Hp Hq Hss Hpy Hm Hlt Hin Hf.
  assert (Hd : 0 <= priv_d (PRIVATE_KEY st)) by (destruct Hv as (_&_&_&_&_&_&_&_&_&Hd&_); lia).
  pose proof (sign_small msg (PRIVATE_KEY st) m Hd Hpy Hm Hlt) as Hsg.
  set (sg := m ^ priv_d (PRIVATE_KEY st) mod priv_n (PRIVATE_KEY st)) in Hsg; clearbody sg.
  pose proof (verify_signed_text _ _ _ Hv Hp Hq msg sg Hpy Hsg) as Hver.
  destruct fuel as [| [| [| f]]]; try lia.
  erewrite (main_menu_owner kfuel _ _ [50]) by (exact Hin || reflexivity).
  erewrite bind_step by (eapply owner_menu_sign; reflexivity).
  rewrite bind_assoc; erewrite bind_done by (eapply owner_sign_ok; [reflexivity | exact Hsg]).
  erewrite bind_done by (eapply owner_menu_exit; reflexivity).
  erewrite (main_menu_public kfuel _ _ [49]) by reflexivity.
  erewrite bind_step by (eapply public_menu_authenticate; reflexivity).
  rewrite bind_assoc.
  erewrite bind_done by (eapply public_authenticate_one; [cbn; rewrite Hss; reflexivity | reflexivity | exact Hver]).
  match goal with |- context [app_bind (public_user_menu f) ?k ?s] =>
    destruct (app_rel_bind _ _ _ (proj2 (proj2 (output_grows_rel kfuel)) f)
                (fun _ => proj1 (output_grows_rel kfuel) (S f)) s) as [out E] end.
  exists out; rewrite E; cbn; rewrite <- !app_assoc; reflexivity.
Qed.

Lemma sign_then_authenticate_witness :
  exists out, stdout (snd (main_menu 1 6 (session20 [[50]; [50]; hello; [53]; [49]; [50]; [49]; [51]; [51]]))) =
    [Ev_main_menu; Ev_owner_menu; Ev_signed; Ev_owner_menu; Ev_main_menu; Ev_public_menu;
     Ev_available; Ev_signature_item 1 hello; Ev_signature_valid] ++ out.
Proof.
  exact (sign_then_authenticate 1 6 20 hello 310400273487 [[51]; [51]] (session20 _)
           key20_valid key20_p_prime key20_q_prime eq_refl hello_py_str
           eq_refl ltac:(vm_compute; reflexivity) eq_refl ltac:(lia)).
Defined.

Lemma main_input_end_witness :
  stdin (session []) = [] /\
  main 1 1 (session []) = (Raise EOFError, set_stdout [Ev_main_menu] (session [])).
Proof. split; [reflexivity | exact (main_input_end 1 O (session []) eq_refl)]. Defined.
