(* ===== verification/Store.v ===== *)
(** The contract between the menus of RSA.py and the stores they keep:
    an abstract machine over the key pair and the two stores
    ([MESSAGES], [SIGNATURES]), whose only steps are storing a
    ciphertext of the current public key, storing a signature made with
    the current private key, and replacing the key pair by one
    [generate_keypair(256)] returns.  The menus of [App] refine it: every
    run of [main_menu], whatever its input and however it ends, moves
    the stores by a sequence of those steps.  From the abstract machine
    alone: the stores only grow, so key regeneration (owner's option 4)
    keeps every stored message and signature. *)

From Stdlib Require Import ZArith Lia List RelationClasses.
From S2P Require Import Prelude Random KeyGen Crypto App.
Import ListNotations.
Open Scope Z_scope.

(** ** The abstract machine *)

Record Store := {
  s_pub : PublicKey;
  s_priv : PrivateKey;
  s_msgs : list Z;
  s_sigs : list (list Z * Z)
}.

Section Spec.
Context {R : Type} `{RandomSource R}.
Variable kfuel : nat.

Inductive store_step : Store -> Store -> Prop :=
| step_send s msg c :
    encrypt_text_plainstore msg (s_pub s) = Ret c ->
    store_step s {| s_pub := s_pub s; s_priv := s_priv s; s_msgs := s_msgs s ++ [c]; s_sigs := s_sigs s |}
| step_sign s m sg :
    sign_text m (s_priv s) = Ret sg ->
    store_step s {| s_pub := s_pub s; s_priv := s_priv s; s_msgs := s_msgs s; s_sigs := s_sigs s ++ [(m, sg)] |}
| step_regen s pub priv (r r' : R) :
    generate_keypair kfuel 256 r = Ret (pub, priv, r') ->
    store_step s {| s_pub := pub; s_priv := priv; s_msgs := s_msgs s; s_sigs := s_sigs s |}.

Inductive steps : Store -> Store -> Prop :=
| steps_refl s : steps s s
| steps_cons s1 s2 s3 : store_step s1 s2 -> steps s2 s3 -> steps s1 s3.

Lemma steps_trans s1 s2 s3 : steps s1 s2 -> steps s2 s3 -> steps s1 s3.
Proof. induction 1; eauto using steps_cons. Qed.

Lemma steps_one s1 s2 : store_step s1 s2 -> steps s1 s2.
Proof. intros; eapply steps_cons; [eassumption | constructor]. Qed.

(** The stores only grow along the machine. *)
Lemma steps_grow s s' :
  steps s s' -> (exists ms, s_msgs s' = s_msgs s ++ ms) /\ (exists ss, s_sigs s' = s_sigs s ++ ss).
Proof.
  induction 1 as [s | s1 s2 s3 Hs _ [[ms Em] [ss Es]]]; [split; exists []; symmetry; apply app_nil_r |].
  inversion Hs; subst; cbn in *; split; eexists; rewrite ?Em, ?Es, <- ?app_assoc; reflexivity.
Qed.
End Spec.

(** ** The refinement *)

(** What the machine sees of the application's state. *)
Definition abstract {R : Type} (st : @AppState R) : Store :=
  {| s_pub := PUBLIC_KEY st; s_priv := PRIVATE_KEY st; s_msgs := MESSAGES st; s_sigs := SIGNATURES st |}.

Section Refinement.
Context {R : Type} `{RandomSource R} `{StrBuiltins}.
Variable kfuel : nat.

Definition refines (st st' : @AppState R) : Prop := steps kfuel (abstract st) (abstract st').

#[export] Instance refines_preorder : PreOrder refines.
Proof.
  split; [intros st; apply steps_refl | intros s1 s2 s3; apply steps_trans].
Qed.

Lemma menu_refines fuel (st : @AppState R) : refines st (snd (main_menu kfuel fuel st)).
Proof.
  apply main_menu_rel; try typeclasses eauto.
  - intros s ev; apply steps_refl.
  - intros s l ls _; apply steps_refl.
  - intros s msg c E; apply steps_one; exact (step_send kfuel (abstract s) msg c E).
  - intros s m sg E; apply steps_one; exact (step_sign kfuel (abstract s) m sg E).
  - intros s pub priv r E; apply steps_one; exact (step_regen kfuel (abstract s) pub priv (rng s) r E).
Qed.

(** C11: the menus refine the abstract store machine: from any state,
    whatever the input lines and however the run ends (by [sys.exit],
    an exception or out of fuel), the keys and stores [main_menu]
    leaves are reached from the ones it started with by storing
    ciphertexts of the current public key, storing signatures made with
    the current private key, and replacing the key pair by one
    [generate_keypair(256)] returns. *)
Theorem main_menu_refines fuel (st : @AppState R) :
  steps kfuel (abstract st) (abstract (snd (main_menu kfuel fuel st))).
Proof. exact (menu_refines fuel st). Qed.

(** C19: nothing stored is ever lost or changed: the message and
    signature stores [main_menu] leaves extend the ones it started
    with, also across the owner's key regeneration. *)
Theorem stores_grow fuel (st : @AppState R) :
  (exists ms, s_msgs (abstract (snd (main_menu kfuel fuel st))) = s_msgs (abstract st) ++ ms) /\
  (exists ss, s_sigs (abstract (snd (main_menu kfuel fuel st))) = s_sigs (abstract st) ++ ss).
Proof. exact (steps_grow kfuel _ _ (menu_refines fuel st)). Qed.
End Refinement.
