(* ===== verification/Graph.v ===== *)
(** The graph demo of [src/Project3/Project3/project3.py]: it builds an
    undirected weighted graph [G] from the list [edges] (lines 4-15),
    runs networkx's Dijkstra from ["A"] (lines 17-19), prints the
    distances and paths (lines 21-24), builds the shortest-path-tree
    edges (lines 59-62), and runs networkx's Prim (lines 26, 29).  What
    is printed of the tree and the figure are in [Output].

    networkx is a library: [add_edge], [dijkstra] and [prim] below follow
    its [Graph.add_edge], [_dijkstra_multisource] and [prim_mst_edges],
    and are not code of the repository.  Prim starts from [nodes.pop()]
    on a Python set, an element that depends on string hashing, so
    [prim] takes the start node as an argument and the theorems hold for
    every start.

    Theorems: [add_edge] keeps the invariant of an [nx.Graph] and
    stores the weight it is given; the distances are shortest (a potential certificate: a
    lower bound on every walk, checked on every edge) and the printed
    paths are the only shortest paths; the shortest-path-tree edges are
    edges of [G], one per node but the source, each tight; Prim returns
    the same tree from every start, and no connected spanning subgraph
    of [G] weighs less. *)

From Stdlib Require Import ZArith Lia List String.
From S2P Require Import Prelude.
Import ListNotations.
Open Scope Z_scope.
Open Scope bool_scope.

(** ** Graphs as networkx builds them *)

Definition node := string.
Definition wedge : Type := node * node * Z.

(** An [nx.Graph]: its nodes in insertion order and its edges, each
    once, in insertion order, with its weight. *)
Record graph := { g_nodes : list node; g_edges : list wedge }.

Definition empty_graph : graph := {| g_nodes := []; g_edges := [] |}.

Definition mem (v : node) (vs : list node) : bool := existsb (String.eqb v) vs.

(** Is [e] the edge [{u, v}], in either orientation? *)
Definition same_edge (u v : node) (e : wedge) : bool :=
  let '(a, b, _) := e in ((a =? u)%string && (b =? v)%string) || ((a =? v)%string && (b =? u)%string).

Definition add_node (v : node) (vs : list node) : list node := if mem v vs then vs else vs ++ [v].

(** [G.add_edge(u, v, weight=w)]: new nodes are appended; an existing
    edge keeps its place and gets the new weight. *)
Definition add_edge (g : graph) (u v : node) (w : Z) : graph :=
  {| g_nodes := add_node v (add_node u (g_nodes g));
     g_edges := if existsb (same_edge u v) (g_edges g)
                then map (fun e => if same_edge u v e then let '(a, b, _) := e in (a, b, w) else e) (g_edges g)
                else g_edges g ++ [(u, v, w)] |}.

(** [G.add_weighted_edges_from(es)] *)
Definition add_weighted_edges_from (es : list wedge) (g : graph) : graph :=
  fold_left (fun g e => let '(u, v, w) := e in add_edge g u v w) es g.

(** The weight of the edge [{u, v}], if any. *)
Definition weight (g : graph) (u v : node) : option Z :=
  match find (same_edge u v) (g_edges g) with Some (_, _, w) => Some w | None => None end.

(** [G.adj[v]]: the neighbours of [v] with the weights, in the order
    the edges were added. *)
Definition neighbors (g : graph) (v : node) : list (node * Z) :=
  flat_map (fun e => let '(a, b, w) := e in
                     if (a =? v)%string then [(b, w)] else if (b =? v)%string then [(a, w)] else [])
           (g_edges g).

(** [G.edges(data=True)]: for each node in order, the edges to the
    neighbours not yet visited, in the order of [G.adj[n]]
    ([seen[n] = 1] after the node's neighbours). *)
Fixpoint edges_view_from (g : graph) (ns seen : list node) : list wedge :=
  match ns with
  | [] => []
  | n :: ns' =>
      flat_map (fun vw => let '(v, w) := vw in if mem v seen then [] else [(n, v, w)]) (neighbors g n)
        ++ edges_view_from g ns' (seen ++ [n])
  end.

Definition edges_view (g : graph) : list wedge := edges_view_from g (g_nodes g) [].

(** The invariant of an [nx.Graph]: the ends of every edge are nodes,
    the nodes are distinct, and no two edges join the same two nodes. *)
Fixpoint edges_unique (es : list wedge) : Prop :=
  match es with
  | [] => True
  | (a, b, _) :: es' => (forall e, In e es' -> same_edge a b e = false) /\ edges_unique es'
  end.

Definition graph_wf (g : graph) : Prop :=
  NoDup (g_nodes g) /\
  (forall a b w, In (a, b, w) (g_edges g) -> In a (g_nodes g) /\ In b (g_nodes g)) /\
  edges_unique (g_edges g).

(** ** The program's data (lines 4-17) *)

Definition edges : list wedge := [
  ("A","B",22); ("A","C",9); ("A","D",12);
  ("B","C",35); ("B","E",34); ("B","F",36);
  ("C","D",4); ("C","E",65); ("C","F",42);
  ("D","E",33); ("D","I",30);
  ("E","F",18); ("E","G",23); ("F","G",39); ("F","H",24);
  ("G","H",25); ("G","I",21); ("H","I",19)]%string.

Definition G : graph := add_weighted_edges_from edges empty_graph.

Definition start_node : node := "A"%string.

(** ** Association lists as Python dicts *)

(** [d.get(k)] *)
Fixpoint lookup {A} (k : node) (d : list (node * A)) : option A :=
  match d with
  | [] => None
  | (k', a) :: d' => if (k =? k')%string then Some a else lookup k d'
  end.

(** [d[k] = a]: an existing key keeps its place, a new one is appended. *)
Fixpoint assoc_set {A} (k : node) (a : A) (d : list (node * A)) : list (node * A) :=
  match d with
  | [] => [(k, a)]
  | (k', a') :: d' => if (k =? k')%string then (k', a) :: d' else (k', a') :: assoc_set k a d'
  end.

(** ** A binary heap as a list

    [heapq] pops the least entry; the entries are tuples whose second
    component is a counter, unique, so the order is [(key, counter)]. *)

Definition before {B} (x y : Z * nat * B) : bool :=
  let '(k1, c1, _) := x in let '(k2, c2, _) := y in (k1 <? k2) || ((k1 =? k2) && (c1 <? c2)%nat).

Fixpoint least {B} (x : Z * nat * B) (l : list (Z * nat * B)) : Z * nat * B :=
  match l with [] => x | y :: l' => least (if before y x then y else x) l' end.

Fixpoint remove_count {B} (c : nat) (l : list (Z * nat * B)) : list (Z * nat * B) :=
  match l with
  | [] => []
  | ((_, c', _) as y) :: l' => if (c' =? c)%nat then l' else y :: remove_count c l'
  end.

(** [heappop(h)] *)
Definition heappop {B} (h : list (Z * nat * B)) : option ((Z * nat * B) * list (Z * nat * B)) :=
  match h with
  | [] => None
  | x :: l => let '(k, c, b) := least x l in Some ((k, c, b), remove_count c h)
  end.

(** ** Dijkstra ([_dijkstra_multisource] of networkx, one source) *)

Record dstate := {
  dist : list (node * Z);                  (* final distances, in the order fixed *)
  seen : list (node * Z);                  (* best distances found so far *)
  fringe : list (Z * nat * node);          (* the heap *)
  counter : nat;                           (* next(c) *)
  paths : list (node * list node)          (* paths[u] *)
}.

(** The relaxation loop [for u, e in G_succ[v].items()]. *)
Fixpoint relax (v : node) (dv : Z) (nbrs : list (node * Z)) (st : dstate) : outcome dstate :=
  match nbrs with
  | [] => Ret st
  | (u, cost) :: nbrs' =>
      let vu_dist := dv + cost in
      let push := {| dist := dist st; seen := assoc_set u vu_dist (seen st);
                     fringe := fringe st ++ [(vu_dist, counter st, u)]; counter := S (counter st);
                     paths := assoc_set u (match lookup v (paths st) with Some p => p | None => [] end ++ [u])
                                        (paths st) |} in
      match lookup u (dist st) with
      | Some u_dist => if vu_dist <? u_dist then Throw ValueError_contradictory else relax v dv nbrs' st
      | None =>
          match lookup u (seen st) with
          | Some s => if vu_dist <? s then relax v dv nbrs' push else relax v dv nbrs' st
          | None => relax v dv nbrs' push
          end
      end
  end.

(** The loop [while fringe]. *)
Fixpoint dijkstra_loop (g : graph) (fuel : nat) (st : dstate) : outcome dstate :=
  match fuel with
  | O => OutOfFuel
  | S fuel' =>
      match heappop (fringe st) with
      | None => Ret st
      | Some ((d, _, v), fr) =>
          let st := {| dist := dist st; seen := seen st; fringe := fr; counter := counter st;
                       paths := paths st |} in
          match lookup v (dist st) with
          | Some _ => dijkstra_loop g fuel' st
          | None =>
              let st := {| dist := dist st ++ [(v, d)]; seen := seen st; fringe := fringe st;
                           counter := counter st; paths := paths st |} in
              st' <- relax v d (neighbors g v) st ;;
              dijkstra_loop g fuel' st'
          end
      end
  end.

(** Every iteration pops an entry and at most one entry is pushed per
    source and per edge end, so [2 |E| + 1] iterations empty the heap. *)
Definition dijkstra_fuel (g : graph) : nat := S (S (2 * List.length (g_edges g))).

(** [single_source_dijkstra(G, source)]: the distances and the paths. *)
Definition single_source_dijkstra (g : graph) (source : node) : outcome (list (node * Z) * list (node * list node)) :=
  st <- dijkstra_loop g (dijkstra_fuel g)
          {| dist := []; seen := [(source, 0)]; fringe := [(0, O, source)]; counter := 1%nat;
             paths := [(source, [source])] |} ;;
  Ret (dist st, paths st).

(** [distances = nx.single_source_dijkstra_path_length(G, start_node)] *)
Definition distances : outcome (list (node * Z)) :=
  r <- single_source_dijkstra G start_node ;; Ret (fst r).

(** [paths = nx.single_source_dijkstra_path(G, start_node)] *)
Definition shortest_paths : outcome (list (node * list node)) :=
  r <- single_source_dijkstra G start_node ;; Ret (snd r).

(** The lines printed by part (a), [(node, dist, paths[node])] for each
    item of [distances], in its order; [paths[node]] raises [KeyError]
    on a node without a path. *)
Fixpoint report_lines (ds : list (node * Z)) (ps : list (node * list node)) : outcome (list (node * Z * list node)) :=
  match ds with
  | [] => Ret []
  | (v, d) :: ds' =>
      match lookup v ps with
      | None => Throw KeyError
      | Some p => rest <- report_lines ds' ps ;; Ret ((v, d, p) :: rest)
      end
  end.

Definition report_a : outcome (list (node * Z * list node)) :=
  ds <- distances ;; ps <- shortest_paths ;; report_lines ds ps.

(** [SPT_edges]: for each path of more than one node, its last edge. *)
Fixpoint spt_edges_of (ps : list (node * list node)) : list (node * node) :=
  match ps with
  | [] => []
  | (_, p) :: ps' =>
      match rev p with
      | last :: prev :: _ => (prev, last) :: spt_edges_of ps'
      | _ => spt_edges_of ps'
      end
  end.

Definition SPT_edges : outcome (list (node * node)) :=
  ps <- shortest_paths ;; Ret (spt_edges_of ps).

(** ** Walks and the shortest-path certificate *)

(** [walk g s p v c]: the node list [p] is a walk in [g] from [s] to
    [v] of weight [c], built edge by edge from its end. *)
Inductive walk (g : graph) (s : node) : list node -> node -> Z -> Prop :=
| walk_start : walk g s [s] s 0
| walk_step p u v w c : walk g s p u c -> weight g u v = Some w -> walk g s (p ++ [v]) v (c + w).

(** The weight of a reversed node list read as a walk from [s]. *)
Fixpoint cost_rev (g : graph) (s : node) (rp : list node) : option Z :=
  match rp with
  | [] => None
  | [v] => if (v =? s)%string then Some 0 else None
  | v :: ((u :: _) as rp') =>
      match weight g u v, cost_rev g s rp' with Some w, Some c => Some (c + w) | _, _ => None end
  end.

(** Every edge is relaxed: both ends have a distance, and neither is
    more than the other plus the weight. *)
Definition feasible (g : graph) (ds : list (node * Z)) : bool :=
  forallb (fun e => let '(a, b, w) := e in
             match lookup a ds, lookup b ds with
             | Some da, Some db => (db <=? da + w) && (da <=? db + w)
             | _, _ => false
             end) (g_edges g).

Definition path_eqb (p q : list node) : bool :=
  if list_eq_dec string_dec p q then true else false.

(** A tight edge [u -> v] ([d v = d u + w]) extends the path of [u] to
    the path of [v]. *)
Definition tight_ok (ds : list (node * Z)) (ps : list (node * list node)) (u v : node) (w : Z) : bool :=
  match lookup u ds, lookup v ds with
  | Some du, Some dv =>
      if dv =? du + w then
        match lookup u ps, lookup v ps with
        | Some pu, Some pv => path_eqb pv (pu ++ [v])
        | _, _ => false
        end
      else true
  | _, _ => true
  end.

Definition chained (g : graph) (ds : list (node * Z)) (ps : list (node * list node)) : bool :=
  forallb (fun e => let '(a, b, w) := e in tight_ok ds ps a b w && tight_ok ds ps b a w) (g_edges g).

(** Every node has a distance and a path whose reversal is a walk of
    that weight. *)
Definition realised (g : graph) (s : node) (ds : list (node * Z)) (ps : list (node * list node)) : bool :=
  forallb (fun v => match lookup v ds, lookup v ps with
                    | Some d, Some p => match cost_rev g s (rev p) with
                                        | Some c => (c =? d) && (match rev p with v' :: _ => (v' =? v)%string | [] => false end)
                                        | None => false
                                        end
                    | _, _ => false
                    end) (g_nodes g).

(** *** From the checks to walks *)

Lemma weight_in g u v w :
  weight g u v = Some w -> exists a b, In (a, b, w) (g_edges g) /\ same_edge u v (a, b, w) = true.
Proof.
  unfold weight; destruct (find (same_edge u v) (g_edges g)) as [[[a b] w']|] eqn:E; [| discriminate].
  intros H; injection H as ->; apply find_some in E as [Hin Hs]; eauto.
Qed.

Lemma same_edge_cases u v a b w :
  same_edge u v (a, b, w) = true -> (a = u /\ b = v) \/ (a = v /\ b = u).
Proof.
  unfold same_edge; intros H; apply Bool.orb_true_iff in H as [H | H]; apply andb_prop in H as [H1 H2];
    apply String.eqb_eq in H1, H2; subst; auto.
Qed.

Lemma cost_rev_walk g s rp c :
  cost_rev g s rp = Some c -> exists v rp', rp = v :: rp' /\ walk g s (rev rp) v c.
Proof.
  revert c; induction rp as [| v rp IH]; intros c H; [discriminate |].
  destruct rp as [| u rp].
  - cbn [cost_rev] in H; destruct (String.eqb_spec v s); [| discriminate]; injection H as <-; subst.
    exists s, []; split; [reflexivity | constructor].
  - change (match weight g u v, cost_rev g s (u :: rp) with
            | Some w, Some c => Some (c + w) | _, _ => None end = Some c) in H.
    destruct (weight g u v) as [w |] eqn:Ew; [| discriminate].
    destruct (cost_rev g s (u :: rp)) as [c' |] eqn:Ec; [| discriminate]; injection H as <-.
    destruct (IH c' eq_refl) as (u' & rp' & E & Hw); injection E as <- <-.
    exists v, (u :: rp); split; [reflexivity |]; cbn [rev] in *; econstructor; eassumption.
Qed.

Section Certificate.
Variables (g : graph) (s : node) (ds : list (node * Z)) (ps : list (node * list node)).
Hypothesis Hsource : lookup s ds = Some 0.
Hypothesis Hsource_path : lookup s ps = Some [s].
Hypothesis Hfeasible : feasible g ds = true.
Hypothesis Hchained : chained g ds ps = true.

Lemma relaxed u v w :
  weight g u v = Some w -> exists du dv, lookup u ds = Some du /\ lookup v ds = Some dv /\ dv <= du + w.
Proof.
  intros Hw; destruct (weight_in _ _ _ _ Hw) as (a & b & Hin & Hs).
  unfold feasible in Hfeasible; rewrite forallb_forall in Hfeasible.
  specialize (Hfeasible _ Hin); cbn in Hfeasible.
  destruct (lookup a ds) as [da |] eqn:Ea, (lookup b ds) as [db |] eqn:Eb; try discriminate.
  apply andb_prop in Hfeasible as [H1 H2]; apply Z.leb_le in H1, H2.
  destruct (same_edge_cases _ _ _ _ _ Hs) as [[-> ->] | [-> ->]]; eauto 7.
Qed.

(** No walk from the source is shorter than the distance of its end. *)
Lemma walk_lower_bound p v c : walk g s p v c -> exists dv, lookup v ds = Some dv /\ dv <= c.
Proof.
  induction 1 as [| p u v w c Hw IH Hwt]; [exists 0; split; [exact Hsource | lia] |].
  destruct IH as (du & Hdu & Hle); destruct (relaxed _ _ _ Hwt) as (du' & dv & Hu & Hv & Hr).
  rewrite Hu in Hdu; injection Hdu as ->; exists dv; split; [exact Hv | lia].
Qed.

Lemma tight_edge u v w du dv :
  weight g u v = Some w -> lookup u ds = Some du -> lookup v ds = Some dv -> dv = du + w ->
  exists pu, lookup u ps = Some pu /\ lookup v ps = Some (pu ++ [v]).
Proof.
  intros Hw Hu Hv Ht; destruct (weight_in _ _ _ _ Hw) as (a & b & Hin & Hs).
  unfold chained in Hchained; rewrite forallb_forall in Hchained.
  specialize (Hchained _ Hin); cbn in Hchained; apply andb_prop in Hchained as [H1 H2].
  assert (Hok : tight_ok ds ps u v w = true)
    by (destruct (same_edge_cases _ _ _ _ _ Hs) as [[-> ->] | [-> ->]]; assumption).
  unfold tight_ok in Hok; rewrite Hu, Hv, Ht, Z.eqb_refl in Hok.
  destruct (lookup u ps) as [pu |], (lookup v ps) as [pv |]; try discriminate.
  unfold path_eqb in Hok; destruct (list_eq_dec string_dec pv (pu ++ [v])) as [-> | ]; [eauto | discriminate].
Qed.

(** A walk as short as the distance of its end is the recorded path. *)
Lemma shortest_walk_unique p v c : walk g s p v c -> lookup v ds = Some c -> lookup v ps = Some p.
Proof.
  induction 1 as [| p u v w c Hw IH Hwt]; intros Hv; [exact Hsource_path |].
  destruct (walk_lower_bound _ _ _ Hw) as (du & Hu & Hle).
  destruct (relaxed _ _ _ Hwt) as (du' & dv & Hu' & Hv' & Hr).
  rewrite Hu in Hu'; injection Hu' as <-; rewrite Hv in Hv'; injection Hv' as <-.
  assert (du = c) by lia; subst du.
  destruct (tight_edge u v w c (c + w) Hwt Hu Hv eq_refl) as (pu & Hpu & Hpv).
  rewrite (IH Hu) in Hpu; injection Hpu as <-; exact Hpv.
Qed.
End Certificate.

Lemma realised_walks g s ds ps :
  realised g s ds ps = true ->
  forall v, In v (g_nodes g) -> exists d p, lookup v ds = Some d /\ lookup v ps = Some p /\ walk g s p v d.
Proof.
  unfold realised; rewrite forallb_forall; intros H v Hv; specialize (H v Hv).
  destruct (lookup v ds) as [d |], (lookup v ps) as [p |]; try discriminate.
  destruct (cost_rev g s (rev p)) as [c |] eqn:Ec; [| discriminate].
  apply andb_prop in H as [Hc Hl]; apply Z.eqb_eq in Hc; subst c.
  destruct (cost_rev_walk _ _ _ _ Ec) as (v' & rp & Er & Hw).
  rewrite Er in Hl; apply String.eqb_eq in Hl; subst v'.
  rewrite rev_involutive in Hw; eauto.
Qed.

(** The checks a run of Dijkstra is certified by. *)
Definition certified (g : graph) (s : node) (r : outcome (list (node * Z) * list (node * list node))) : bool :=
  match r with
  | Ret (ds, ps) =>
      feasible g ds && chained g ds ps && realised g s ds ps &&
      match lookup s ds with Some Z0 => true | _ => false end &&
      match lookup s ps with Some [s'] => (s' =? s)%string | _ => false end
  | _ => false
  end.

(** Soundness of the checker: a certified run gives every node of the
    graph a distance and a path realising it, no walk from the source
    is shorter, and every walk as short is the path given. *)
Lemma certified_sound g s r :
  certified g s r = true ->
  exists ds ps, r = Ret (ds, ps) /\
    (forall v, In v (g_nodes g) -> exists d p, lookup v ds = Some d /\ lookup v ps = Some p /\ walk g s p v d) /\
    (forall v d p c, lookup v ds = Some d -> walk g s p v c -> d <= c) /\
    (forall v p c, lookup v ds = Some c -> walk g s p v c -> lookup v ps = Some p).
Proof.
  destruct r as [[ds ps] | |]; cbn; try discriminate.
  intros H; repeat (apply andb_prop in H as [H ?]).
  destruct (lookup s ds) as [[| |] |] eqn:Hs; try discriminate.
  destruct (lookup s ps) as [[| s' [|]] |] eqn:Hp; try discriminate.
  match goal with Hq : (s' =? s)%string = true |- _ => apply String.eqb_eq in Hq; subst s' end.
  exists ds, ps; split; [reflexivity | split; [| split]].
  - apply realised_walks; assumption.
  - intros v d p c Hd Hw; destruct (walk_lower_bound g s ds Hs ltac:(assumption) _ _ _ Hw) as (d' & E & Hle).
    rewrite Hd in E; injection E as <-; exact Hle.
  - intros v p c Hc Hw; eapply shortest_walk_unique; eassumption.
Qed.

(** C31: the distances and paths the demo prints are the shortest ones:
    networkx's Dijkstra from ["A"] returns on [G], every node of [G]
    gets a distance and a path of that weight, no walk from ["A"] to a
    node weighs less than its distance, and the printed path is the only
    walk that weighs as little, so the output does not depend on how
    networkx breaks ties. *)
Theorem dijkstra_shortest :
  exists ds ps, distances = Ret ds /\ shortest_paths = Ret ps /\
    (forall v, In v (g_nodes G) -> exists d p, lookup v ds = Some d /\ lookup v ps = Some p /\ walk G start_node p v d) /\
    (forall v d p c, lookup v ds = Some d -> walk G start_node p v c -> d <= c) /\
    (forall v p c, lookup v ds = Some c -> walk G start_node p v c -> lookup v ps = Some p).
Proof.
  assert (H : certified G start_node (single_source_dijkstra G start_node) = true) by (vm_compute; reflexivity).
  destruct (certified_sound _ _ _ H) as (ds & ps & E & H1 & H2 & H3).
  exists ds, ps; unfold distances, shortest_paths; rewrite E; auto.
Qed.

(** ** The shortest-path tree edges *)

Lemma mem_In v vs : mem v vs = true <-> In v vs.
Proof.
  unfold mem; rewrite existsb_exists; split.
  - intros (x & Hx & E); apply String.eqb_eq in E; subst; exact Hx.
  - intros H; exists v; split; [exact H | apply String.eqb_refl].
Qed.

Fixpoint nodup_b (l : list node) : bool :=
  match l with [] => true | x :: l' => negb (mem x l') && nodup_b l' end.

Lemma nodup_b_NoDup l : nodup_b l = true -> NoDup l.
Proof.
  induction l as [| x l IH]; cbn; intros H; [constructor |].
  apply andb_prop in H as [H1 H2]; constructor; [| auto].
  rewrite <- mem_In; destruct (mem x l); [discriminate | auto].
Qed.

(** The tree edges: their heads are the nodes but the source, each
    once, and each edge is in the graph and tight. *)
Definition spt_ok (g : graph) (s : node) (ds : list (node * Z)) (es : list (node * node)) : bool :=
  nodup_b (map snd es) &&
  forallb (fun v => mem v (g_nodes g) && negb (v =? s)%string) (map snd es) &&
  forallb (fun v => (v =? s)%string || mem v (map snd es)) (g_nodes g) &&
  forallb (fun e => let '(a, b) := e in
             match weight g a b, lookup a ds, lookup b ds with
             | Some w, Some da, Some db => db =? da + w
             | _, _, _ => false
             end) es.

Lemma spt_ok_sound g s ds es :
  spt_ok g s ds es = true ->
  NoDup (map snd es) /\ (forall v, In v (map snd es) <-> In v (g_nodes g) /\ v <> s) /\
  Forall (fun e => exists w da db, weight g (fst e) (snd e) = Some w /\ lookup (fst e) ds = Some da /\
                                   lookup (snd e) ds = Some db /\ db = da + w) es.
Proof.
  unfold spt_ok; intros H.
  apply andb_prop in H as [H H4]; apply andb_prop in H as [H H3]; apply andb_prop in H as [H1 H2].
  split; [apply nodup_b_NoDup; assumption | split].
  - intros v; split.
    + intros Hv; rewrite forallb_forall in H2; specialize (H2 v Hv).
      apply andb_prop in H2 as [Hm Hn].
      split; [apply mem_In; exact Hm | intros ->; rewrite String.eqb_refl in Hn; discriminate].
    + intros [Hv Hne]; rewrite forallb_forall in H3; specialize (H3 v Hv).
      apply Bool.orb_true_iff in H3 as [E | E];
        [apply String.eqb_eq in E; contradiction | apply mem_In; exact E].
  - apply Forall_forall; intros [a b] Hin.
    rewrite forallb_forall in H4; specialize (H4 _ Hin).
    cbn in *; destruct (weight g a b), (lookup a ds), (lookup b ds); try discriminate.
    apply Z.eqb_eq in H4; eauto 7.
Qed.

(** C34: the edges drawn as the shortest-path tree (lines 59-62) form
    one: every node but ["A"] is the head of exactly one of them and
    ["A"] of none, and each is an edge of [G] whose head's distance is
    its tail's plus its weight. *)
Theorem spt_edges_tree :
  exists es ds, SPT_edges = Ret es /\ distances = Ret ds /\
    NoDup (map snd es) /\ (forall v, In v (map snd es) <-> In v (g_nodes G) /\ v <> start_node) /\
    Forall (fun e => exists w da db, weight G (fst e) (snd e) = Some w /\ lookup (fst e) ds = Some da /\
                                     lookup (snd e) ds = Some db /\ db = da + w) es.
Proof.
  assert (H : match SPT_edges, distances with
              | Ret es, Ret ds => spt_ok G start_node ds es
              | _, _ => false end = true) by (vm_compute; reflexivity).
  destruct SPT_edges as [es | |], distances as [ds | |]; try discriminate.
  exists es, ds; split; [reflexivity | split; [reflexivity | apply spt_ok_sound; exact H]].
Qed.

(** ** Prim ([prim_mst_edges] of networkx, minimum) *)

(** [for w, d2 in G.adj[v].items(): if w in visited: continue; push(...)] *)
Fixpoint push_frontier (v : node) (nbrs : list (node * Z)) (visited : list node)
    (frontier : list (Z * nat * (node * node))) (c : nat) : list (Z * nat * (node * node)) * nat :=
  match nbrs with
  | [] => (frontier, c)
  | (w, wt) :: nbrs' =>
      if mem w visited then push_frontier v nbrs' visited frontier c
      else push_frontier v nbrs' visited (frontier ++ [(wt, c, (v, w))]) (S c)
  end.

Definition remove_node (v : node) (nodes : list node) : list node :=
  filter (fun x => negb (x =? v)%string) nodes.

(** The loop [while nodes and frontier]: it returns the nodes left, the
    counter and the edges yielded so far. *)
Fixpoint prim_inner (g : graph) (fuel : nat) (nodes visited : list node)
    (frontier : list (Z * nat * (node * node))) (c : nat) (acc : list wedge)
    : outcome (list node * nat * list wedge) :=
  match fuel with
  | O => OutOfFuel
  | S fuel' =>
      match nodes with
      | [] => Ret (nodes, c, acc)
      | _ :: _ =>
          match heappop frontier with
          | None => Ret (nodes, c, acc)
          | Some ((W, _, (u, v)), fr) =>
              if mem v visited || negb (mem v nodes) then prim_inner g fuel' nodes visited fr c acc
              else
                let '(fr', c') := push_frontier v (neighbors g v) (visited ++ [v]) fr c in
                prim_inner g fuel' (remove_node v nodes) (visited ++ [v]) fr' c' (acc ++ [(u, v, W)])
          end
      end
  end.

(** One round of the loop [while nodes]: [u = nodes.pop()], its
    frontier, and the inner loop. *)
Definition prim_round (g : graph) (fuel : nat) (u : node) (nodes : list node) (c : nat) (acc : list wedge)
    : outcome (list node * nat * list wedge) :=
  let '(fr, c') := push_frontier u (neighbors g u) [u] [] c in
  prim_inner g fuel (remove_node u nodes) [u] fr c' acc.

(** The loop [while nodes]; [pick nodes] is the element [nodes.pop()]
    returns, which depends on the hashes of the strings. *)
Fixpoint prim_outer (g : graph) (pick : list node -> node) (fuel : nat) (nodes : list node) (c : nat)
    (acc : list wedge) : outcome (list wedge) :=
  match fuel with
  | O => OutOfFuel
  | S fuel' =>
      match nodes with
      | [] => Ret acc
      | _ :: _ =>
          r <- prim_round g fuel' (pick nodes) nodes c acc ;;
          let '(nodes', c', acc') := r in
          prim_outer g pick fuel' nodes' c' acc'
      end
  end.

(** Every inner iteration pops an entry, every outer one removes a
    node: [|V| + 2 |E| + 1] iterations are enough. *)
Definition prim_fuel (g : graph) : nat := S (S (List.length (g_nodes g) + 2 * List.length (g_edges g))).

Definition prim (pick : list node -> node) (g : graph) : outcome (list wedge) :=
  prim_outer g pick (prim_fuel g) (g_nodes g) O [].

(** [MST = nx.minimum_spanning_tree(G, algorithm='prim')]: the nodes of
    [G] and the edges Prim yields. *)
Definition MST (pick : list node -> node) : outcome graph :=
  es <- prim pick G ;; Ret (add_weighted_edges_from es {| g_nodes := g_nodes G; g_edges := [] |}).

Definition weight_sum (es : list wedge) : Z := fold_left (fun acc e => let '(_, _, w) := e in acc + w) es 0.

(** [total_weight = sum(data['weight'] for u, v, data in MST.edges(data=True))] *)
Definition total_weight (pick : list node -> node) : outcome Z :=
  T <- MST pick ;; Ret (weight_sum (edges_view T)).

(** ** Connected spanning subgraphs and their weight *)

(** [reachable es s v]: [v] is reached from [s] along edges of [es]. *)
Inductive reachable (es : list wedge) (s : node) : node -> Prop :=
| reach_refl : reachable es s s
| reach_step u v w : reachable es s u -> (In (u, v, w) es \/ In (v, u, w) es) -> reachable es s v.

(** The edges of [l] the mask keeps. *)
Fixpoint select {A} (mask : list bool) (l : list A) : list A :=
  match mask, l with
  | b :: m, x :: l' => if b then x :: select m l' else select m l'
  | _, _ => []
  end.

(** Nodes one edge away from [S], added. *)
Definition grow (es : list wedge) (S : list node) : list node :=
  fold_left (fun S e => let '(a, b, _) := e in
               if mem a S && negb (mem b S) then S ++ [b]
               else if mem b S && negb (mem a S) then S ++ [a] else S) es S.

Fixpoint close (fuel : nat) (es : list wedge) (S : list node) : list node :=
  match fuel with
  | O => S
  | S f => let S' := grow es S in if (List.length S' =? List.length S)%nat then S else close f es S'
  end.

(** No edge of [es] leaves [T]. *)
Definition closed_b (es : list wedge) (T : list node) : bool :=
  forallb (fun e => let '(a, b, _) := e in Bool.eqb (mem a T) (mem b T)) es.

(** A certificate that [es] does not connect [nodes] from [s]: a set
    closed under [es] holding [s] and missing a node. *)
Definition disconnected (nodes : list node) (s : node) (es : list wedge) : bool :=
  let T := close (List.length nodes) es [s] in
  closed_b es T && mem s T && negb (forallb (fun v => mem v T) nodes).

(** Every subset of [rest] added to [chosen] weighs at least [bound] or
    is certified disconnected; a subset already as heavy as [bound] is
    not split further. *)
Fixpoint light_disconnected (bound : Z) (nodes : list node) (s : node) (rest chosen : list wedge) : bool :=
  if bound <=? weight_sum chosen then true
  else match rest with
       | [] => disconnected nodes s chosen
       | e :: rest' => light_disconnected bound nodes s rest' (chosen ++ [e]) &&
                       light_disconnected bound nodes s rest' chosen
       end.

Lemma closed_reach es T s v :
  closed_b es T = true -> mem s T = true -> reachable es s v -> mem v T = true.
Proof.
  intros Hc Hs; induction 1 as [| u v w _ IH Hin]; [exact Hs |].
  unfold closed_b in Hc; rewrite forallb_forall in Hc.
  destruct Hin as [Hin | Hin]; specialize (Hc _ Hin); cbn in Hc; apply Bool.eqb_prop in Hc; congruence.
Qed.

Lemma disconnected_sound nodes s es :
  disconnected nodes s es = true -> ~ (forall v, In v nodes -> reachable es s v).
Proof.
  unfold disconnected; intros H Hall.
  apply andb_prop in H as [H Hn]; apply andb_prop in H as [Hc Hs].
  assert (Hf : forallb (fun v => mem v (close (List.length nodes) es [s])) nodes = true)
    by (apply forallb_forall; intros v Hv; eapply closed_reach; eauto).
  rewrite Hf in Hn; discriminate.
Qed.

Lemma weight_sum_acc es a : fold_left (fun acc e => let '(_, _, w) := e in acc + w) es a = a + weight_sum es.
Proof.
  unfold weight_sum; revert a; induction es as [| [[x y] w] es IH]; intros a; cbn; [lia |].
  rewrite (IH (a + w)); first [rewrite (IH (0 + w)) | rewrite (IH w)]; lia.
Qed.

Lemma weight_sum_app es1 es2 : weight_sum (es1 ++ es2) = weight_sum es1 + weight_sum es2.
Proof. unfold weight_sum at 1; rewrite fold_left_app, weight_sum_acc; reflexivity. Qed.

Lemma weight_sum_nonneg es : Forall (fun e => 0 <= snd e) es -> 0 <= weight_sum es.
Proof.
  induction 1 as [| [[x y] w] es Hw _ IH]; [cbn; lia |].
  unfold weight_sum at 1; cbn [fold_left]; rewrite weight_sum_acc; cbn in Hw; lia.
Qed.

Lemma select_Forall {A} (P : A -> Prop) mask l : Forall P l -> Forall P (select mask l).
Proof.
  revert l; induction mask as [| b m IH]; intros [| x l] H; cbn; try constructor.
  inversion H; subst; destruct b; [constructor |]; auto.
Qed.

(** Soundness of the enumeration: every connected spanning subgraph
    made of [chosen] and some edges of [rest] weighs at least [bound]. *)
Lemma light_disconnected_sound bound nodes s rest chosen :
  Forall (fun e => 0 <= snd e) rest ->
  light_disconnected bound nodes s rest chosen = true ->
  forall mask, List.length mask = List.length rest ->
  (forall v, In v nodes -> reachable (chosen ++ select mask rest) s v) ->
  bound <= weight_sum (chosen ++ select mask rest).
Proof.
  revert chosen; induction rest as [| e rest IH]; intros chosen Hnn H mask Hl Hconn; cbn [light_disconnected] in H.
  - destruct mask; [| discriminate]; cbn [select] in *; rewrite app_nil_r in *.
    destruct (Z.leb_spec bound (weight_sum chosen)); [assumption |].
    exfalso; exact (disconnected_sound _ _ _ H Hconn).
  - destruct (Z.leb_spec bound (weight_sum chosen)).
    + rewrite weight_sum_app; pose proof (weight_sum_nonneg _ (select_Forall _ mask _ Hnn)); lia.
    + apply andb_prop in H as [Hin Hout]; inversion Hnn; subst.
      destruct mask as [| [|] mask]; [discriminate | |]; cbn in Hl, Hconn |- *; injection Hl as Hl.
      * replace (chosen ++ e :: select mask rest) with ((chosen ++ [e]) ++ select mask rest)
          in * by (rewrite <- app_assoc; reflexivity).
        apply IH; assumption.
      * apply IH; assumption.
Qed.

(** *** Connectivity from [close] *)

Lemma grow_reach es s l S :
  incl l es -> (forall x, In x S -> reachable es s x) ->
  forall x, In x (fold_left (fun S e => let '(a, b, _) := e in
               if mem a S && negb (mem b S) then S ++ [b]
               else if mem b S && negb (mem a S) then S ++ [a] else S) l S) -> reachable es s x.
Proof.
  revert S; induction l as [| [[a b] w] l IH]; intros S Hl HS; cbn [fold_left]; [exact HS |].
  apply IH; [intros e He; apply Hl; right; exact He |].
  assert (He : In (a, b, w) es) by (apply Hl; left; reflexivity).
  intros x Hx; destruct (mem a S && negb (mem b S)) eqn:E1.
  - apply in_app_or in Hx as [Hx | [<- | []]]; [auto |].
    apply andb_prop in E1 as [Ha _]; apply mem_In in Ha; eapply reach_step; [apply HS, Ha | left; exact He].
  - destruct (mem b S && negb (mem a S)) eqn:E2; [| auto].
    apply in_app_or in Hx as [Hx | [<- | []]]; [auto |].
    apply andb_prop in E2 as [Hb _]; apply mem_In in Hb; eapply reach_step; [apply HS, Hb | right; exact He].
Qed.

Lemma close_reach es s fuel S :
  (forall x, In x S -> reachable es s x) -> forall x, In x (close fuel es S) -> reachable es s x.
Proof.
  revert S; induction fuel as [| f IH]; intros S HS; cbn [close]; [exact HS |].
  destruct (_ =? _)%nat; [exact HS |]; apply IH; apply grow_reach; [apply incl_refl | exact HS].
Qed.

Definition connects_b (nodes : list node) (s : node) (es : list wedge) : bool :=
  forallb (fun v => mem v (close (List.length nodes) es [s])) nodes.

Lemma connects_b_sound nodes s es :
  connects_b nodes s es = true -> forall v, In v nodes -> reachable es s v.
Proof.
  unfold connects_b; rewrite forallb_forall; intros H v Hv; specialize (H v Hv); apply mem_In in H.
  eapply close_reach; [| exact H]; intros x [<- | []]; constructor.
Qed.

(** *** Edge sets up to orientation *)

Definition edge_in (es : list wedge) (u v : node) (w : Z) : Prop := In (u, v, w) es \/ In (v, u, w) es.

Definition edge_in_b (es : list wedge) (u v : node) (w : Z) : bool :=
  existsb (fun e => let '(a, b, w') := e in same_edge u v (a, b, w') && (w' =? w)) es.

Lemma edge_in_b_sound es u v w : edge_in_b es u v w = true -> edge_in es u v w.
Proof.
  unfold edge_in_b; rewrite existsb_exists; intros ([[a b] w'] & Hin & H).
  apply andb_prop in H as [Hs Hw]; apply Z.eqb_eq in Hw; subst w'.
  destruct (same_edge_cases _ _ _ _ _ Hs) as [[-> ->] | [-> ->]]; [left | right]; exact Hin.
Qed.

Definition same_edges_b (es es' : list wedge) : bool :=
  forallb (fun e => let '(a, b, w) := e in edge_in_b es' a b w) es &&
  forallb (fun e => let '(a, b, w) := e in edge_in_b es a b w) es'.

Lemma same_edges_dir es es' :
  forallb (fun e => let '(a, b, w) := e in edge_in_b es' a b w) es = true ->
  forall u v w, edge_in es u v w -> edge_in es' u v w.
Proof.
  rewrite forallb_forall; intros H u v w [Hin | Hin]; specialize (H _ Hin); cbn in H;
    apply edge_in_b_sound in H; [exact H | destruct H; [right | left]; assumption].
Qed.

Lemma same_edges_sound es es' :
  same_edges_b es es' = true -> forall u v w, edge_in es u v w <-> edge_in es' u v w.
Proof.
  unfold same_edges_b; intros H; apply andb_prop in H as [H1 H2].
  split; [apply (same_edges_dir _ _ H1) | apply (same_edges_dir _ _ H2)].
Qed.

(** *** The minimum spanning tree of [G] *)

Lemma prim_outer_step g pick f nodes c acc :
  nodes <> [] ->
  prim_outer g pick (S f) nodes c acc =
  obind (prim_round g f (pick nodes) nodes c acc) (fun r => let '(n', c', a') := r in prim_outer g pick f n' c' a').
Proof. destruct nodes; [contradiction | reflexivity]. Qed.

Lemma prim_outer_done g pick f c acc : f <> O -> prim_outer g pick f [] c acc = Ret acc.
Proof. destruct f; [contradiction | reflexivity]. Qed.

(** What [prim] returns on [G] is what its first round returns from
    the start [nodes.pop()] picks, when that round empties the nodes: a
    property checked on the round from each node holds of [prim]. *)
Lemma prim_starts (P : list wedge -> bool) (pick : list node -> node) :
  (forall l, l <> [] -> In (pick l) l) ->
  forallb (fun u => match prim_round G (pred (prim_fuel G)) u (g_nodes G) O [] with
                    | Ret ([], _, es) => P es
                    | _ => false
                    end) (g_nodes G) = true ->
  exists es, prim pick G = Ret es /\ P es = true.
Proof.
  intros Hpick Hall.
  assert (Hne : g_nodes G <> []) by (vm_compute; discriminate).
  rewrite forallb_forall in Hall; specialize (Hall _ (Hpick _ Hne)).
  destruct (prim_round G (pred (prim_fuel G)) (pick (g_nodes G)) (g_nodes G) O []) as [[[[| x r] c] es] | |]
    eqn:E; try discriminate.
  exists es; split; [| exact Hall].
  unfold prim; change (prim_fuel G) with (S (pred (prim_fuel G))).
  rewrite prim_outer_step, E by exact Hne; cbn [obind].
  apply prim_outer_done; vm_compute; discriminate.
Qed.

Definition mst_reference : list wedge :=
  [("A","C",9); ("C","D",4); ("A","B",22); ("D","I",30);
   ("I","H",19); ("I","G",21); ("G","E",23); ("E","F",18)]%string.

(** The tree Prim returns from each start: the edges of
    [mst_reference], all of [G], connecting every node, of weight 146
    as [MST.edges] sums it. *)
Definition prim_tree_ok (es : list wedge) : bool :=
  same_edges_b es mst_reference && connects_b (g_nodes G) start_node es &&
  forallb (fun e => let '(a, b, w) := e in edge_in_b (g_edges G) a b w) es &&
  (List.length es =? 8)%nat &&
  (weight_sum (edges_view (add_weighted_edges_from es {| g_nodes := g_nodes G; g_edges := [] |})) =? 146).


(** C32: Prim's tree, whatever node [nodes.pop()] starts from: networkx's
    Prim returns on [G], its edges are those of [mst_reference] (up to
    orientation), eight edges of [G] that connect all nine nodes, and
    the total weight the demo prints is 146. *)
Theorem prim_spanning_tree (pick : list node -> node) :
  (forall l, l <> [] -> In (pick l) l) ->
  exists es, prim pick G = Ret es /\ total_weight pick = Ret 146 /\
    (forall u v w, edge_in es u v w <-> edge_in mst_reference u v w) /\
    List.length es = 8%nat /\
    Forall (fun e => let '(a, b, w) := e in edge_in (g_edges G) a b w) es /\
    (forall v, In v (g_nodes G) -> reachable es start_node v).
Proof.
  intros Hpick.
  destruct (prim_starts prim_tree_ok pick Hpick) as (es & Hprim & Hok); [vm_compute; reflexivity |].
  unfold prim_tree_ok in Hok.
  repeat match goal with H : _ && _ = true |- _ => apply andb_prop in H as [? ?] end.
  exists es; split; [exact Hprim | split; [| split; [| split; [| split]]]].
  - unfold total_weight, MST; rewrite Hprim; cbn [obind]; f_equal; apply Z.eqb_eq; assumption.
  - apply same_edges_sound; assumption.
  - apply Nat.eqb_eq; assumption.
  - apply Forall_forall; intros [[a b] w] Hin.
    match goal with H : forallb _ es = true |- _ => rewrite forallb_forall in H; specialize (H _ Hin) end.
    apply edge_in_b_sound; assumption.
  - apply connects_b_sound; assumption.
Qed.

(** C33: the minimum: every subgraph of [G] that connects all its nodes
    weighs at least 146, the weight of Prim's tree. *)
Theorem mst_minimal mask :
  List.length mask = List.length (g_edges G) ->
  (forall v, In v (g_nodes G) -> reachable (select mask (g_edges G)) start_node v) ->
  146 <= weight_sum (select mask (g_edges G)).
Proof.
  intros Hl Hc.
  assert (H : forallb (fun e => 0 <=? snd e) (g_edges G) = true) by (vm_compute; reflexivity).
  apply (light_disconnected_sound 146 (g_nodes G) start_node (g_edges G) []);
    [| vm_compute; reflexivity | exact Hl | exact Hc].
  apply Forall_forall; intros e He; rewrite forallb_forall in H; apply Z.leb_le, H, He.
Qed.

Lemma mst_minimal_witness :
  List.length (repeat true 18) = List.length (g_edges G) /\
  146 <= weight_sum (select (repeat true 18) (g_edges G)).
Proof.
  assert (Hl : List.length (repeat true 18) = List.length (g_edges G)) by (vm_compute; reflexivity).
  split; [exact Hl | apply mst_minimal; [exact Hl |]].
  apply connects_b_sound; vm_compute; reflexivity.
Defined.

Lemma prim_spanning_tree_witness :
  exists es, prim (fun l => hd start_node l) G = Ret es /\ total_weight (fun l => hd start_node l) = Ret 146.
Proof.
  destruct (prim_spanning_tree (fun l => hd start_node l)) as (es & H1 & H2 & _).
  - intros [| x l] Hl; [contradiction | left; reflexivity].
  - exists es; split; assumption.
Defined.

(** ** The graph invariant *)

Lemma same_edge_sym u v e : same_edge u v e = same_edge v u e.
Proof. destruct e as [[a b] w]; unfold same_edge; destruct (a =? u)%string, (b =? v)%string, (a =? v)%string, (b =? u)%string; reflexivity. Qed.

Lemma same_edge_weight u v a b w w' : same_edge u v (a, b, w) = same_edge u v (a, b, w').
Proof. reflexivity. Qed.

Lemma add_node_spec v vs : NoDup vs -> NoDup (add_node v vs) /\ (forall x, In x (add_node v vs) <-> In x vs \/ x = v).
Proof.
  intros Hd; unfold add_node; destruct (mem v vs) eqn:E.
  - apply mem_In in E; split; [exact Hd | intros x; split; [auto | intros [H | ->]; auto]].
  - split.
    + apply NoDup_app; [exact Hd | constructor; [intros [] | constructor] |].
      intros x Hx [<- | []]; apply mem_In in Hx; congruence.
    + intros x; rewrite in_app_iff; cbn; intuition.
Qed.

(** Two edges with the same ends: [same_edge] depends on the ends only. *)
Lemma same_edge_ends a b a' b' e :
  same_edge a b (a', b', 0) = true -> same_edge a b e = same_edge a' b' e.
Proof.
  intros H; destruct (same_edge_cases _ _ _ _ _ H) as [[-> ->] | [-> ->]]; [reflexivity | apply same_edge_sym].
Qed.

Lemma edges_unique_update u v w es :
  edges_unique es ->
  edges_unique (map (fun e => if same_edge u v e then let '(a, b, _) := e in (a, b, w) else e) es).
Proof.
  induction es as [| [[a b] w0] es IH]; [cbn; auto |]; intros H; cbn [edges_unique] in H.
  destruct H as [Hn Hu]; cbn [map].
  assert (Hm : forall e, In e (map (fun e => if same_edge u v e then let '(a, b, _) := e in (a, b, w) else e) es) ->
                         same_edge a b e = false).
  { intros e He; apply in_map_iff in He as ([[a' b'] w'] & <- & Hin).
    specialize (Hn _ Hin); destruct (same_edge u v (a', b', w')); exact Hn. }
  destruct (same_edge u v (a, b, w0)); cbn [edges_unique]; split; auto.
Qed.

Lemma same_edge_swap a b u v w w0 : same_edge a b (u, v, w) = same_edge u v (a, b, w0).
Proof.
  unfold same_edge; rewrite (String.eqb_sym u a), (String.eqb_sym v b), (String.eqb_sym u b), (String.eqb_sym v a).
  destruct (a =? u)%string, (b =? v)%string, (b =? u)%string, (a =? v)%string; reflexivity.
Qed.

Lemma edges_unique_snoc es u v w :
  edges_unique es -> existsb (same_edge u v) es = false -> edges_unique (es ++ [(u, v, w)]).
Proof.
  induction es as [| [[a b] w0] es IH]; intros Hu Hx; cbn [app edges_unique].
  - split; [intros e [] | exact I].
  - cbn [existsb] in Hx; apply Bool.orb_false_iff in Hx as [Hab Hx].
    cbn [edges_unique] in Hu; destruct Hu as [Hn Hu]; split; [| auto].
    intros e He; apply in_app_or in He as [He | [<- | []]]; [auto |].
    rewrite same_edge_swap with (w0 := w0); exact Hab.
Qed.

Lemma add_edge_wf g u v w : graph_wf g -> graph_wf (add_edge g u v w).
Proof.
  intros (Hd & He & Hu); unfold graph_wf, add_edge; cbn [g_nodes g_edges].
  destruct (add_node_spec u _ Hd) as [Hd1 Hi1]; destruct (add_node_spec v _ Hd1) as [Hd2 Hi2].
  split; [exact Hd2 | split].
  - intros a b w' Hin; rewrite !Hi2, !Hi1.
    destruct (existsb (same_edge u v) (g_edges g)) eqn:Ex.
    + apply in_map_iff in Hin as ([[a' b'] w''] & E & Hin).
      destruct (same_edge u v (a', b', w'')); injection E as <- <- _; destruct (He _ _ _ Hin); auto.
    + apply in_app_or in Hin as [Hin | [E | []]]; [destruct (He _ _ _ Hin); auto |].
      injection E as <- <- _; auto.
  - destruct (existsb (same_edge u v) (g_edges g)) eqn:Ex;
      [apply edges_unique_update | apply edges_unique_snoc]; assumption.
Qed.

Lemma add_weighted_edges_from_wf es g : graph_wf g -> graph_wf (add_weighted_edges_from es g).
Proof.
  unfold add_weighted_edges_from; revert g; induction es as [| [[u v] w] es IH]; intros g Hg; cbn; [exact Hg |].
  apply IH, add_edge_wf, Hg.
Qed.

Lemma find_app {A} (f : A -> bool) l l' :
  find f (l ++ l') = match find f l with Some x => Some x | None => find f l' end.
Proof. induction l as [| x l IH]; cbn; [reflexivity | destruct (f x); [reflexivity | exact IH]]. Qed.

(** Insert then look up: the weight of the edge just added is the one
    given, in both orientations. *)
Lemma add_edge_weight g u v w : weight (add_edge g u v w) u v = Some w /\ weight (add_edge g u v w) v u = Some w.
Proof.
  assert (Hfind : forall x y, same_edge x y (u, v, w) = true -> weight (add_edge g u v w) x y = Some w).
  { intros x y Hxy; unfold weight, add_edge; cbn [g_edges].
    destruct (existsb (same_edge u v) (g_edges g)) eqn:Ex.
    - apply existsb_exists in Ex as ([[a b] w0] & Hin & Hs).
      destruct (find (same_edge x y) _) as [[[a' b'] w'] |] eqn:F.
      + apply find_some in F as [Hin' Hs']; apply in_map_iff in Hin' as ([[a'' b''] w''] & E & _).
        destruct (same_edge u v (a'', b'', w'')) eqn:Hs''; injection E as <- <- <-; [reflexivity |].
        rewrite (same_edge_ends x y u v (a'', b'', w'')) in Hs' by exact Hxy; congruence.
      + exfalso; eapply find_none in F; [| apply in_map_iff; exists (a, b, w0); split; [reflexivity | exact Hin]].
        rewrite Hs in F; cbv beta iota zeta in F; rewrite (same_edge_ends x y u v (a, b, w)) in F by exact Hxy.
        change (same_edge u v (a, b, w)) with (same_edge u v (a, b, w0)) in F; congruence.
    - rewrite find_app; destruct (find (same_edge x y) (g_edges g)) as [[[a b] w0] |] eqn:F.
      + exfalso; apply find_some in F as [Hin Hs].
        rewrite (same_edge_ends x y u v) in Hs by exact Hxy.
        assert (existsb (same_edge u v) (g_edges g) = true) by (apply existsb_exists; eauto).
        congruence.
      + cbn [find]; change (same_edge x y (u, v, w)) with (same_edge x y (u, v, w)); rewrite Hxy; reflexivity. }
  split; apply Hfind; unfold same_edge; rewrite !String.eqb_refl; cbn; [reflexivity | apply Bool.orb_true_r].
Qed.
