(* ===== verification/Output.v ===== *)
(** What the graph demo of [src/Project3/Project3/project3.py] shows,
    and the script as a whole: the lines part (b) prints (lines 26-32)
    from [MST.edges(data=True)], the figure (lines 34-76) as the marks
    each networkx drawing call puts in each of its three panels, and
    [project3], the script's lines composed in order.

    Edge iteration is networkx's [EdgeView] ([edges_view] of [Graph]): a
    general theorem shows that on any graph whose edge ends are distinct
    nodes it lists every edge once, from the end added to the graph
    first.  On the demo: the printed MST lines are the eight tree
    edges, each from its earlier node, whatever node [set.pop()] starts
    Prim from, but their order depends on that node; the figure is
    drawn without error and every highlighted segment lies on a drawn
    edge of [G]. *)

From Stdlib Require Import ZArith QArith Lia List String Permutation.
From S2P Require Import Prelude Graph.
Import ListNotations.
Open Scope Z_scope.
Open Scope bool_scope.

(** ** Edge iteration *)

(** What the inner loop at node [n] yields for the edge [e], when the
    nodes of [seen] have been visited. *)
Definition yield_at (n : node) (seen : list node) (e : wedge) : list wedge :=
  let '(a, b, w) := e in
  if (a =? n)%string then (if mem b seen then [] else [(n, b, w)])
  else if (b =? n)%string then (if mem a seen then [] else [(n, a, w)]) else [].

(** What the whole loop over [ns] yields for the edge [e]. *)
Fixpoint yields (ns seen : list node) (e : wedge) : list wedge :=
  match ns with
  | [] => []
  | n :: ns' => yield_at n seen e ++ yields ns' (seen ++ [n]) e
  end.

(** [first_of x y ns]: [x] comes before [y] in [ns]. *)
Fixpoint first_of (x y : node) (ns : list node) : bool :=
  match ns with
  | [] => false
  | n :: ns' => if (x =? n)%string then true else if (y =? n)%string then false else first_of x y ns'
  end.

(** The edge [e] from the end that comes first in [ns]. *)
Definition orient (ns : list node) (e : wedge) : wedge :=
  let '(a, b, w) := e in if first_of b a ns then (b, a, w) else (a, b, w).

(** ** Part (b): lines 26-32 *)

(** A line of part (b); the texts are the f-strings of the code. *)
Inductive line_b :=
| Header_b                          (* "=== (b) Minimum Spanning Tree (Prim’s Algorithm) ===" *)
| Edge_line (u v : node) (w : Z)    (* f"{u} - {v} : {data['weight']}" *)
| Total_line (w : Z).               (* f"Total weight of MST: {total_weight}\n" *)

Definition edge_line (e : wedge) : line_b := let '(u, v, w) := e in Edge_line u v w.

(** Lines 28-32 on the tree [T] of line 26 and the sum [total_weight]
    of line 29: the header, one line per edge of
    [MST.edges(data=True)], the total. *)
Definition part_b (T : graph) (total_weight : Z) : list line_b :=
  [Header_b] ++ map edge_line (edges_view T) ++ [Total_line total_weight].

(** ** The figure: lines 34-76 *)

Definition point : Type := (Q * Q)%type.

(** [pos] (lines 35-45), the floats as the decimals the code writes. *)
Definition pos : list (node * point) :=
  [("A", (0, 3)); ("B", (1, 5)); ("C", (1.5, 3)); ("D", (1.8, 1.2)); ("E", (3.3, 4));
   ("F", (3.4, 2)); ("G", (5, 3)); ("H", (6.2, 2)); ("I", (6.2, 4.3))]%string%Q.

(** [labels = nx.get_edge_attributes(G, 'weight')] (line 47):
    [{(u, v): d['weight'] for u, v, d in G.edges(data=True)}]. *)
Definition labels : list ((node * node) * Z) :=
  map (fun e => let '(u, v, w) := e in ((u, v), w)) (edges_view G).

(** [[f(x) for x in l]] where [f] may raise. *)
Fixpoint omap {A B} (f : A -> outcome B) (l : list A) : outcome (list B) :=
  match l with
  | [] => Ret []
  | x :: l' => y <- f x ;; ys <- omap f l' ;; Ret (y :: ys)
  end.

(** [pos[v]] *)
Definition pos_of (pos : list (node * point)) (v : node) : outcome point :=
  match lookup v pos with Some p => Ret p | None => Throw KeyError end.

(** [nx.draw_networkx_nodes(G, pos, nodelist)]: each node at its
    position; a node without one raises [NetworkXError]. *)
Definition draw_nodes (pos : list (node * point)) (ns : list node) : outcome (list (node * point)) :=
  omap (fun v => match lookup v pos with Some p => Ret (v, p) | None => Throw NetworkXError_position end) ns.

(** [nx.draw_networkx_edges(G, pos, edgelist)]: a segment per edge,
    [(pos[e[0]], pos[e[1]])]. *)
Definition draw_edges (pos : list (node * point)) (es : list (node * node)) : outcome (list (point * point)) :=
  omap (fun e => p <- pos_of pos (fst e) ;; q <- pos_of pos (snd e) ;; Ret (p, q)) es.

(** [nx.draw_networkx_edge_labels(G, pos, edge_labels)]: each label on
    the segment of its edge. *)
Definition draw_edge_labels (pos : list (node * point)) (ls : list ((node * node) * Z))
    : outcome (list ((point * point) * Z)) :=
  omap (fun l => let '((u, v), w) := l in p <- pos_of pos u ;; q <- pos_of pos v ;; Ret ((p, q), w)) ls.

(** [G.edges()] without the data. *)
Definition edge_pairs (g : graph) : list (node * node) := map (fun e => let '(u, v, _) := e in (u, v)) (edges_view g).

(** A panel of the figure: what [nx.draw] (nodes with their labels and
    every edge of [G]), [nx.draw_networkx_edges] with an [edgelist]
    (width, colour, segments) and [nx.draw_networkx_edge_labels] put
    in it, and its title. *)
Record panel := {
  p_node_color : string;
  p_nodes : list (node * point);
  p_edges : list (point * point);
  p_highlight : option (Z * string * list (point * point));
  p_labels : list ((point * point) * Z);
  p_title : string
}.

(** [nx.draw(G, pos, with_labels=True, node_color=c, ...)] *)
Definition draw_graph (g : graph) (pos : list (node * point)) : outcome (list (node * point) * list (point * point)) :=
  ns <- draw_nodes pos (g_nodes g) ;; es <- draw_edges pos (edge_pairs g) ;; Ret (ns, es).

(** The panel [plt.subplot(1, 3, k)]: [nx.draw], then the highlighted
    [edgelist] if any, then the edge labels, then the title. *)
Definition draw_panel (color : string) (hl : option (Z * string * list (node * node))) (title : string)
    : outcome panel :=
  '(ns, es) <- draw_graph G pos ;;
  h <- match hl with
       | None => Ret None
       | Some (wd, c, el) => ss <- draw_edges pos el ;; Ret (Some (wd, c, ss))
       end ;;
  ls <- draw_edge_labels pos labels ;;
  Ret {| p_node_color := color; p_nodes := ns; p_edges := es; p_highlight := h; p_labels := ls;
         p_title := title |}.

(** Lines 49-76, given the tree [T] of line 26: the three panels. *)
Definition figure (T : graph) : outcome (list panel) :=
  p1 <- draw_panel "lightblue"%string None "Original Weighted Graph"%string ;;
  spt <- SPT_edges ;;
  p2 <- draw_panel "lightgreen"%string (Some (3, "green"%string, spt)) "Shortest Path Tree (Dijkstra from A)"%string ;;
  p3 <- draw_panel "lightcoral"%string (Some (3, "red"%string, edge_pairs T)) "Minimum Spanning Tree (Prim’s)"%string ;;
  Ret [p1; p2; p3].

(** ** The script *)

(** project3.py from top to bottom: part (a), [MST], part (b) with
    [total_weight], the figure; [pick] is [set.pop()] in Prim. *)
Definition project3 (pick : list node -> node)
    : outcome (list (node * Z * list node) * list line_b * list panel) :=
  a <- report_a ;;
  T <- MST pick ;;
  tw <- total_weight pick ;;
  f <- figure T ;;
  Ret (a, part_b T tw, f).

(** The lines of part (b) from [MST.edges(data=True)], when [T] is the
    tree of the demo: the eight edges, each from the node [G] lists
    first. *)
Definition mst_printed : list wedge :=
  [("A","C",9); ("A","B",22); ("C","D",4); ("D","I",30);
   ("E","G",23); ("E","F",18); ("I","H",19); ("I","G",21)]%string.

Definition wedge_eq_dec (x y : wedge) : {x = y} + {x <> y}.
Proof. repeat decide equality; first [apply string_dec | apply Z.eq_dec]. Defined.

Definition first_end (e : wedge) : node := let '(u, _, _) := e in u.

(** A start of Prim: [v] if it is left, else the first node. *)
Definition prefer (v : node) (l : list node) : node := if mem v l then v else hd start_node l.

(** What part (a) prints, as (node, distance, path) lines. *)
Definition part_a_printed : list (node * Z * list node) :=
  [("A", 0, ["A"]); ("C", 9, ["A"; "C"]); ("D", 12, ["A"; "D"]); ("B", 22, ["A"; "B"]);
   ("I", 42, ["A"; "D"; "I"]); ("E", 45, ["A"; "D"; "E"]); ("F", 51, ["A"; "C"; "F"]);
   ("H", 61, ["A"; "D"; "I"; "H"]); ("G", 63, ["A"; "D"; "I"; "G"])]%string.

(** ** Checks on concrete panels *)

Definition seg_eq_dec (s t : point * point) : {s = t} + {s <> t}.
Proof. repeat decide equality. Defined.

Definition optnat_eq_dec (x y : option nat) : {x = y} + {x <> y}.
Proof. repeat decide equality. Defined.

Definition nodes_eqb (l l' : list node) : bool := if list_eq_dec string_dec l l' then true else false.

(** Every highlighted segment is a segment of a drawn edge. *)
Definition highlight_on_edges (p : panel) : Prop :=
  match p_highlight p with
  | None => True
  | Some (_, _, ss) => forall s, In s ss -> In s (p_edges p) \/ In (snd s, fst s) (p_edges p)
  end.

Definition on_edges_b (es ss : list (point * point)) : bool :=
  forallb (fun s => if in_dec seg_eq_dec s es then true else if in_dec seg_eq_dec (snd s, fst s) es then true else false) ss.

Definition panel_ok_b (p : panel) : bool :=
  nodes_eqb (map fst (p_nodes p)) (g_nodes G) && (List.length (p_edges p) =? List.length (g_edges G))%nat &&
  match p_highlight p with None => true | Some (_, _, ss) => on_edges_b (p_edges p) ss end.

Definition highlight_count (p : panel) : option nat :=
  match p_highlight p with None => None | Some (_, _, ss) => Some (List.length ss) end.

Definition figure_ok_b (T : graph) : bool :=
  match figure T with
  | Ret ps => forallb panel_ok_b ps &&
              if list_eq_dec optnat_eq_dec (map highlight_count ps) [None; Some 8%nat; Some 8%nat]
              then true else false
  | _ => false
  end.

(** What is checked of the tree [T] of line 26, from each start. *)
Definition mst_ok (T : graph) : bool :=
  perm_b wedge_eq_dec (edges_view T) mst_printed &&
  nodes_eqb (map first_end (edges_view T)) ["A"; "A"; "C"; "D"; "E"; "E"; "I"; "I"]%string &&
  (weight_sum (edges_view T) =? 146) && figure_ok_b T.

Lemma neighbors_yield g n seen :
  flat_map (fun vw => let '(v, w) := vw in if mem v seen then [] else [(n, v, w)]) (neighbors g n) =
  flat_map (yield_at n seen) (g_edges g).
Proof.
  unfold neighbors; rewrite flat_map_flat_map; apply flat_map_ext; intros [[a b] w]; cbn.
  destruct (a =? n)%string; [| destruct (b =? n)%string]; cbn; rewrite ?app_nil_r; reflexivity.
Qed.

(** The nested loops, node by node, yield the same edges as the loops
    taken edge by edge. *)
Lemma edges_view_from_perm g ns seen :
  Permutation (edges_view_from g ns seen) (flat_map (yields ns seen) (g_edges g)).
Proof.
  revert seen; induction ns as [| n ns IH]; intros seen; cbn.
  - induction (g_edges g); cbn; [constructor | assumption].
  - rewrite neighbors_yield, IH; apply flat_map_app_perm.
Qed.

Lemma yields_nil_fst ns seen a b w : ~ In a ns -> In a seen -> yields ns seen (a, b, w) = [].
Proof.
  revert seen; induction ns as [| n ns IH]; intros seen Hns Hs; cbn; [reflexivity |].
  destruct (String.eqb_spec a n) as [-> | _]; [destruct Hns; left; reflexivity |].
  destruct (b =? n)%string; [replace (mem a seen) with true by (symmetry; apply mem_In; exact Hs) |];
    cbn; apply IH; auto using in_or_app; intros Hin; apply Hns; right; exact Hin.
Qed.

Lemma yields_nil_snd ns seen a b w : ~ In b ns -> In b seen -> yields ns seen (a, b, w) = [].
Proof.
  revert seen; induction ns as [| n ns IH]; intros seen Hns Hs; cbn; [reflexivity |].
  destruct (a =? n)%string; [replace (mem b seen) with true by (symmetry; apply mem_In; exact Hs) |].
  - cbn; apply IH; auto using in_or_app; intros Hin; apply Hns; right; exact Hin.
  - destruct (String.eqb_spec b n) as [-> | _]; [destruct Hns; left; reflexivity |].
    cbn; apply IH; auto using in_or_app; intros Hin; apply Hns; right; exact Hin.
Qed.

Lemma mem_false v vs : ~ In v vs -> mem v vs = false.
Proof. intros H; destruct (mem v vs) eqn:E; [apply mem_In in E; contradiction | reflexivity]. Qed.

(** An edge between two nodes of [ns], none of them visited, is
    yielded once, from the end met first. *)
Lemma yields_one ns seen a b w :
  NoDup ns -> In a ns -> In b ns -> (forall x, In x seen -> ~ In x ns) ->
  yields ns seen (a, b, w) = [orient ns (a, b, w)].
Proof.
  revert seen; induction ns as [| n ns IH]; intros seen Hnd Ha Hb Hs; [destruct Ha |].
  inversion Hnd as [| ? ? Hn Hnd']; subst; cbn.
  destruct (String.eqb_spec a n) as [-> | Han].
  - rewrite mem_false by (intros Hin; exact (Hs _ Hin Hb)).
    rewrite yields_nil_fst by auto using in_or_app, in_eq.
    destruct (String.eqb_spec b n) as [-> | _]; reflexivity.
  - destruct (String.eqb_spec b n) as [-> | Hbn].
    + rewrite mem_false by (intros Hin; exact (Hs _ Hin Ha)).
      rewrite yields_nil_snd by auto using in_or_app, in_eq; reflexivity.
    + destruct Ha as [-> | Ha]; [contradiction |]; destruct Hb as [-> | Hb]; [contradiction |].
      cbn; apply IH; auto.
      intros x Hx; apply in_app_or in Hx as [Hx | [<- | []]]; [intros Hin; exact (Hs _ Hx (or_intror Hin)) | exact Hn].
Qed.

(** [G.edges] of a graph whose edge ends are distinct nodes: each edge
    once, from its earlier node, in some order. *)
Lemma edges_view_perm g :
  NoDup (g_nodes g) ->
  (forall a b w, In (a, b, w) (g_edges g) -> In a (g_nodes g) /\ In b (g_nodes g)) ->
  Permutation (edges_view g) (map (orient (g_nodes g)) (g_edges g)).
Proof.
  intros Hnd Hin; unfold edges_view; rewrite edges_view_from_perm.
  induction (g_edges g) as [| [[a b] w] es IH]; cbn; [constructor |].
  destruct (Hin a b w (or_introl eq_refl)).
  rewrite yields_one by (auto; intros x []).
  apply perm_skip, IH; intros a' b' w' Hi; apply (Hin a' b' w'); right; exact Hi.
Qed.

(** ** The demo's output *)

Lemma prefer_valid v l : l <> [] -> In (prefer v l) l.
Proof.
  intros Hl; unfold prefer; destruct (mem v l) eqn:E; [apply mem_In, E |].
  destruct l as [| x l]; [contradiction | left; reflexivity].
Qed.

(** From every start, the tree of line 26 passes [mst_ok]. *)
Lemma mst_cases pick :
  (forall l, l <> [] -> In (pick l) l) ->
  exists T, MST pick = Ret T /\ total_weight pick = Ret (weight_sum (edges_view T)) /\ mst_ok T = true.
Proof.
  intros Hpick.
  destruct (prim_starts (fun es => mst_ok (add_weighted_edges_from es {| g_nodes := g_nodes G; g_edges := [] |}))
              pick Hpick) as (es & Hp & Hok); [vm_compute; reflexivity |].
  eexists; unfold total_weight, MST; rewrite Hp; cbn [obind]; split; [reflexivity | split; [reflexivity | exact Hok]].
Qed.

Lemma on_edges_b_sound es ss :
  on_edges_b es ss = true -> forall s, In s ss -> In s es \/ In (snd s, fst s) es.
Proof.
  unfold on_edges_b; rewrite forallb_forall; intros H s Hs; specialize (H s Hs).
  destruct (in_dec seg_eq_dec s es); [left; assumption |].
  destruct (in_dec seg_eq_dec (snd s, fst s) es); [right; assumption | discriminate].
Qed.

Lemma nodes_eqb_sound l l' : nodes_eqb l l' = true -> l = l'.
Proof. unfold nodes_eqb; destruct (list_eq_dec string_dec l l'); [auto | discriminate]. Qed.

Lemma panel_ok_sound p :
  panel_ok_b p = true ->
  map fst (p_nodes p) = g_nodes G /\ List.length (p_edges p) = List.length (g_edges G) /\ highlight_on_edges p.
Proof.
  unfold panel_ok_b, highlight_on_edges; intros H.
  apply andb_prop in H as [H Hh]; apply andb_prop in H as [Hn He].
  split; [apply nodes_eqb_sound, Hn | split; [apply Nat.eqb_eq, He |]].
  destruct (p_highlight p) as [[[wd c] ss] |]; [apply on_edges_b_sound, Hh | exact I].
Qed.

Lemma figure_ok_sound T :
  figure_ok_b T = true ->
  exists ps, figure T = Ret ps /\ map highlight_count ps = [None; Some 8%nat; Some 8%nat] /\
    Forall (fun p => map fst (p_nodes p) = g_nodes G /\ List.length (p_edges p) = List.length (g_edges G) /\
                     highlight_on_edges p) ps.
Proof.
  unfold figure_ok_b; destruct (figure T) as [ps | |]; try discriminate; intros H.
  apply andb_prop in H as [Hp Hc].
  exists ps; split; [reflexivity | split].
  - destruct (list_eq_dec _ _ _); [assumption | discriminate].
  - apply Forall_forall; intros p Hin; rewrite forallb_forall in Hp; apply panel_ok_sound, Hp, Hin.
Qed.

Lemma mst_ok_sound T :
  mst_ok T = true ->
  Permutation (edges_view T) mst_printed /\
  map first_end (edges_view T) = ["A"; "A"; "C"; "D"; "E"; "E"; "I"; "I"]%string /\
  weight_sum (edges_view T) = 146 /\ figure_ok_b T = true.
Proof.
  unfold mst_ok; intros H.
  repeat match goal with H : _ && _ = true |- _ => apply andb_prop in H as [? ?] end.
  split; [apply (perm_b_sound wedge_eq_dec); assumption |].
  split; [apply nodes_eqb_sound; assumption |].
  split; [apply Z.eqb_eq; assumption | assumption].
Qed.

(** C38: part (b) on any tree [T] whose nodes are distinct and whose
    edge ends are nodes: the header, then every edge of [T] exactly
    once, written from the end added to [T] first, in some order, then
    the total; by networkx's [G.edges] listing each edge once. *)
Theorem part_b_each_edge_once T tw :
  NoDup (g_nodes T) ->
  (forall a b w, In (a, b, w) (g_edges T) -> In a (g_nodes T) /\ In b (g_nodes T)) ->
  Permutation (part_b T tw)
    ([Header_b] ++ map (fun e => edge_line (orient (g_nodes T) e)) (g_edges T) ++ [Total_line tw]).
Proof.
  intros Hnd Hin; unfold part_b; apply Permutation_app_head, Permutation_app_tail.
  rewrite <- (map_map (orient (g_nodes T)) edge_line); apply Permutation_map, edges_view_perm; assumption.
Qed.

(** C37: the figure is drawn without an exception from every start:
    each of its three panels places the nine nodes of [G] at their
    positions and draws its eighteen edges, the second and third
    highlight eight segments each (the shortest-path tree and the
    spanning tree), and every highlighted segment lies on a drawn edge
    of [G]. *)
Theorem figure_drawn pick :
  (forall l, l <> [] -> In (pick l) l) ->
  exists T ps, MST pick = Ret T /\ figure T = Ret ps /\
    map highlight_count ps = [None; Some 8%nat; Some 8%nat] /\
    Forall (fun p => map fst (p_nodes p) = g_nodes G /\ List.length (p_edges p) = List.length (g_edges G) /\
                     highlight_on_edges p) ps.
Proof.
  intros Hpick; destruct (mst_cases pick Hpick) as (T & HT & _ & Hok).
  destruct (mst_ok_sound T Hok) as (_ & _ & _ & Hf).
  destruct (figure_ok_sound T Hf) as (ps & Hps & Hc & Hall).
  exists T, ps; auto.
Qed.

(** C35: the whole script runs to its end, from every start of Prim:
    no exception is raised (no [KeyError] on a path or a position, no
    contradictory Dijkstra path) and every loop finishes; part (a)
    prints the nine listed lines, and part (b) the header, the eight
    edges of the minimum spanning tree, each once and from the node [G]
    lists first, grouped by that node in the order of [G], and the
    total weight 146. *)
Theorem project3_runs pick :
  (forall l, l <> [] -> In (pick l) l) ->
  exists l f, project3 pick = Ret (part_a_printed, [Header_b] ++ map edge_line l ++ [Total_line 146], f) /\
    Permutation l mst_printed /\ map first_end l = ["A"; "A"; "C"; "D"; "E"; "E"; "I"; "I"]%string.
Proof.
  intros Hpick; destruct (mst_cases pick Hpick) as (T & HT & Htw & Hok).
  destruct (mst_ok_sound T Hok) as (Hperm & Hfirst & Hw & Hf).
  destruct (figure_ok_sound T Hf) as (ps & Hps & _).
  exists (edges_view T), ps; split; [| split; [exact Hperm | exact Hfirst]].
  unfold project3; replace report_a with (Ret part_a_printed) by (vm_compute; reflexivity).
  cbn [obind]; rewrite HT; cbn [obind]; rewrite Htw; cbn [obind]; rewrite Hps; cbn [obind].
  unfold part_b; rewrite Hw; reflexivity.
Qed.

(** The order of part (b) depends on the start node: from ["A"] and
    from ["B"], two elements [set.pop()] may return (which one depends
    on the hash seed of the run), the script prints the MST edges in
    different orders. *)
Example part_b_order_example :
  (forall l, l <> [] -> In (prefer "A"%string l) l) /\ (forall l, l <> [] -> In (prefer "B"%string l) l) /\
  exists o1 o2, project3 (prefer "A"%string) = Ret o1 /\ project3 (prefer "B"%string) = Ret o2 /\
    snd (fst o1) <> snd (fst o2).
Proof.
  split; [intros l; apply prefer_valid | split; [intros l; apply prefer_valid |]].
  destruct (project3 (prefer "A"%string)) as [o1 | |] eqn:E1; [| vm_compute in E1; discriminate ..].
  destruct (project3 (prefer "B"%string)) as [o2 | |] eqn:E2; [| vm_compute in E2; discriminate ..].
  exists o1, o2; split; [reflexivity | split; [reflexivity |]].
  vm_compute in E1, E2; injection E1 as <-; injection E2 as <-; vm_compute; discriminate.
Qed.

(** Witnesses. *)

Lemma part_b_each_edge_once_witness :
  Permutation (part_b G 0)
    ([Header_b] ++ map (fun e => edge_line (orient (g_nodes G) e)) (g_edges G) ++ [Total_line 0]).
Proof.
  apply part_b_each_edge_once; [apply nodup_b_NoDup; vm_compute; reflexivity |].
  intros a b w H; vm_compute in H.
  repeat (destruct H as [H | H]; [injection H as <- <- <-; split; apply (proj1 (mem_In _ _)); vm_compute; reflexivity |]).
  destruct H.
Defined.

Lemma figure_drawn_witness :
  exists T ps, MST (prefer "B"%string) = Ret T /\ figure T = Ret ps /\
    map highlight_count ps = [None; Some 8%nat; Some 8%nat] /\
    Forall (fun p => map fst (p_nodes p) = g_nodes G /\ List.length (p_edges p) = List.length (g_edges G) /\
                     highlight_on_edges p) ps.
Proof. apply figure_drawn; intros l; apply prefer_valid. Defined.

Lemma project3_runs_witness :
  exists l f, project3 (prefer "E"%string) = Ret (part_a_printed, [Header_b] ++ map edge_line l ++ [Total_line 146], f) /\
    Permutation l mst_printed /\ map first_end l = ["A"; "A"; "C"; "D"; "E"; "E"; "I"; "I"]%string.
Proof. apply project3_runs; intros l; apply prefer_valid. Defined.
